(** * The virtual file system facade of winas: [src/fruitmix/VFS.js]

    A shallow embedding of the VFS operations (directory resolution, APPEND,
    the tag operations, RMDIR, QUERY, the upkeep of the roots, media lookup,
    drive formatting and entry lookup) together with the proofs of their
    properties.  Callback-completed operations become functions
    from a [World] to an [outcome] and a new [World]; collaborators that
    live outside [VFS.js] (the directory index, extended attributes, the
    btrfs helpers, node's [crypto]) are parameters or are modelled at their
    boundary, and say so. *)

From Stdlib Require Import ZArith String Ascii List Bool Lia DecimalString.
From Stdlib.Strings Require Import Byte.
From stdpp Require Import base option list gmap strings sorting.

Local Open Scope string_scope.
Local Open Scope Z_scope.

(** ** JavaScript values and built-ins used by [VFS.js] *)

Module JS.

(** Strings are sequences of code units; only the ASCII range is
    distinguished by the helpers below. *)

(** A string-valued property used as a condition is truthy when it is
    present and not empty. *)
Definition truthy (o : option string) : bool :=
  match o with
  | Some s => negb (String.eqb s EmptyString)
  | None => false
  end.

(** [String.prototype.split] with a one-character separator. *)
Fixpoint split (sep : ascii) (s : string) : list string :=
  match s with
  | EmptyString => [ EmptyString ]
  | String c r =>
      if Ascii.eqb c sep then EmptyString :: split sep r
      else match split sep r with
           | h :: t => String c h :: t
           | [] => [ String c EmptyString ]
           end
  end.

Definition lower_ascii (c : ascii) : ascii :=
  let n := N_of_ascii c in
  if ((65 <=? n) && (n <=? 90))%N then ascii_of_N (n + 32) else c.

(** [String.prototype.toLowerCase], on the ASCII letters. *)
Fixpoint toLowerCase (s : string) : string :=
  match s with
  | EmptyString => EmptyString
  | String c r => String (lower_ascii c) (toLowerCase r)
  end.

(** [String.prototype.includes]. *)
Fixpoint includes (s sub : string) : bool :=
  String.prefix sub s
  || match s with
     | EmptyString => false
     | String _ r => includes r sub
     end.

(** [Array.prototype.includes] / [indexOf] / [findIndex]. *)
Definition arr_includes (l : list string) (x : string) : bool :=
  existsb (String.eqb x) l.

Fixpoint findIndex {A} (p : A -> bool) (l : list A) : option nat :=
  match l with
  | [] => None
  | x :: r => if p x then Some O else option_map S (findIndex p r)
  end.

Definition indexOf (l : list string) (x : string) : option nat :=
  findIndex (String.eqb x) l.

(** [Array.from(new Set(l))]: duplicates dropped, first occurrences kept
    in order. *)
Fixpoint dedup_go {A} (eqb : A -> A -> bool) (seen l : list A) : list A :=
  match l with
  | [] => []
  | x :: r =>
      if existsb (eqb x) seen then dedup_go eqb seen r
      else x :: dedup_go eqb (x :: seen) r
  end.

Definition uniq {A} (eqb : A -> A -> bool) (l : list A) : list A :=
  dedup_go eqb [] l.

(** Number to string, for integers (template literals and the default
    comparator of [Array.prototype.sort]). *)
Definition string_of_Z (z : Z) : string :=
  NilZero.string_of_int (Z.to_int z).

(** [Array.prototype.sort()] without a comparator orders the elements by
    their string forms.  On an array of distinct integers the outcome
    does not depend on the sorting algorithm; insertion is used here. *)
Definition sort_le (a b : Z) : bool :=
  String.leb (string_of_Z a) (string_of_Z b).

Fixpoint sort_insert (x : Z) (l : list Z) : list Z :=
  match l with
  | [] => [x]
  | y :: r => if sort_le x y then x :: y :: r else y :: sort_insert x r
  end.

Definition sort (l : list Z) : list Z := fold_right sort_insert [] l.

(** *** Numeric conversions *)

Definition digit_of (c : ascii) : option Z :=
  let n := N_of_ascii c in
  if ((48 <=? n) && (n <=? 57))%N then Some (Z.of_N n - 48) else None.

Definition hexdigit_of (c : ascii) : option Z :=
  let n := N_of_ascii c in
  if ((48 <=? n) && (n <=? 57))%N then Some (Z.of_N n - 48)
  else if ((97 <=? n) && (n <=? 102))%N then Some (Z.of_N n - 87)
  else if ((65 <=? n) && (n <=? 70))%N then Some (Z.of_N n - 55)
  else None.

Definition is_space (c : ascii) : bool :=
  let n := N_of_ascii c in
  ((n =? 32) || ((9 <=? n) && (n <=? 13)))%N.

Fixpoint trim_left (s : string) : string :=
  match s with
  | String c r => if is_space c then trim_left r else s
  | EmptyString => s
  end.

(** Longest prefix of digits in the given base: its value and how many
    digits were read. *)
Fixpoint read_digits (dig : ascii -> option Z) (base : Z) (acc : Z)
         (n : nat) (s : string) : Z * nat * string :=
  match s with
  | String c r =>
      match dig c with
      | Some d => read_digits dig base (acc * base + d) (S n) r
      | None => (acc, n, s)
      end
  | EmptyString => (acc, n, s)
  end.

Definition read_sign (s : string) : bool * string :=
  match s with
  | String "-" r => (true, r)
  | String "+" r => (false, r)
  | _ => (false, s)
  end.

Definition is_x (c : ascii) : bool :=
  Ascii.eqb c "x" || Ascii.eqb c "X".

(** [parseInt(s)] with no radix; [None] is NaN. *)
Definition parseInt (s : string) : option Z :=
  let '(neg, s1) := read_sign (trim_left s) in
  let '(v, n, _) :=
    match s1 with
    | String "0" (String x r) =>
        if is_x x then read_digits hexdigit_of 16 0 O r
        else read_digits digit_of 10 0 O s1
    | _ => read_digits digit_of 10 0 O s1
    end in
  match n with
  | O => None
  | S _ => Some (if neg then - v else v)
  end.

(** *** Numbers obtained from strings

    A relational comparison between a number and an object first turns
    the object into a primitive; for an array that is its [toString],
    the elements joined by commas, and the resulting string is read as a
    numeric literal.  Finite values are kept as exact decimals
    [m * 10 ^ e]. *)

Inductive number : Type :=
| NaN
| Infinity (negative : bool)
| Dec (m e : Z).

Fixpoint trim_right (s : string) : string :=
  match s with
  | EmptyString => EmptyString
  | String c r =>
      let r' := trim_right r in
      if is_space c && String.eqb r' EmptyString then EmptyString else String c r'
  end.

Definition bindigit_of (c : ascii) : option Z :=
  match digit_of c with
  | Some d => if d <? 2 then Some d else None
  | None => None
  end.

Definition octdigit_of (c : ascii) : option Z :=
  match digit_of c with
  | Some d => if d <? 8 then Some d else None
  | None => None
  end.

(** All of [s] must be digits of the base, and at least one. *)
Definition all_digits (dig : ascii -> option Z) (base : Z) (s : string)
  : number :=
  match read_digits dig base 0 O s with
  | (v, S _, EmptyString) => Dec v 0
  | _ => NaN
  end.

(** [ExponentPart], which must end the literal. *)
Definition read_exponent (s : string) : option Z :=
  match s with
  | EmptyString => Some 0
  | String c r =>
      if Ascii.eqb c "e" || Ascii.eqb c "E" then
        let '(neg, r1) := read_sign r in
        match read_digits digit_of 10 0 O r1 with
        | (v, S _, EmptyString) => Some (if neg then - v else v)
        | _ => None
        end
      else None
  end.

(** [StrUnsignedDecimalLiteral] other than [Infinity]. *)
Definition read_decimal (s : string) : number :=
  let '(ip, n1, s1) := read_digits digit_of 10 0 O s in
  let '(fp, n2, s2) :=
    match s1 with
    | String "." r => read_digits digit_of 10 0 O r
    | _ => (0, O, s1)
    end in
  match (n1 + n2)%nat with
  | O => NaN
  | S _ =>
      match read_exponent s2 with
      | Some x => Dec (ip * 10 ^ Z.of_nat n2 + fp) (x - Z.of_nat n2)
      | None => NaN
      end
  end.

Definition negate (n : number) : number :=
  match n with
  | NaN => NaN
  | Infinity b => Infinity (negb b)
  | Dec m e => Dec (- m) e
  end.

(** [StringToNumber]. *)
Definition StringToNumber (s : string) : number :=
  let t := trim_right (trim_left s) in
  match t with
  | EmptyString => Dec 0 0
  | String "0" (String x r) =>
      if is_x x then all_digits hexdigit_of 16 r
      else if Ascii.eqb x "o" || Ascii.eqb x "O" then all_digits octdigit_of 8 r
      else if Ascii.eqb x "b" || Ascii.eqb x "B" then all_digits bindigit_of 2 r
      else read_decimal t
  | _ =>
      let '(neg, u) := read_sign t in
      let v := if String.eqb u "Infinity" then Infinity false
               else read_decimal u in
      if neg then negate v else v
  end.

(** [Array.prototype.toString]. *)
Definition array_toString (l : list string) : string := String.concat "," l.

(** [i < n] for an integer [i]. *)
Definition lt_number (i : Z) (n : number) : bool :=
  match n with
  | NaN => false
  | Infinity neg => negb neg
  | Dec m e => if 0 <=? e then i <? m * 10 ^ e else i * 10 ^ (- e) <? m
  end.

(** [i < arr], the array taken as an operand of [<]. *)
Definition lt_array (i : Z) (arr : list string) : bool :=
  lt_number i (StringToNumber (array_toString arr)).

(** *** Buffers *)

(** [Buffer.from(s, 'hex')]: pairs of hexadecimal digits, up to the first
    pair that is not one. *)
Fixpoint hex_decode (s : string) : list byte :=
  match s with
  | String a (String b r) =>
      match hexdigit_of a, hexdigit_of b with
      | Some x, Some y =>
          match Byte.of_N (Z.to_N (16 * x + y)) with
          | Some c => c :: hex_decode r
          | None => []
          end
      | _, _ => []
      end
  | _ => []
  end.

Definition hexchar (n : N) : ascii :=
  if (n <? 10)%N then ascii_of_N (48 + n) else ascii_of_N (87 + n).

(** [digest('hex')] / [buf.toString('hex')]. *)
Fixpoint hex_encode (l : list byte) : string :=
  match l with
  | [] => EmptyString
  | c :: r =>
      let n := Byte.to_N c in
      String (hexchar (n / 16)) (String (hexchar (n mod 16)) (hex_encode r))
  end.

End JS.

(** ** Data model *)

(** A file system path, one segment per element; [path.join(dir, name)]
    adds a segment. *)
Definition path : Type := list string.

Definition path_join (dir : path) (name : string) : path := (dir ++ [name])%list.

(** A JavaScript [Error] with the properties the facade attaches. *)
Record Error : Type := mkError {
  message : string;
  code : option string;
  xcode : option string;
  status : option Z
}.

Definition new_Error (msg : string) : Error :=
  {| message := msg; code := None; xcode := None; status := None |}.

Definition with_status (e : Error) (s : Z) : Error :=
  {| message := message e; code := code e; xcode := xcode e; status := Some s |}.

Definition with_code (e : Error) (c : string) : Error :=
  {| message := message e; code := Some c; xcode := xcode e; status := status e |}.

(** How an operation ends: its callback receives a result, or an error, or
    an exception escapes before any callback. *)
Inductive outcome (A : Type) : Type :=
| Done (a : A)
| Failed (e : Error)
| Thrown (what : string).

Arguments Done {A} a.
Arguments Failed {A} e.
Arguments Thrown {A} what.

Record User : Type := { u_uuid : string }.

(** A drive record of the drive module: [privacy] is [true], [false] or
    absent; [writelist] is an array or absent. *)
Record Drive : Type := {
  d_uuid : string;
  d_type : string;
  d_privacy : option bool;
  d_owner : string;
  d_writelist : option (list string);
  d_isDeleted : bool
}.

(** A tag record of the tag module. *)
Record Tag : Type := {
  t_id : Z;
  t_creator : string;
  t_deleted : bool
}.

(** An element of a [tags] array handed to a tag operation. *)
Inductive TagVal : Type :=
| TInt (id : Z)
| TNotInteger.

Inductive EType : Type := EFile | EDirectory | EOther.

Definition EType_eqb (a b : EType) : bool :=
  match a, b with
  | EFile, EFile | EDirectory, EDirectory | EOther, EOther => true
  | _, _ => false
  end.

(** The record [readXstat] answers with. *)
Record Xstat : Type := {
  x_uuid : string;
  x_type : EType;
  x_name : string;
  x_mtime : Z;
  x_size : Z;
  x_hash : option string;
  x_tags : option (list Z)
}.

(** File content as a sequence of extents. *)
Record Extent : Type := { ext_id : string; ext_size : Z }.

Definition extents_size (l : list Extent) : Z :=
  fold_right (fun x acc => ext_size x + acc) 0 l.

(** What the disk holds at a path: type, modification time, the extended
    attribute record (uuid, hash, tags) and the content. *)
Record Entry : Type := {
  e_uuid : string;
  e_type : EType;
  e_mtime : Z;
  e_hash : option string;
  e_tags : option (list Z);
  e_content : list Extent
}.

Record Metadata : Type := {
  m_type : string;
  m_attrs : list (string * string)
}.

Inductive NodeKind : Type := KDirectory | KFile.

(** A directory on the chain from a root down to a node. *)
Record Ref : Type := {
  r_uuid : string;
  r_name : string;
  r_mtime : Z
}.

(** Modelled from the spec: the Node / Directory / File classes
    ([vfs/node], [vfs/directory], [vfs/file]) are not among the sources.
    A node carries its identity, name, modification time and, in place of
    the parent reference, the chain of its ancestors from the root down to
    its parent; a Root has an empty chain.  File nodes carry size, hash,
    tags and metadata. *)
Record Node : Type := {
  n_uuid : string;
  n_name : string;
  n_kind : NodeKind;
  n_mtime : Z;
  n_chain : list Ref;
  n_size : Z;
  n_hash : option string;
  n_tags : option (list Z);
  n_metadata : option Metadata;
  n_archived : option bool;
  n_bctime : option Z;
  n_bmtime : option Z
}.

Definition self_ref (n : Node) : Ref :=
  {| r_uuid := n_uuid n; r_name := n_name n; r_mtime := n_mtime n |}.

(** [node.nodepath()]: the root-to-node chain. *)
Definition nodepath (n : Node) : list Ref := (n_chain n ++ [self_ref n])%list.

(** [node.root()]. *)
Definition root (n : Node) : Ref :=
  match n_chain n with
  | r :: _ => r
  | [] => self_ref n
  end.

(** [node.parent]. *)
Definition parent (n : Node) : option Ref := last (n_chain n).

(** Calls of file system primitives, in the order they are issued. *)
Inductive FsCall : Type :=
| Call_rmdir (p : path)
| Call_rimraf (p : path)
| Call_rename (from to : path)
| Call_btrfsConcat (dst : path) (srcs : list path)
| Call_forceXstat (p : path)
| Call_updateFileTags (p : path)
| Call_createWriteStream (p : path).

(** Everything the facade reads or changes: the drive and tag rosters, the
    index of the Forest ([uuidMap], [timedFiles]), the entries on disk, the
    plain text files written through streams, the source of fresh temporary
    names, the clock and the log of primitive calls. *)
Record World : Type := {
  w_fruitmixDir : path;
  w_drives : list Drive;
  w_tags : list Tag;
  w_uuidMap : gmap string Node;
  w_timedFiles : list Node;
  w_disk : gmap path Entry;
  w_text : gmap path string;
  w_tmpseq : nat;
  w_clock : Z;
  w_calls : list FsCall
}.

Definition tmpDir (w : World) : path := path_join (w_fruitmixDir w) "tmp".
Definition driveDir (w : World) : path := path_join (w_fruitmixDir w) "drives".

Definition set_disk (w : World) (d : gmap path Entry) : World :=
  {| w_fruitmixDir := w_fruitmixDir w; w_drives := w_drives w;
     w_tags := w_tags w; w_uuidMap := w_uuidMap w;
     w_timedFiles := w_timedFiles w; w_disk := d; w_text := w_text w;
     w_tmpseq := w_tmpseq w; w_clock := w_clock w; w_calls := w_calls w |}.

Definition set_text (w : World) (t : gmap path string) : World :=
  {| w_fruitmixDir := w_fruitmixDir w; w_drives := w_drives w;
     w_tags := w_tags w; w_uuidMap := w_uuidMap w;
     w_timedFiles := w_timedFiles w; w_disk := w_disk w; w_text := t;
     w_tmpseq := w_tmpseq w; w_clock := w_clock w; w_calls := w_calls w |}.

Definition log_call (c : FsCall) (w : World) : World :=
  {| w_fruitmixDir := w_fruitmixDir w; w_drives := w_drives w;
     w_tags := w_tags w; w_uuidMap := w_uuidMap w;
     w_timedFiles := w_timedFiles w; w_disk := w_disk w; w_text := w_text w;
     w_tmpseq := w_tmpseq w; w_clock := w_clock w;
     w_calls := (w_calls w ++ [c])%list |}.

(** [TMPFILE()] / [genTmpPath()]: [path.join(tmpDir, UUID.v4())].  The
    random names are drawn from a counter. *)
Definition TMPFILE (w : World) : path * World :=
  (path_join (tmpDir w) (JS.string_of_Z (Z.of_nat (w_tmpseq w))),
   {| w_fruitmixDir := w_fruitmixDir w; w_drives := w_drives w;
      w_tags := w_tags w; w_uuidMap := w_uuidMap w;
      w_timedFiles := w_timedFiles w; w_disk := w_disk w; w_text := w_text w;
      w_tmpseq := S (w_tmpseq w); w_clock := w_clock w;
      w_calls := w_calls w |}).

(** ** Collaborators at the boundary of [VFS.js] *)

Module Underlying.

Definition basename (p : path) : string :=
  match last p with
  | Some s => s
  | None => EmptyString
  end.

Definition xstat_of (p : path) (e : Entry) : Xstat :=
  {| x_uuid := e_uuid e; x_type := e_type e; x_name := basename p;
     x_mtime := e_mtime e; x_size := extents_size (e_content e);
     x_hash := e_hash e; x_tags := e_tags e |}.

Definition ENOENT : Error :=
  with_code (new_Error "no such file or directory") "ENOENT".

(** Modelled from the spec: [lib/xstat] is not among the sources.
    [readXstat] reads the persistent per-entry record (uuid, type, size,
    hash, modification time, tags) of the entry at a path; a missing
    entry is [ENOENT], an entry that is neither a file nor a directory is
    refused with the [EUNSUPPORTED] xcode that APPEND tests for. *)
Definition readXstat (w : World) (p : path) : outcome Xstat :=
  match w_disk w !! p with
  | None => Failed ENOENT
  | Some e =>
      match e_type e with
      | EOther =>
          Failed {| message := "unsupported file type"; code := None;
                    xcode := Some "EUNSUPPORTED"; status := None |}
      | _ => Done (xstat_of p e)
      end
  end.

(** [fs.lstat]: the modification time of the entry at a path. *)
Definition lstat_mtime (w : World) (p : path) : outcome Z :=
  match w_disk w !! p with
  | None => Failed ENOENT
  | Some e => Done (e_mtime e)
  end.

(** [rimraf(p, () => {})]: the entry is removed if there is one; nothing
    is reported. *)
Definition rimraf (p : path) (w : World) : World :=
  log_call (Call_rimraf p)
    (set_text (set_disk w (delete p (w_disk w))) (delete p (w_text w))).

(** Modelled from the spec: [lib/btrfs] is not among the sources.
    Concatenate-files puts the content of the sources, one after the
    other, in a new file at [dst]; every source must be a file. *)
Fixpoint gather (d : gmap path Entry) (srcs : list path)
  : option (list Extent) :=
  match srcs with
  | [] => Some []
  | p :: r =>
      match d !! p with
      | Some e =>
          match e_type e, gather d r with
          | EFile, Some l => Some (e_content e ++ l)%list
          | _, _ => None
          end
      | None => None
      end
  end.

Definition btrfsConcat (dst : path) (srcs : list path) (w : World)
  : outcome unit * World :=
  let w1 := log_call (Call_btrfsConcat dst srcs) w in
  match gather (w_disk w) srcs with
  | None => (Failed ENOENT, w1)
  | Some l =>
      (Done tt,
       set_disk w1
         (<[ dst := {| e_uuid := EmptyString; e_type := EFile;
                       e_mtime := w_clock w; e_hash := None;
                       e_tags := None; e_content := l |} ]> (w_disk w)))
  end.

(** Modelled from the spec: [forceXstat] of [lib/xstat] writes the given
    uuid and hash into the record of the file at a path and answers with
    the record as written. *)
Definition forceXstat (p : path) (uuid : string) (hash : option string)
           (w : World) : outcome Xstat * World :=
  let w1 := log_call (Call_forceXstat p) w in
  match w_disk w !! p with
  | None => (Failed ENOENT, w1)
  | Some e =>
      let e' := {| e_uuid := uuid; e_type := e_type e; e_mtime := e_mtime e;
                   e_hash := hash; e_tags := None;
                   e_content := e_content e |} in
      (Done (xstat_of p e'), set_disk w1 (<[ p := e' ]> (w_disk w)))
  end.

(** [fs.rename]: the entry moves, replacing what was at the new path. *)
Definition rename (from to : path) (w : World) : outcome unit * World :=
  let w1 := log_call (Call_rename from to) w in
  match w_disk w !! from with
  | None => (Failed ENOENT, w1)
  | Some e => (Done tt, set_disk w1 (<[ to := e ]> (delete from (w_disk w))))
  end.

(** Modelled from the spec: [updateFileTags] of [lib/xstat] replaces the
    tags in the record of the file at a path, provided the file is the
    one with the given uuid, and answers with the updated record. *)
Definition updateFileTags (p : path) (uuid : string) (tags : list Z)
           (w : World) : outcome Xstat * World :=
  let w1 := log_call (Call_updateFileTags p) w in
  match w_disk w !! p with
  | None => (Failed ENOENT, w1)
  | Some e =>
      if EType_eqb (e_type e) EFile && String.eqb (e_uuid e) uuid then
        let e' := {| e_uuid := e_uuid e; e_type := e_type e;
                     e_mtime := e_mtime e; e_hash := e_hash e;
                     e_tags := Some tags; e_content := e_content e |} in
        (Done (xstat_of p e'), set_disk w1 (<[ p := e' ]> (w_disk w)))
      else
        (Failed (with_code (new_Error "instance mismatch") "EINSTANCE"), w1)
  end.

Definition is_prefix_path (d p : path) : bool :=
  bool_decide (take (length d) p = d).

(** [fs.rmdir]: removes an empty directory. *)
Definition rmdir (p : path) (w : World) : option Error * World :=
  let w1 := log_call (Call_rmdir p) w in
  match w_disk w !! p with
  | None => (Some ENOENT, w1)
  | Some e =>
      match e_type e with
      | EDirectory =>
          if bool_decide (map_Forall
               (fun q _ => q = p \/ is_prefix_path p q = false) (w_disk w))
          then (None, set_disk w1 (delete p (w_disk w)))
          else (Some (with_code (new_Error "directory not empty") "ENOTEMPTY"), w1)
      | _ => (Some (with_code (new_Error "not a directory") "ENOTDIR"), w1)
      end
  end.

End Underlying.

(** ** The facade: permissions and directory resolution *)

(** The property bag of the directory operations. *)
Record Props : Type := {
  p_driveUUID : option string;
  p_dirUUID : option string;
  p_name : string;
  p_hash : option string;
  p_data : option path;
  p_sha256 : option string;
  p_tags : option (list TagVal)
}.

Definition userCanWriteDrive (user : User) (drive : Drive) : bool :=
  if bool_decide (d_privacy drive = Some true) || String.eqb (d_type drive) "backup"
  then String.eqb (u_uuid user) (d_owner drive)
  else if bool_decide (d_privacy drive = Some false) then
    match d_writelist drive with
    | Some l => JS.arr_includes l (u_uuid user)
    | None => true
    end
  else false.

(** [this.drives.find(d => d.uuid === uuid)]. *)
Definition find_drive (w : World) (uuid : string) : option Drive :=
  find (fun d => String.eqb (d_uuid d) uuid) (w_drives w).

(** [this.forest.uuidMap.get(uuid)]. *)
Definition uuidMap_get (w : World) (uuid : option string) : option Node :=
  match uuid with
  | Some u => w_uuidMap w !! u
  | None => None
  end.

(** [!drive || drive.isDeleted || !this.userCanWriteDrive(user, drive)]. *)
Definition inaccessible (user : User) (drive : option Drive) : bool :=
  match drive with
  | None => true
  | Some d => d_isDeleted d || negb (userCanWriteDrive user d)
  end.

Definition E404 (msg : string) : Error := with_status (new_Error msg) 404.
Definition E403 (msg : string) : Error := with_status (new_Error msg) 403.

Definition DIR (w : World) (user : User) (props : Props) : outcome Node :=
  if JS.truthy (p_driveUUID props)
     && inaccessible user (find_drive w (default EmptyString (p_driveUUID props)))
  then Failed (E404 "drive not found")
  else
    match uuidMap_get w (p_dirUUID props) with
    | None => Failed (E404 "dir not found")
    | Some dir =>
        match find_drive w (r_uuid (root dir)) with
        | None => Failed (E404 "dir not found")
        | Some drive =>
            if d_isDeleted drive || negb (userCanWriteDrive user drive)
            then Failed (E404 "dir not found")
            else if JS.truthy (p_driveUUID props)
                    && negb (String.eqb (d_uuid drive)
                               (default EmptyString (p_driveUUID props)))
            then Failed (with_status (new_Error "dir moved elsewhere") 301)
            else Done dir
        end
    end.

(** Modelled from the spec: [node.abspath()] is not among the sources.  A
    Root lives at [driveDir/<drive uuid>] and carries that uuid as its
    name; a node lives under its root at the names of its chain. *)
Definition absolutePath (w : World) (n : Node) : path :=
  (driveDir w ++ map r_name (nodepath n))%list.

Definition abspath_of_chain (w : World) (c : list Ref) : path :=
  (driveDir w ++ map r_name c)%list.




Section Facade.

(** [dir.read(callback)] of the Directory class, which is not among the
    sources: the directory is named by its root-to-node chain; the read
    reconciles index and disk and answers with the entries or an
    error. *)
Variable dir_read : list Ref -> World -> (Error + list Xstat) * World.

(** [this.backup.READDIR], of the backup module. *)
Variable backup_READDIR : User -> Props -> World -> outcome (list Xstat) * World.



(** [RMDIR]: the callback is completed before the parent is read
    again. *)
Definition RMDIR (user : User) (props : Props) (w : World)
  : outcome unit * World :=
  match DIR w user props with
  | Failed err => (Failed err, w)
  | Thrown t => (Thrown t, w)
  | Done dir =>
      match parent dir with
      | None => (Failed (new_Error "root dir cannot be removed"), w)
      | Some _ =>
          let dirPath := absolutePath w dir in
          match Underlying.rmdir dirPath w with
          | (Some _, w') => (Done tt, w')
          | (None, w') => (Done tt, snd (dir_read (n_chain dir) w'))
          end
      end
  end.

End Facade.

(** ** APPEND *)

Definition opt_string_eqb (a b : option string) : bool :=
  match a, b with
  | Some x, Some y => String.eqb x y
  | None, None => true
  | _, _ => false
  end.

(** A template literal prints a missing value as [undefined]. *)
Definition show_opt (o : option string) : string :=
  match o with
  | Some s => s
  | None => "undefined"
  end.

(** The alignment unit, [1024 * 1024 * 1024]. *)
Definition GiB : Z := 1024 * 1024 * 1024.

(** [if (props.data) rimraf(props.data, () => {})]. *)
Definition discard_data (props : Props) (w : World) : World :=
  match p_data props with
  | Some d => Underlying.rimraf d w
  | None => w
  end.

Section Append.

(** [crypto.createHash('sha256')], from bytes to the 32-byte digest. *)
Variable SHA256 : list byte -> list byte.

(** What other writers do to the world while the concatenation runs. *)
Variable concurrent : World -> World.

(** [combineHash] of APPEND.  An operand that is not a string is passed
    to [Buffer.concat] as it is, which throws for [undefined]. *)
Definition combineHash (a b : option string) : outcome string :=
  match a, b with
  | Some a, Some b =>
      Done (JS.hex_encode (SHA256 (JS.hex_decode a ++ JS.hex_decode b)%list))
  | _, _ => Thrown "TypeError"
  end.

(** The [cb] of APPEND: the uploaded data file is discarded, then the
    caller's callback runs. *)
Definition cb {A} (props : Props) (r : outcome A) (w : World)
  : outcome A * World :=
  (r, discard_data props w).

Definition APPEND (user : User) (props : Props) (w : World)
  : outcome Xstat * World :=
  match DIR w user props with
  | Failed err => cb props (Failed err) w
  | Thrown t => (Thrown t, w)
  | Done dir =>
      let name := p_name props in
      let hash := p_hash props in
      let sha256 := p_sha256 props in
      (* a call without [data] names no file to append *)
      let data := default [] (p_data props) in
      let target := path_join (absolutePath w dir) name in
      match Underlying.readXstat w target with
      | Thrown t => (Thrown t, w)
      | Failed err =>
          let err :=
            if opt_string_eqb (code err) (Some "ENOENT")
               || opt_string_eqb (code err) (Some "EISDIR")
               || opt_string_eqb (xcode err) (Some "EUNSUPPORTED")
            then with_status err 403 else err in
          cb props (Failed err) w
      | Done xstat =>
          if negb (EType_eqb (x_type xstat) EFile) then
            cb props (Failed (with_status
                        (with_code (new_Error "not a file") "EISDIR") 403)) w
          else if negb (Z.rem (x_size xstat) GiB =? 0) then
            cb props (Failed (with_status
                        (with_code (new_Error "not a multiple of 1G") "EALIGN") 403)) w
          else if negb (opt_string_eqb (x_hash xstat) hash) then
            cb props (Failed (with_status
                        (with_code
                           (new_Error ("hash mismatch, actual: "
                                       +:+ show_opt (x_hash xstat)))
                           "EHASHMISMATCH") 403)) w
          else
            let '(tmp, w1) := TMPFILE w in
            match Underlying.btrfsConcat tmp [target; data] w1 with
            | (Thrown t, w2) => (Thrown t, w2)
            | (Failed err, w2) => cb props (Failed err) w2
            | (Done _, w2) =>
                let w3 := concurrent (Underlying.rimraf data w2) in
                match Underlying.lstat_mtime w3 target with
                | Thrown t => (Thrown t, w3)
                | Failed err => cb props (Failed err) w3
                | Done mtime =>
                    if negb (mtime =? x_mtime xstat) then
                      cb props (Failed (with_status
                                  (with_code (new_Error "race detected") "ERACE")
                                  403)) w3
                    else
                      match (if x_size xstat =? 0 then Done sha256
                             else match combineHash hash sha256 with
                                  | Done h => Done (Some h)
                                  | Failed e => Failed e
                                  | Thrown t => Thrown t
                                  end) with
                      | Thrown t => (Thrown t, w3)
                      | Failed err => cb props (Failed err) w3
                      | Done newhash =>
                          match Underlying.forceXstat tmp (x_uuid xstat) newhash w3 with
                          | (Thrown t, w4) => (Thrown t, w4)
                          | (Failed err, w4) => cb props (Failed err) w4
                          | (Done xstat2, w4) =>
                              let xstat2 :=
                                {| x_uuid := x_uuid xstat2;
                                   x_type := x_type xstat2;
                                   x_name := name;
                                   x_mtime := x_mtime xstat2;
                                   x_size := x_size xstat2;
                                   x_hash := x_hash xstat2;
                                   x_tags := x_tags xstat2 |} in
                              match Underlying.rename tmp target w4 with
                              | (Done _, w5) => cb props (Done xstat2) w5
                              | (Failed err, w5) => cb props (Failed err) w5
                              | (Thrown t, w5) => (Thrown t, w5)
                              end
                          end
                      end
                end
            end
      end
  end.

End Append.

(** ** Tags *)

Definition valid_tag_value (v : TagVal) : bool :=
  match v with
  | TInt id => 0 <=? id
  | TNotInteger => false
  end.

Definition tag_ids (l : list TagVal) : list Z :=
  flat_map (fun v => match v with TInt id => [id] | TNotInteger => [] end) l.

(** [this.tags.find(tag => tag.id === id && tag.creator === user.uuid
    && !tag.deleted)]. *)
Definition find_tag (w : World) (user : User) (id : Z) : option Tag :=
  find (fun t => (t_id t =? id) && String.eqb (t_creator t) (u_uuid user)
                 && negb (t_deleted t)) (w_tags w).

(** The [forEach] over the ids: the first id without a usable tag ends it
    with an error. *)
Fixpoint check_tag_ids (w : World) (user : User) (ids : list Z)
  : option Error :=
  match ids with
  | [] => None
  | id :: r =>
      match find_tag w user id with
      | Some tag =>
          if negb (String.eqb (t_creator tag) (u_uuid user))
          then Some (new_Error ("tag id " +:+ JS.string_of_Z id +:+ " not found"))
          else check_tag_ids w user r
      | None => Some (new_Error ("tag id " +:+ JS.string_of_Z id +:+ " not found"))
      end
  end.

(** The [try] block that opens ADDTAGS, REMOVETAGS and SETTAGS; whatever
    it throws is given status 400. *)
Definition check_tags (w : World) (user : User) (tags : option (list TagVal))
  : option Error :=
  match tags with
  | None => Some (with_status (new_Error "invalid tags") 400)
  | Some l =>
      if (length l =? 0)%nat || negb (forallb valid_tag_value l)
      then Some (with_status (new_Error "invalid tags") 400)
      else option_map (fun e => with_status e 400)
                      (check_tag_ids w user (tag_ids l))
  end.

(** [Array.from(new Set(props.tags)).sort()]. *)
Definition normalize_tags (tags : option (list TagVal)) : list Z :=
  JS.sort (JS.uniq Z.eqb (tag_ids (default [] tags))).

Definition ENOTFILE : Error := with_code (new_Error "not a file") "ENOTFILE".

Definition ADDTAGS (user : User) (props : Props) (w : World)
  : outcome Xstat * World :=
  match check_tags w user (p_tags props) with
  | Some err => (Failed err, w)
  | None =>
      match DIR w user props with
      | Failed err => (Failed err, w)
      | Thrown t => (Thrown t, w)
      | Done dir =>
          let tags := normalize_tags (p_tags props) in
          let filePath := path_join (absolutePath w dir) (p_name props) in
          match Underlying.readXstat w filePath with
          | Failed err => (Failed err, w)
          | Thrown t => (Thrown t, w)
          | Done xstat =>
              if negb (EType_eqb (x_type xstat) EFile) then (Failed ENOTFILE, w)
              else
                let oldTags := default [] (x_tags xstat) in
                let newTags := JS.sort (JS.uniq Z.eqb (oldTags ++ tags)%list) in
                if (length newTags =? length oldTags)%nat then (Done xstat, w)
                else Underlying.updateFileTags filePath (x_uuid xstat) newTags w
          end
      end
  end.

Definition REMOVETAGS (user : User) (props : Props) (w : World)
  : outcome Xstat * World :=
  match check_tags w user (p_tags props) with
  | Some err => (Failed err, w)
  | None =>
      let tags := normalize_tags (p_tags props) in
      match DIR w user props with
      | Failed err => (Failed err, w)
      | Thrown t => (Thrown t, w)
      | Done dir =>
          let filePath := path_join (absolutePath w dir) (p_name props) in
          match Underlying.readXstat w filePath with
          | Failed err => (Failed err, w)
          | Thrown t => (Thrown t, w)
          | Done xstat =>
              if negb (EType_eqb (x_type xstat) EFile) then (Failed ENOTFILE, w)
              else
                match x_tags xstat with
                | None => (Done xstat, w)
                | Some old =>
                    (* the complementary set *)
                    let newTags :=
                      fold_left (fun acc id =>
                                   if existsb (Z.eqb id) tags then acc
                                   else (acc ++ [id])%list) old [] in
                    Underlying.updateFileTags filePath (x_uuid xstat) newTags w
                end
          end
      end
  end.

Definition SETTAGS (user : User) (props : Props) (w : World)
  : outcome Xstat * World :=
  match check_tags w user (p_tags props) with
  | Some err => (Failed err, w)
  | None =>
      let tags := normalize_tags (p_tags props) in
      match DIR w user props with
      | Failed err => (Failed err, w)
      | Thrown t => (Thrown t, w)
      | Done dir =>
          let filePath := path_join (absolutePath w dir) (p_name props) in
          match Underlying.readXstat w filePath with
          | Failed err => (Failed err, w)
          | Thrown t => (Thrown t, w)
          | Done xstat =>
              if negb (EType_eqb (x_type xstat) EFile) then (Failed ENOTFILE, w)
              else Underlying.updateFileTags filePath (x_uuid xstat) tags w
          end
      end
  end.

(** ** QUERY *)

(** The property bag of QUERY: every property is a string of the request or
    absent. *)
Record QueryProps : Type := {
  q_places : option string;
  q_order : option string;
  q_starti : option string;
  q_starte : option string;
  q_last : option string;
  q_count : option string;
  q_countOnly : option string;
  q_groupBy : option string;
  q_class : option string;
  q_types : option string;
  q_tags : option string;
  q_name : option string;
  q_fileOnly : option string
}.

(** A record of a query result.  The chronological mode leaves [type]
    out; the hierarchical mode leaves size, hash, tags and metadata out of
    the records of directories. *)
Record QRecord : Type := {
  qr_uuid : string;
  qr_pdir : string;
  qr_type : option string;
  qr_name : string;
  qr_size : option Z;
  qr_mtime : Z;
  qr_hash : option string;
  qr_tags : option (list Z);
  qr_metadata : option Metadata;
  qr_place : nat;
  qr_archived : option bool;
  qr_bctime : option Z;
  qr_bmtime : option Z;
  qr_namepath : list string
}.

Inductive QResult : Type :=
| QCount (n : Z)
| QGroups (groups : list (string * Z))
| QFile (tmp : path)
| QArray (records : list QRecord).

Inductive Order : Type := Newest | Oldest | Find.

(** The arguments [iterateList] receives from QUERY. *)
Record ListArgs : Type := {
  la_order : Order;
  la_start : option (Z * string * bool);
  la_count : option Z;
  la_places : list string;
  la_types : option (list string);
  la_tags : option (list (option Z));
  la_name : option string;
  la_countOnly : option bool;
  la_groupBy : bool
}.

Definition UUID_MIN : string := "00000000-0000-4000-0000-000000000000".
Definition UUID_MAX : string := "ffffffff-ffff-4fff-ffff-ffffffffffff".

Definition EInval {A} (msg : string) : outcome A :=
  Failed (with_status (new_Error msg) 400).

Definition class_types (c : string) : option (list string) :=
  if String.eqb c "image" then
    Some ["JPEG"; "PNG"; "GIF"; "TIFF"; "BMP"; "HEIC"]
  else if String.eqb c "video" then
    Some ["RM"; "RMVB"; "WMV"; "AVI"; "MPEG"; "MP4"; "3GP"; "MOV"; "FLV"; "MKV"]
  else if String.eqb c "audio" then
    Some ["RA"; "WMA"; "MP3"; "MKA"; "WAV"; "APE"; "FLAC"]
  else if String.eqb c "document" then
    Some ["DOC"; "DOCX"; "XLS"; "XLSX"; "PPT"; "PPTX"; "PDF"; "KEY";
          "NUMBERS"; "PAGES"]
  else None.

Definition opt_Z_eqb (a b : option Z) : bool :=
  match a, b with
  | Some x, Some y => x =? y
  | None, None => true
  | _, _ => false
  end.

(** ** The time-sorted sequence of the Forest *)

(** Modelled from the spec: the Forest ([vfs/forest]) and its sorted array
    are not among the sources.  The sequence is keyed by [(mtime, uuid)];
    [file.getTime()] is the time of the key. *)
Definition getTime (f : Node) : Z := n_mtime f.

Definition key_ltb (t1 : Z) (u1 : string) (t2 : Z) (u2 : string) : bool :=
  (t1 <? t2) || ((t1 =? t2) && String.ltb u1 u2).

(** Modelled from the spec: [indexOfByKey(time, uuid)] is the position a
    key has, or would be inserted at, in the sorted sequence: the number of
    leading files with a smaller key. *)
Fixpoint indexOfByKey (files : list Node) (time : Z) (uuid : string) : nat :=
  match files with
  | [] => O
  | f :: r =>
      if key_ltb (getTime f) (n_uuid f) time uuid
      then S (indexOfByKey r time uuid)
      else O
  end.

(** ** Chronological mode: [iterateList] *)

(** The mutable locals of [iterateList]: the number of matches, the count
    results ([results] as a number and as an array of groups), and the
    stream with its comma flag. *)
Record Acc : Type := {
  findCounter : Z;
  results_n : Z;
  results_groups : list (string * Z);
  writeComma : bool;
  written : string
}.

Fixpoint bump_group (key : string) (l : list (string * Z))
  : option (list (string * Z)) :=
  match l with
  | [] => None
  | (k, c) :: r =>
      if String.eqb k key then Some ((k, c + 1) :: r)
      else option_map (cons (k, c)) (bump_group key r)
  end.

Section Query.

(** [isUUID] of [lib/assertion], which is not among the sources. *)
Variable isUUID : string -> bool.

(** [JSON.stringify] on a result record. *)
Variable JSON_stringify : QRecord -> string.

Definition name_filter (name : option string) (node_name : string) : bool :=
  match name with
  | Some n =>
      negb (negb (String.eqb n EmptyString)
            && negb (JS.includes (JS.toLowerCase node_name) (JS.toLowerCase n)))
  | None => true
  end.

Definition types_filter (types : option (list string))
           (md : option Metadata) : bool :=
  match types with
  | Some ts =>
      match md with
      | Some m => JS.arr_includes ts (m_type m)
      | None => false
      end
  | None => true
  end.

Definition tags_filter (tags : option (list (option Z)))
           (ftags : option (list Z)) : bool :=
  match tags with
  | Some ts =>
      match ftags with
      | Some fts =>
          forallb (fun t => match t with
                            | Some z => existsb (Z.eqb z) fts
                            | None => false
                            end) ts
      | None => false
      end
  | None => true
  end.

(** The uuids of the ancestors: [nodepath().map(n => n.uuid).slice(0, -1)]. *)
Definition ancestor_uuids (file : Node) : list string :=
  removelast (map r_uuid (nodepath file)).

Definition place_index (places : list string) (file : Node) : option nat :=
  JS.findIndex (fun place => JS.arr_includes (ancestor_uuids file) place) places.

(** The record written for a matched file. *)
Definition list_record (places : list string) (index : nat) (file : Node)
  : QRecord :=
  let uuids := ancestor_uuids file in
  let from := match JS.indexOf uuids (nth index places EmptyString) with
              | Some i => S i
              | None => O
              end in
  {| qr_uuid := n_uuid file;
     qr_pdir := match parent file with
                | Some p => r_uuid p
                | None => EmptyString
                end;
     qr_type := None;
     qr_name := n_name file;
     qr_size := Some (n_size file);
     qr_mtime := n_mtime file;
     qr_hash := n_hash file;
     qr_tags := n_tags file;
     qr_metadata := n_metadata file;
     qr_place := index;
     qr_archived := n_archived file;
     qr_bctime := n_bctime file;
     qr_bmtime := n_bmtime file;
     qr_namepath := drop from (map r_name (nodepath file)) |}.

(** [match] of [iterateList]. *)
Definition match_file (a : ListArgs) (file : Node) (s : Acc) : Acc :=
  if negb (name_filter (la_name a) (n_name file)) then s
  else if negb (types_filter (la_types a) (n_metadata file)) then s
  else if negb (tags_filter (la_tags a) (n_tags file)) then s
  else
    match place_index (la_places a) file with
    | None => s
    | Some index =>
        let counter := findCounter s + 1 in
        if bool_decide (la_countOnly a = Some true) then
          if la_groupBy a then
            let key := nth index (la_places a) EmptyString in
            {| findCounter := counter;
               results_n := results_n s;
               results_groups :=
                 match bump_group key (results_groups s) with
                 | Some l => l
                 | None => (results_groups s ++ [(key, 1)])%list
                 end;
               writeComma := writeComma s;
               written := written s |}
          else
            {| findCounter := counter;
               results_n := results_n s + 1;
               results_groups := results_groups s;
               writeComma := writeComma s;
               written := written s |}
        else
          let xstat := list_record (la_places a) index file in
          {| findCounter := counter;
             results_n := results_n s;
             results_groups := results_groups s;
             writeComma := true;
             written := (if writeComma s then written s +:+ "," else written s)
                        +:+ JSON_stringify xstat |}
    end.

(** [count && findCounter >= count]. *)
Definition count_reached (a : ListArgs) (s : Acc) : bool :=
  match la_count a with
  | Some c => negb (c =? 0) && (c <=? findCounter s)
  | None => false
  end.

(** The body of both [for] loops over the files to visit, in visiting
    order: [match], then the [break] test. *)
Fixpoint scan (a : ListArgs) (l : list Node) (s : Acc) : Acc :=
  match l with
  | [] => s
  | f :: r =>
      let s' := match_file a f s in
      if count_reached a s' then s' else scan a r s'
  end.

Definition at_key (files : list Node) (i : nat) (time : Z) (uuid : string)
  : bool :=
  match files !! i with
  | Some f => (getTime f =? time) && String.eqb (n_uuid f) uuid
  | None => false
  end.

(** The files the loop visits, in order. *)
Definition visit_order (a : ListArgs) (files : list Node) : list Node :=
  match la_order a with
  | Newest =>
      let startIndex : Z :=
        match la_start a with
        | None => Z.of_nat (length files) - 1
        | Some (time, uuid, exclusive) =>
            let i := indexOfByKey files time uuid in
            if (i =? length files)%nat then Z.of_nat i - 1
            else if exclusive && at_key files i time uuid then Z.of_nat i - 1
            else Z.of_nat i
        end in
      rev (take (Z.to_nat (startIndex + 1)) files)
  | Oldest | Find =>
      let startIndex : nat :=
        match la_start a with
        | None => O
        | Some (time, uuid, exclusive) =>
            let i := indexOfByKey files time uuid in
            if exclusive && (i <? length files)%nat && at_key files i time uuid
            then S i else i
        end in
      drop startIndex files
  end.

Definition iterateList (user : User) (a : ListArgs) (w : World)
  : outcome QResult * World :=
  let files := w_timedFiles w in
  let '(tmpF, w1) := TMPFILE w in
  let countOnly := bool_decide (la_countOnly a = Some true) in
  let w2 := if countOnly then w1 else log_call (Call_createWriteStream tmpF) w1 in
  let s0 := {| findCounter := 0; results_n := 0; results_groups := [];
               writeComma := false;
               written := if countOnly then EmptyString else "[" |} in
  let s := scan a (visit_order a files) s0 in
  if countOnly then
    (Done (if la_groupBy a then QGroups (results_groups s)
           else QCount (results_n s)), w2)
  else
    (Done (QFile tmpF),
     set_text w2 (<[ tmpF := written s +:+ "]" ]> (w_text w2))).

(** *** Hierarchical mode: [iterateTreeSync] *)

(** [root.iterate(cursor, visitor)] of the Directory class, which is not
    among the sources: the nodes it presents to the visitor, in order,
    when started at the cursor [(namepath, type)] and never stopped. *)
Variable iterate_from : World -> Node -> list string -> string -> list Node.

Record TreeArgs : Type := {
  ta_last : option (nat * string * list string);
  ta_count : option Z;
  ta_places : list string;
  ta_types : option (list string);
  ta_tags : option (list (option Z));
  ta_name : option string;
  ta_fileOnly : bool
}.

Definition tree_namepath (place : Node) (node : Node) : list string :=
  let np := nodepath node in
  let from := match JS.indexOf (map r_uuid np) (n_uuid place) with
              | Some i => S i
              | None => O
              end in
  map r_name (drop from np).

(** [arr.push(xstat); if (arr.length === count) return true]. *)
Definition push_record (a : TreeArgs) (x : QRecord) (arr : list QRecord)
  : outcome (list QRecord * bool) :=
  let arr' := (arr ++ [x])%list in
  Done (arr', match ta_count a with
              | Some c => Z.of_nat (length arr') =? c
              | None => false
              end).

(** The visitor [F].  Reading [node.parent.uuid] on a node without
    parent throws, and so does [node.tags.include]. *)
Definition F (a : TreeArgs) (place : Node) (rootIndex : nat)
           (node : Node) (arr : list QRecord)
  : outcome (list QRecord * bool) :=
  match n_kind node with
  | KDirectory =>
      if bool_decide (ta_types a <> None) || bool_decide (ta_tags a <> None)
         || ta_fileOnly a
      then Done (arr, false)
      else if negb (name_filter (ta_name a) (n_name node)) then Done (arr, false)
      else
        match parent node with
        | None => Thrown "TypeError"
        | Some p =>
            push_record a
              {| qr_uuid := n_uuid node; qr_pdir := r_uuid p;
                 qr_type := Some "directory"; qr_name := n_name node;
                 qr_size := None; qr_mtime := Z.abs (n_mtime node);
                 qr_hash := None; qr_tags := None; qr_metadata := None;
                 qr_place := rootIndex; qr_archived := n_archived node;
                 qr_bctime := n_bctime node; qr_bmtime := n_bmtime node;
                 qr_namepath := tree_namepath place node |} arr
        end
  | KFile =>
      match ta_tags a, n_tags node with
      | Some _, None => Done (arr, false)
      | Some (_ :: _), Some _ => Thrown "TypeError"
      | _, _ =>
          if negb (types_filter (ta_types a) (n_metadata node))
          then Done (arr, false)
          else if negb (name_filter (ta_name a) (n_name node))
          then Done (arr, false)
          else
            match parent node with
            | None => Thrown "TypeError"
            | Some p =>
                push_record a
                  {| qr_uuid := n_uuid node; qr_pdir := r_uuid p;
                     qr_type := Some "file"; qr_name := n_name node;
                     qr_size := Some (n_size node); qr_mtime := n_mtime node;
                     qr_hash := n_hash node; qr_tags := n_tags node;
                     qr_metadata := n_metadata node;
                     qr_place := rootIndex; qr_archived := n_archived node;
                     qr_bctime := n_bctime node; qr_bmtime := n_bmtime node;
                     qr_namepath := tree_namepath place node |} arr
            end
      end
  end.

(** [root.iterate(cursor, F)]: true when the visitor stopped the walk. *)
Fixpoint iterate (a : TreeArgs) (place : Node) (rootIndex : nat)
         (nodes : list Node) (arr : list QRecord)
  : outcome (list QRecord * bool) :=
  match nodes with
  | [] => Done (arr, false)
  | n :: r =>
      match F a place rootIndex n arr with
      | Done (arr', false) => iterate a place rootIndex r arr'
      | other => other
      end
  end.

(** The loop over the remaining places, each walked from its top. *)
Fixpoint iterate_roots (w : World) (a : TreeArgs)
         (roots : list (option Node)) (rootIndex : nat)
         (arr : list QRecord) : outcome (list QRecord) :=
  match roots with
  | [] => Done arr
  | None :: _ => Thrown "TypeError"
  | Some place :: r =>
      match iterate a place rootIndex
              (iterate_from w place [] "directory") arr with
      | Done (arr', true) => Done arr'
      | Done (arr', false) => iterate_roots w a r (S rootIndex) arr'
      | Failed e => Failed e
      | Thrown t => Thrown t
      end
  end.

Definition iterateTreeSync (user : User) (a : TreeArgs) (w : World)
  : outcome (list QRecord) :=
  let roots := map (fun place => w_uuidMap w !! place) (ta_places a) in
  match ta_last a with
  | None => iterate_roots w a roots O []
  | Some (lastIndex, lastType, lastPath) =>
      match roots !! lastIndex with
      | Some (Some place) =>
          match iterate a place lastIndex
                  (iterate_from w place lastPath lastType) [] with
          | Done (arr, true) => Done arr
          | Done (arr, false) =>
              iterate_roots w a (drop (S lastIndex) roots) (S lastIndex) arr
          | Failed e => Failed e
          | Thrown t => Thrown t
          end
      | _ => Thrown "TypeError"
      end
  end.

(** *** QUERY: the arguments *)

(** The permission loop [for (let i = 0; i < places; i++)], at index [i]
    with [rest] the elements of [places] from [i] on.  [None]: the loop
    ended and QUERY goes on. *)
Fixpoint check_places (w : World) (user : User) (places rest : list string)
         (i : Z) : option (outcome QResult) :=
  if JS.lt_array i places then
    match rest with
    | [] => Some (EInval "place undefined not found")
    | place :: rest' =>
        match w_uuidMap w !! place with
        | None => Some (EInval ("place " +:+ place +:+ " not found"))
        | Some dir =>
            match find_drive w (r_uuid (root dir)) with
            | None => Some (Thrown "TypeError")
            | Some drive =>
                if negb (userCanWriteDrive user drive)
                then Some (EInval ("place " +:+ place +:+ " not found"))
                else check_places w user places rest' (i + 1)
            end
        end
    end
  else None.

Definition parse_order (props : QueryProps) : string + Order :=
  match q_order props with
  | Some o =>
      if String.eqb o EmptyString then inr Newest
      else if String.eqb o "newest" then inr Newest
      else if String.eqb o "oldest" then inr Oldest
      else if String.eqb o "find" then inr Find
      else inl "invalid order"
  | None => inr Newest
  end.

Definition parse_cursor (label : string) (order : Order) (exclusive : bool)
           (s : string) : string + (Z * string * bool) :=
  let parts := JS.split "." s in
  if (2 <? length parts)%nat then inl ("invalid " +:+ label)
  else
    match JS.parseInt (nth 0 parts EmptyString) with
    | None => inl ("invalid " +:+ label)
    | Some startTime =>
        match parts with
        | [_; startUUID] =>
            if isUUID startUUID then inr (startTime, startUUID, exclusive)
            else inl ("invalid " +:+ label)
        | _ =>
            inr (startTime,
                 match order with Newest => UUID_MAX | _ => UUID_MIN end,
                 exclusive)
        end
    end.

Definition parse_start (props : QueryProps) (order : Order)
  : string + option (Z * string * bool) :=
  if JS.truthy (q_starti props) then
    sum_map id Some
      (parse_cursor "starti" order false (default EmptyString (q_starti props)))
  else if JS.truthy (q_starte props) then
    sum_map id Some
      (parse_cursor "starte" order true (default EmptyString (q_starte props)))
  else inr None.

(** [str.indexOf('.')] with the two [slice]s around it. *)
Fixpoint cut_at_dot (s : string) : option (string * string) :=
  match s with
  | EmptyString => None
  | String c r =>
      if Ascii.eqb c "." then Some (EmptyString, r)
      else option_map (fun '(a, b) => (String c a, b)) (cut_at_dot r)
  end.

(** [path.normalize] of node. *)
Variable path_normalize : string -> string.

Definition path_isAbsolute (s : string) : bool :=
  match s with
  | String "/" _ => true
  | _ => false
  end.

Definition parse_last (props : QueryProps)
  : string + option (nat * string * list string) :=
  if negb (JS.truthy (q_last props)) then inr None
  else
    match cut_at_dot (default EmptyString (q_last props)) with
    | None => inl "invalid last"
    | Some (head, str) =>
        match JS.parseInt head with
        | None => inl "invalid last"
        | Some lastIndex =>
            if lastIndex <? 0 then inl "invalid last"
            else
              match cut_at_dot str with
              | None => inl "invalid last"
              | Some (lastType, lastPath) =>
                  if negb (String.eqb lastType "directory")
                     && negb (String.eqb lastType "file")
                  then inl "invalid last type"
                  else if path_isAbsolute lastPath
                          || negb (String.eqb (path_normalize lastPath) lastPath)
                  then inl "invalid last path"
                  else inr (Some (Z.to_nat lastIndex, lastType,
                                  JS.split "/" lastPath))
              end
        end
    end.

Definition parse_count (props : QueryProps) : string + option Z :=
  if JS.truthy (q_count props) then
    match JS.parseInt (default EmptyString (q_count props)) with
    | Some c => if c <=? 0 then inl "invalid count" else inr (Some c)
    | None => inl "invalid count"
    end
  else inr None.

Definition parse_countOnly (props : QueryProps) : option bool :=
  if JS.truthy (q_countOnly props)
  then Some (String.eqb (default EmptyString (q_countOnly props)) "true")
  else None.

Definition parse_groupBy (props : QueryProps) : string + bool :=
  if JS.truthy (q_groupBy props) then
    if String.eqb (default EmptyString (q_groupBy props)) "place"
    then inr true else inl "invalid groupBy"
  else inr false.

Definition parse_types (props : QueryProps) : string + option (list string) :=
  if JS.truthy (q_class props) then
    match class_types (default EmptyString (q_class props)) with
    | Some ts => inr (Some ts)
    | None => inl "invalid class"
    end
  else if JS.truthy (q_types props) then
    let types := JS.split "." (default EmptyString (q_types props)) in
    if forallb (fun t => negb (String.eqb t EmptyString)) types
    then inr (Some types) else inl "invalid types"
  else inr None.

Definition parse_tags (props : QueryProps)
  : string + option (list (option Z)) :=
  if JS.truthy (q_tags props) then
    let tags := map JS.parseInt
                    (JS.split "." (default EmptyString (q_tags props))) in
    if negb (length tags =? length (JS.uniq opt_Z_eqb tags))%nat
    then inl "invalid tags" else inr (Some tags)
  else inr None.

Definition parse_name (props : QueryProps) : option string :=
  if JS.truthy (q_name props) then q_name props else None.

Definition QUERY (user : User) (props : QueryProps) (w : World)
  : outcome QResult * World :=
  if negb (JS.truthy (q_places props)) then (EInval "places not provided", w)
  else
    let places := JS.split "." (default EmptyString (q_places props)) in
    if negb (forallb isUUID places) then (EInval "invalid places", w)
    else if negb (length places =? length (JS.uniq String.eqb places))%nat
    then (EInval "places has duplicate elements", w)
    else
      match check_places w user places places 0 with
      | Some r => (r, w)
      | None =>
          match parse_order props with
          | inl m => (EInval m, w)
          | inr order =>
          match (match order with
                 | Find => sum_map id (fun l => (None, l)) (parse_last props)
                 | _ => sum_map id (fun s => (s, None)) (parse_start props order)
                 end) with
          | inl m => (EInval m, w)
          | inr (start, last) =>
          match parse_count props with
          | inl m => (EInval m, w)
          | inr count =>
          let countOnly := parse_countOnly props in
          match parse_groupBy props with
          | inl m => (EInval m, w)
          | inr groupBy =>
          match parse_types props with
          | inl m => (EInval m, w)
          | inr types =>
          match parse_tags props with
          | inl m => (EInval m, w)
          | inr tags =>
          let name := parse_name props in
          match order with
          | Find =>
              let fileOnly :=
                opt_string_eqb (q_fileOnly props) (Some "true") in
              match iterateTreeSync user
                      {| ta_last := last; ta_count := count;
                         ta_places := places; ta_types := types;
                         ta_tags := tags; ta_name := name;
                         ta_fileOnly := fileOnly |} w with
              | Done arr => (Done (QArray arr), w)
              | Failed e => (Failed e, w)
              | Thrown t => (Failed (new_Error t), w)
              end
          | _ =>
              iterateList user
                {| la_order := order; la_start := start; la_count := count;
                   la_places := places; la_types := types; la_tags := tags;
                   la_name := name; la_countOnly := countOnly;
                   la_groupBy := groupBy |} w
          end
          end end end end end end
      end.

End Query.

(** ** Roots follow users and drives: [handleUserDriveUpdate] *)

(** A user record of the user module, as far as the facade reads it. *)
Record Account : Type := { a_uuid : string; a_status : string }.

(** [USER_STATUS.DELETED]. *)
Definition USER_STATUS_DELETED : string := "DELETED".

(** [users.find(u => u.uuid === drv.owner)]. *)
Definition find_owner (users : list Account) (drv : Drive) : option Account :=
  find (fun u => String.eqb (a_uuid u) (d_owner drv)) users.

(** [drv.privacy === true || drv.type === 'backup']. *)
Definition owned_drive (drv : Drive) : bool :=
  bool_decide (d_privacy drv = Some true) || String.eqb (d_type drv) "backup".

(** The filter of [valids]. *)
Definition valid_drive (users : list Account) (drv : Drive) : bool :=
  if owned_drive drv then
    match find_owner users drv with
    | None => false
    | Some _ => true
    end
  else if bool_decide (d_privacy drv = Some false) then true
  else false.

(** The filter of [toBeRemoved]. *)
Definition removable_drive (users : list Account) (drv : Drive) : bool :=
  if owned_drive drv && d_isDeleted drv then
    if bool_decide (d_privacy drv = Some true)
       && match find_owner users drv with
          | None => true
          | Some owner => negb (String.eqb (a_status owner) USER_STATUS_DELETED)
          end
    then false
    else true
  else if bool_decide (d_privacy drv = Some false) && d_isDeleted drv then true
  else false.

Definition valids (users : list Account) (drives : list Drive) : list Drive :=
  List.filter (valid_drive users) drives.

Definition toBeRemoved (users : list Account) (drives : list Drive)
  : list string :=
  map d_uuid (List.filter (removable_drive users) (valids users drives)).

Definition toBeCreated (users : list Account) (drives : list Drive)
           (roots : list string) : list string :=
  List.filter (fun uuid => negb (JS.arr_includes roots uuid))
    (map d_uuid (List.filter (fun d => negb (d_isDeleted d))
                   (valids users drives))).

Definition toBeDeleted (users : list Account) (drives : list Drive)
           (roots : list string) : list string :=
  List.filter
    (fun uuid => negb (existsb (fun d => String.eqb (d_uuid d) uuid)
                         (valids users drives)))
    roots.

(** What [handleUserDriveUpdate] does to the forest, in order. *)
Inductive RootAction : Type :=
| DeleteRoot (uuid : string)
| RemoveRoot (uuid : string)
| CreateRoot (uuid : string)
| EmitForestUpdate (withOldKeys : bool).

(** [handleUserDriveUpdate], given the users, the drives and the keys of
    [forest.roots]: the three lists are computed before anything is
    changed. *)
Definition handleUserDriveUpdate (users : list Account) (drives : list Drive)
           (roots : list string) : list RootAction :=
  let removed := toBeRemoved users drives in
  let created := toBeCreated users drives roots in
  let deleted := toBeDeleted users drives roots in
  match created, deleted, removed with
  | [], [], [] => []
  | _, _, _ =>
      (map DeleteRoot deleted ++ map RemoveRoot removed
         ++ match created with
            | [] => [EmitForestUpdate false]
            | _ => map CreateRoot created ++ [EmitForestUpdate true]
            end)%list
  end.

(** ** Media by fingerprint: [getMedia] *)

(** An entry of [forest.metaMap]: the metadata of a fingerprint and the
    indexed files that carry it. *)
Record Meta : Type := {
  mm_metadata : Metadata;
  mm_files : list Node
}.

Record MediaProps : Type := {
  mp_fingerprint : option string;
  mp_file : bool;
  mp_both : bool
}.

(** What [getMedia] answers with: a path, the metadata extended with the
    size, or both. *)
Inductive MediaData : Type :=
| MediaPath (p : path)
| MediaBoth (metadata : Metadata) (size : Z) (p : path)
| MediaMeta (metadata : Metadata) (size : Z).

Section Media.

(** [isSHA256] of [lib/assertion]. *)
Variable isSHA256 : option string -> bool.

(** [this.drives.filter(drv => this.userCanWriteDrive(user, drv)).map(drv => drv.uuid)]. *)
Definition writable_uuids (w : World) (user : User) : list string :=
  map d_uuid (List.filter (userCanWriteDrive user) (w_drives w)).

(** [getMedia]; [user] may be absent.  Reading [files[0]] of an empty
    list gives [undefined], whose [size] or [abspath] throws. *)
Definition getMedia (metaMap : gmap string Meta) (user : option User)
           (props : MediaProps) (w : World) : outcome MediaData :=
  if negb (isSHA256 (mp_fingerprint props)) then
    Failed (with_status (new_Error "invalid hash") 400)
  else
    match mp_fingerprint props ≫= (fun f => metaMap !! f) with
    | None => Failed (with_status (new_Error "media not found") 404)
    | Some meta =>
        match user with
        | Some u =>
            let uuids := writable_uuids w u in
            if existsb (fun f => JS.arr_includes uuids (r_uuid (root f)))
                 (mm_files meta)
            then
              match mm_files meta with
              | [] => Thrown "TypeError"
              | f0 :: _ =>
                  let filePath := absolutePath w f0 in
                  if mp_file props then Done (MediaPath filePath)
                  else if mp_both props
                  then Done (MediaBoth (mm_metadata meta) (n_size f0) filePath)
                  else Done (MediaMeta (mm_metadata meta) (n_size f0))
              end
            else Failed (E403 "permission denied")
        | None =>
            match mm_files meta with
            | [] => Thrown "TypeError"
            | f0 :: _ => Done (MediaPath (absolutePath w f0))
            end
        end
    end.

End Media.

(** ** Formatting a drive: [dirFormat] *)

Record FormatProps : Type := {
  fp_driveUUID : option string;
  fp_dirUUID : option string;
  fp_op : option string
}.

(** [rimraf.sync(p)]: the entry at [p] and everything below it. *)
Definition rimraf_sync (p : path) (w : World) : World :=
  log_call (Call_rimraf p)
    (set_text
       (set_disk w
          (filter (fun kv => Underlying.is_prefix_path p (fst kv) = false)
             (w_disk w)))
       (filter (fun kv => Underlying.is_prefix_path p (fst kv) = false)
          (w_text w))).

(** [xattr.setSync(p, 'user.fruitmix', attr)] with the attribute read
    from the entry [from]: the entry at [p] takes over the record of
    [from]. *)
Definition xattr_setSync (p : path) (from : Entry) (w : World)
  : option World :=
  match w_disk w !! p with
  | None => None
  | Some e =>
      Some (set_disk w
              (<[ p := {| e_uuid := e_uuid from; e_type := e_type e;
                          e_mtime := e_mtime e; e_hash := e_hash from;
                          e_tags := e_tags from;
                          e_content := e_content e |} ]> (w_disk w)))
  end.

(** [mkdirp.sync(p)] where the parent exists: a directory already there
    is left alone, anything else in the way is [EEXIST]. *)
Definition mkdirp_sync (p : path) (w : World) : Error + World :=
  match w_disk w !! p with
  | Some e =>
      if EType_eqb (e_type e) EDirectory then inr w
      else inl (with_code (new_Error "file already exists") "EEXIST")
  | None =>
      inr (set_disk w
             (<[ p := {| e_uuid := EmptyString; e_type := EDirectory;
                         e_mtime := w_clock w; e_hash := None;
                         e_tags := None; e_content := [] |} ]> (w_disk w)))
  end.

Section Format.

Variable dir_read : list Ref -> World -> (Error + list Xstat) * World.

(** The [try] block of [dirFormat]: an exception of a synchronous
    primitive is handed to the callback. *)
Definition format_root (dir : Node) (w : World)
  : outcome (list Xstat) * World :=
  let (tmp, w1) := TMPFILE w in
  let dirPath := path_join (driveDir w) (r_uuid (root dir)) in
  match mkdirp_sync tmp w1 with
  | inl e => (Failed e, w1)
  | inr w2 =>
      match w_disk w2 !! dirPath with
      | None => (Failed Underlying.ENOENT, w2)
      | Some attr =>
          match xattr_setSync tmp attr w2 with
          | None => (Failed Underlying.ENOENT, w2)
          | Some w3 =>
              let w4 := rimraf_sync dirPath w3 in
              match Underlying.rename tmp dirPath w4 with
              | (Done _, w5) =>
                  match dir_read (nodepath dir) w5 with
                  | (inl err, w6) => (Failed err, w6)
                  | (inr xstats, w6) => (Done xstats, w6)
                  end
              | (Failed e, w5) => (Failed e, w5)
              | (Thrown t, w5) => (Thrown t, w5)
              end
          end
      end
  end.

Definition dirFormat (user : User) (props : FormatProps) (w : World)
  : outcome (list Xstat) * World :=
  if negb (opt_string_eqb (fp_driveUUID props) (fp_dirUUID props))
  then (Failed (with_status (new_Error "invalid dirUUID") 400), w)
  else
    match uuidMap_get w (fp_dirUUID props) with
    | None => (Failed (E404 "dir not found"), w)
    | Some dir =>
        match find_drive w (r_uuid (root dir)) with
        | None => (Thrown "TypeError", w)
        | Some drive =>
            if JS.truthy (fp_driveUUID props)
               && negb (String.eqb (default EmptyString (fp_driveUUID props))
                          (d_uuid drive))
            then (Failed (E403 "drive does not contain dir"), w)
            else if negb (userCanWriteDrive user drive)
            then (Failed (E403 "permission denied"), w)
            else if negb (bool_decide (d_privacy drive = Some true))
            then (Failed (E403 "permission denied"), w)
            else if opt_string_eqb (fp_op props) (Some "format")
            then format_root dir w
            else (Failed (new_Error "invalid op"), w)
        end
    end.

End Format.

(** ** Looking up one entry: [DIRENTRY_GET] *)


(** ** Observations used in the statements *)

(** The tags recorded on disk for the entry at a path, as a list; no record
    and no tags both give the empty list. *)
Definition stored_tags (w : World) (p : path) : list Z :=
  match w_disk w !! p with
  | Some e => default [] (e_tags e)
  | None => []
  end.

(** An entry with its tags replaced. *)
Definition retag (e : Entry) (tags : list Z) : Entry :=
  {| e_uuid := e_uuid e; e_type := e_type e; e_mtime := e_mtime e;
     e_hash := e_hash e; e_tags := Some tags; e_content := e_content e |}.

(** A file passes the filters of [match]: name, types, tags, and an
    ancestor among the places. *)
Definition passes (a : ListArgs) (file : Node) : bool :=
  name_filter (la_name a) (n_name file)
  && types_filter (la_types a) (n_metadata file)
  && tags_filter (la_tags a) (n_tags file)
  && match place_index (la_places a) file with
     | Some _ => true
     | None => false
     end.

(** The record [match] writes for a file that passes. *)
Definition record_of (a : ListArgs) (file : Node) : QRecord :=
  list_record (la_places a) (default O (place_index (la_places a) file)) file.

(** [count && findCounter >= count] at a given value of the counter. *)
Definition reached (a : ListArgs) (counter : Z) : bool :=
  match la_count a with
  | Some c => negb (c =? 0) && (c <=? counter)
  | None => false
  end.

(** The files a scan emits, in order: the files that pass, up to the
    [break]. *)
Fixpoint scan_hits (a : ListArgs) (l : list Node) (counter : Z) : list Node :=
  match l with
  | [] => []
  | f :: r =>
      if passes a f then
        f :: (if reached a (counter + 1) then [] else scan_hits a r (counter + 1))
      else if reached a counter then [] else scan_hits a r counter
  end.

(** The text of a JSON array of records. *)
Definition render (stringify : QRecord -> string) (recs : list QRecord)
  : string :=
  "[" +:+ String.concat "," (map stringify recs) +:+ "]".

(** The stream after the records are written, each after a comma unless
    it is the first. *)
Fixpoint append_records (stringify : QRecord -> string) (comma : bool)
         (out : string) (recs : list QRecord) : string :=
  match recs with
  | [] => out
  | r :: t =>
      append_records stringify true
        ((if comma then out +:+ "," else out) +:+ stringify r) t
  end.

(** The number of hyphens in a string. *)
Fixpoint hyphens (s : string) : nat :=
  match s with
  | EmptyString => O
  | String c r => ((if Ascii.eqb c "-" then 1 else 0) + hyphens r)%nat
  end.

(** The order of the time-sorted sequence, on files and on records. *)
Definition key_lt (f g : Node) : Prop :=
  key_ltb (getTime f) (n_uuid f) (getTime g) (n_uuid g) = true.


(** ** Further observations *)

(** What a query leaves alone: everything but the temporary file it
    writes its result to. *)
Definition same_store (w w' : World) : Prop :=
  w_disk w' = w_disk w /\ w_uuidMap w' = w_uuidMap w
  /\ w_timedFiles w' = w_timedFiles w /\ w_drives w' = w_drives w
  /\ w_tags w' = w_tags w
  /\ forall q, q <> fst (TMPFILE w) -> w_text w' !! q = w_text w !! q.

(** The place a matched file is attributed to. *)
Definition place_key (a : ListArgs) (f : Node) : string :=
  nth (default O (place_index (la_places a) f)) (la_places a) EmptyString.

(** [results.find(x => x.key === key)], then [count++] or [push]. *)
Definition add_group (key : string) (l : list (string * Z)) : list (string * Z) :=
  match bump_group key l with
  | Some l' => l'
  | None => (l ++ [(key, 1)])%list
  end.

(** The groups after a run of matches. *)
Definition tally (keys : list string) (l : list (string * Z))
  : list (string * Z) :=
  fold_left (fun l k => add_group k l) keys l.

(** The count recorded for a key, [0] without a group. *)
Definition group_count (key : string) (l : list (string * Z)) : Z :=
  match find (fun g => String.eqb (fst g) key) l with
  | Some g => snd g
  | None => 0
  end.

(** How often a key occurs. *)
Definition occurrences (key : string) (keys : list string) : Z :=
  Z.of_nat (length (List.filter (String.eqb key) keys)).

(** What holds of a record of the hierarchical mode found while the
    places [lo] to [hi - 1] are walked. *)
Definition found_ok (a : TreeArgs) (lo hi : nat) (x : QRecord) : Prop :=
  (lo <= qr_place x < hi)%nat
  /\ name_filter (ta_name a) (qr_name x) = true
  /\ (qr_type x = Some "file"
      /\ types_filter (ta_types a) (qr_metadata x) = true
      \/ qr_type x = Some "directory"
         /\ ta_types a = None /\ ta_tags a = None /\ ta_fileOnly a = false)
  /\ (ta_tags a = None \/ ta_tags a = Some []).

(** The result is still short of a positive [count]. *)
Definition below_count (a : TreeArgs) (arr : list QRecord) : Prop :=
  forall c, ta_count a = Some c -> 0 < c -> Z.of_nat (length arr) < c.

(** The result does not exceed a positive [count]. *)
Definition within_count (a : TreeArgs) (arr : list QRecord) : Prop :=
  forall c, ta_count a = Some c -> 0 < c -> Z.of_nat (length arr) <= c.

(** ** A small installation, used to run the operations *)

Module Sample.

Definition alice : User := {| u_uuid := "a11ce000-0000-4000-8000-000000000001" |}.
Definition bob : User := {| u_uuid := "b0b00000-0000-4000-8000-000000000002" |}.

Definition home_uuid : string := "d0000000-0000-4000-8000-00000000000a".
Definition docs_uuid : string := "d0c50000-0000-4000-8000-00000000000b".
Definition absent_uuid : string := "0ddba11a-0000-4000-8000-00000000000c".

(** A private drive of alice. *)
Definition home : Drive :=
  {| d_uuid := home_uuid; d_type := "private"; d_privacy := Some true;
     d_owner := u_uuid alice; d_writelist := None; d_isDeleted := false |}.

Definition dir_node (uuid name : string) (mtime : Z) (chain : list Ref)
  : Node :=
  {| n_uuid := uuid; n_name := name; n_kind := KDirectory; n_mtime := mtime;
     n_chain := chain; n_size := 0; n_hash := None; n_tags := None;
     n_metadata := None; n_archived := None; n_bctime := None;
     n_bmtime := None |}.

Definition file_node (uuid name : string) (mtime size : Z)
           (tags : option (list Z)) (chain : list Ref) : Node :=
  {| n_uuid := uuid; n_name := name; n_kind := KFile; n_mtime := mtime;
     n_chain := chain; n_size := size; n_hash := None; n_tags := tags;
     n_metadata := None; n_archived := None; n_bctime := None;
     n_bmtime := None |}.

Definition home_root : Node := dir_node home_uuid home_uuid 10 [].
Definition docs : Node := dir_node docs_uuid "docs" 20 [self_ref home_root].

Definition a_txt : Node :=
  file_node "f0000000-0000-4000-8000-000000000001" "a.txt" 100 5 None
            [self_ref home_root].
Definition b_txt : Node :=
  file_node "f0000000-0000-4000-8000-000000000002" "b.txt" 200 7 (Some [1])
            [self_ref home_root; self_ref docs].
Definition c_txt : Node :=
  file_node "f0000000-0000-4000-8000-000000000003" "c.txt" 300 9 None
            [self_ref home_root; self_ref docs].

Definition hash_a : string :=
  "9734e197a910eef6ec73c138d68415a09da31ac46f3c9b4789f3ee5c10026b04".
Definition hash_b : string :=
  "29b17ea4841ceb0cbe3a7d23aaf0e0121c977f037c417e6b8632528bf3d6a20e".

Definition fruitmix : path := ["fruitmix"].
Definition home_path : path := ["fruitmix"; "drives"; home_uuid].
Definition upload : path := ["fruitmix"; "tmp"; "upload"].

Definition dir_entry (uuid : string) (mtime : Z) : Entry :=
  {| e_uuid := uuid; e_type := EDirectory; e_mtime := mtime;
     e_hash := None; e_tags := None; e_content := [] |}.

Definition file_entry (uuid : string) (mtime : Z) (hash : option string)
           (tags : option (list Z)) (content : list Extent) : Entry :=
  {| e_uuid := uuid; e_type := EFile; e_mtime := mtime;
     e_hash := hash; e_tags := tags; e_content := content |}.

(** The disk: [a.txt] of 5 bytes, [big.bin] of one GiB, [empty.bin], and
    an uploaded data file. *)
Definition disk : gmap path Entry :=
  list_to_map
    [ (home_path, dir_entry home_uuid 10);
      (path_join home_path "docs", dir_entry docs_uuid 20);
      (path_join home_path "a.txt",
       file_entry (n_uuid a_txt) 100 (Some hash_a) (Some [1; 2])
                  [ {| ext_id := "a"; ext_size := 5 |} ]);
      (path_join home_path "big.bin",
       file_entry "f0000000-0000-4000-8000-000000000004" 400 (Some hash_a)
                  None [ {| ext_id := "big"; ext_size := GiB |} ]);
      (path_join home_path "empty.bin",
       file_entry "f0000000-0000-4000-8000-000000000005" 500 None None []);
      (upload,
       file_entry EmptyString 600 None None
                  [ {| ext_id := "more"; ext_size := 3 |} ]) ].

Definition tag (id : Z) : Tag :=
  {| t_id := id; t_creator := u_uuid alice; t_deleted := false |}.

Definition world : World :=
  {| w_fruitmixDir := fruitmix;
     w_drives := [home];
     w_tags := [tag 1; tag 2; tag 3];
     w_uuidMap := list_to_map
                    [ (home_uuid, home_root); (docs_uuid, docs);
                      (n_uuid a_txt, a_txt); (n_uuid b_txt, b_txt);
                      (n_uuid c_txt, c_txt) ];
     w_timedFiles := [a_txt; b_txt; c_txt];
     w_disk := disk;
     w_text := ∅;
     w_tmpseq := O;
     w_clock := 1000;
     w_calls := [] |}.


Definition props (dirUUID name : string) : Props :=
  {| p_driveUUID := None; p_dirUUID := Some dirUUID; p_name := name;
     p_hash := None; p_data := None; p_sha256 := None; p_tags := None |}.

Definition with_tags (p : Props) (tags : list Z) : Props :=
  {| p_driveUUID := p_driveUUID p; p_dirUUID := p_dirUUID p;
     p_name := p_name p; p_hash := p_hash p; p_data := p_data p;
     p_sha256 := p_sha256 p; p_tags := Some (map TInt tags) |}.

Definition append_props (name : string) (hash sha256 : option string)
  : Props :=
  {| p_driveUUID := None; p_dirUUID := Some home_uuid; p_name := name;
     p_hash := hash; p_data := Some upload; p_sha256 := sha256;
     p_tags := None |}.

(** Stand-ins for the collaborators. *)
Definition no_read (_ : list Ref) (w : World) : (Error + list Xstat) * World :=
  (inr [], w).
Definition digest (l : list byte) : list byte := firstn 32 (l ++ l).
Definition quiet (w : World) : World := w.

(** The canonical text form of a uuid: 8-4-4-4-12 hexadecimal digits. *)
Fixpoint uuid_shape (groups : list nat) (s : list ascii) : bool :=
  match groups with
  | [] => match s with [] => true | _ => false end
  | g :: r =>
      forallb (fun c => match JS.hexdigit_of c with Some _ => true | None => false end)
              (firstn g s)
      && (length (firstn g s) =? g)%nat
      && match r with
         | [] => match skipn g s with [] => true | _ => false end
         | _ => match skipn g s with
                | "-"%char :: t => uuid_shape r t
                | _ => false
                end
         end
  end.

Definition isUUID (s : string) : bool :=
  uuid_shape [8; 4; 4; 4; 12]%nat (list_ascii_of_string s).

Definition stringify (r : QRecord) : string :=
  "{name:" +:+ qr_name r +:+ "}".

Definition no_walk (_ : World) (_ : Node) (_ : list string) (_ : string)
  : list Node := [].

Definition newest (places : list string) (count : Z) : ListArgs :=
  {| la_order := Newest; la_start := None; la_count := Some count;
     la_places := places; la_types := None; la_tags := None;
     la_name := None; la_countOnly := None; la_groupBy := false |}.

Definition query (places : string) (count : option string) : QueryProps :=
  {| q_places := Some places; q_order := Some "newest"; q_starti := None;
     q_starte := None; q_last := None; q_count := count;
     q_countOnly := None; q_groupBy := None; q_class := None;
     q_types := None; q_tags := None; q_name := None; q_fileOnly := None |}.

End Sample.

(** ** More of the small installation *)

Module Cases.

Definition shared_uuid : string := "5ba4ed00-0000-4000-8000-00000000000d".

(** A public drive, open to every user. *)
Definition shared : Drive :=
  {| d_uuid := shared_uuid; d_type := "public"; d_privacy := Some false;
     d_owner := EmptyString; d_writelist := None; d_isDeleted := false |}.

Definition shared_root : Node :=
  Sample.dir_node shared_uuid shared_uuid 30 [].

(** The installation of [Sample] with the public drive added. *)
Definition two_drives : World :=
  {| w_fruitmixDir := w_fruitmixDir Sample.world;
     w_drives := [Sample.home; shared];
     w_tags := w_tags Sample.world;
     w_uuidMap := <[ shared_uuid := shared_root ]> (w_uuidMap Sample.world);
     w_timedFiles := w_timedFiles Sample.world;
     w_disk := w_disk Sample.world; w_text := w_text Sample.world;
     w_tmpseq := w_tmpseq Sample.world; w_clock := w_clock Sample.world;
     w_calls := w_calls Sample.world |}.

Definition in_drive (driveUUID dirUUID name : string) : Props :=
  {| p_driveUUID := Some driveUUID; p_dirUUID := Some dirUUID;
     p_name := name; p_hash := None; p_data := None; p_sha256 := None;
     p_tags := None |}.

(** The installation of [Sample] with a file inside [docs] on disk. *)
Definition stocked : World :=
  set_disk Sample.world
    (<[ path_join (path_join Sample.home_path "docs") "b.txt" :=
          Sample.file_entry (n_uuid Sample.b_txt) 200 None (Some [1])
            [ {| ext_id := "b"; ext_size := 7 |} ] ]> Sample.disk).


Definition listing (order : Order) (start : option (Z * string * bool))
           (count : option Z) (places : list string)
           (countOnly : option bool) (groupBy : bool) : ListArgs :=
  {| la_order := order; la_start := start; la_count := count;
     la_places := places; la_types := None; la_tags := None;
     la_name := None; la_countOnly := countOnly; la_groupBy := groupBy |}.


(** A walk that presents the given nodes, whatever the cursor. *)
Definition walk (nodes : list Node) (_ : World) (_ : Node) (_ : list string)
           (_ : string) : list Node := nodes.

Definition finding (count : option Z) (tags : option (list (option Z)))
           (fileOnly : bool) : TreeArgs :=
  {| ta_last := None; ta_count := count; ta_places := [Sample.home_uuid];
     ta_types := None; ta_tags := tags; ta_name := None;
     ta_fileOnly := fileOnly |}.

Definition accounts : list Account :=
  [ {| a_uuid := u_uuid Sample.alice; a_status := "ACTIVE" |};
    {| a_uuid := u_uuid Sample.bob; a_status := "DELETED" |} ].

Definition bobs_uuid : string := "b0b5d000-0000-4000-8000-00000000000e".
Definition lost_uuid : string := "105t0000-0000-4000-8000-00000000000f".
Definition stale_uuid : string := "57a1e000-0000-4000-8000-000000000010".

(** The deleted private drive of bob, who is deleted himself. *)
Definition bobs : Drive :=
  {| d_uuid := bobs_uuid; d_type := "private"; d_privacy := Some true;
     d_owner := u_uuid Sample.bob; d_writelist := None; d_isDeleted := true |}.

(** A private drive whose owner is unknown. *)
Definition lost : Drive :=
  {| d_uuid := lost_uuid; d_type := "private"; d_privacy := Some true;
     d_owner := "n0b0d000-0000-4000-8000-000000000011"; d_writelist := None;
     d_isDeleted := false |}.

Definition roster : list Drive := [Sample.home; bobs; shared; lost].

(** The roots before the update: [home], the drive of bob, and one that
    no drive stands for. *)
Definition roots : list string := [Sample.home_uuid; bobs_uuid; stale_uuid].

(** 64 hexadecimal digits. *)
Definition isSHA256 (o : option string) : bool :=
  match o with
  | Some s =>
      (String.length s =? 64)%nat
      && forallb (fun c => match JS.hexdigit_of c with
                           | Some _ => true
                           | None => false
                           end) (list_ascii_of_string s)
  | None => false
  end.

Definition media : gmap string Meta :=
  {[ Sample.hash_a := {| mm_metadata := {| m_type := "JPEG"; m_attrs := [] |};
                         mm_files := [Sample.a_txt] |} ]}.

Definition by_fingerprint (fingerprint : string) (file both : bool)
  : MediaProps :=
  {| mp_fingerprint := Some fingerprint; mp_file := file; mp_both := both |}.

Definition format_home : FormatProps :=
  {| fp_driveUUID := Some Sample.home_uuid;
     fp_dirUUID := Some Sample.home_uuid; fp_op := Some "format" |}.

End Cases.

(** * Properties *)

(** An operation that ends with a given outcome, and the state it
    leaves. *)
Lemma split_run :
  forall {A B} (p : A * B) (a : A), fst p = a -> p = (a, snd p).
Proof.
  intros A B [x y] a H. cbn in H. subst. reflexivity.
Qed.

(** ** Tag operations: the argument check *)

(** C10: SETTAGS, ADDTAGS and REMOVETAGS all answer an empty [tags] array
    with the error 'invalid tags' of status 400, whatever directory or user
    the call names (the check comes before the directory is resolved), and
    leave the world as it was. *)
Theorem tag_operations_reject_empty_tags :
  forall (user : User) (props : Props) (w : World),
    p_tags props = Some [] ->
    ADDTAGS user props w = (Failed (with_status (new_Error "invalid tags") 400), w)
    /\ REMOVETAGS user props w = (Failed (with_status (new_Error "invalid tags") 400), w)
    /\ SETTAGS user props w = (Failed (with_status (new_Error "invalid tags") 400), w).
Proof.
  intros user props w Hempty.
  unfold ADDTAGS, REMOVETAGS, SETTAGS, check_tags.
  rewrite Hempty. cbn. repeat split.
Qed.

Lemma tag_operations_reject_empty_tags_witness :
  let props := Sample.with_tags (Sample.props Sample.absent_uuid "a.txt") [] in
  ADDTAGS Sample.bob props Sample.world
    = (Failed (with_status (new_Error "invalid tags") 400), Sample.world)
  /\ REMOVETAGS Sample.bob props Sample.world
    = (Failed (with_status (new_Error "invalid tags") 400), Sample.world)
  /\ SETTAGS Sample.bob props Sample.world
    = (Failed (with_status (new_Error "invalid tags") 400), Sample.world).
Proof.
  exact (tag_operations_reject_empty_tags Sample.bob
           (Sample.with_tags (Sample.props Sample.absent_uuid "a.txt") [])
           Sample.world eq_refl).
Defined.

(** ** RMDIR *)

Lemma RMDIR_world_changed :
  forall dir_read (user : User) (props : Props) (w : World),
    snd (RMDIR dir_read user props w) <> w ->
    exists dir p, DIR w user props = Done dir /\ parent dir = Some p.
Proof.
  intros dir_read user props w Hne. unfold RMDIR in Hne.
  destruct (DIR w user props) as [dir | e | t]; cbn in Hne; try congruence.
  destruct (parent dir) as [p |] eqn:Hp; cbn in Hne; try congruence.
  eauto.
Qed.

(** C8: when the directory RMDIR resolves is a Root (it has no parent) the
    callback receives the error 'root dir cannot be removed' and the world
    is the one before the call: [fs.rmdir] has not been called and the
    root is still on disk and in the index.  Whenever RMDIR changes
    anything, the resolved directory has a parent. *)
Theorem RMDIR_refuses_root :
  forall dir_read (user : User) (props : Props) (w : World) (dir : Node),
    DIR w user props = Done dir ->
    parent dir = None ->
    RMDIR dir_read user props w
      = (Failed (new_Error "root dir cannot be removed"), w)
    /\ w_calls (snd (RMDIR dir_read user props w)) = w_calls w
    /\ w_disk (snd (RMDIR dir_read user props w)) !! absolutePath w dir
       = w_disk w !! absolutePath w dir
    /\ (forall user' props' w',
          snd (RMDIR dir_read user' props' w') <> w' ->
          exists d p, DIR w' user' props' = Done d /\ parent d = Some p).
Proof.
  intros dir_read user props w dir Hdir Hroot.
  assert (Hrun : RMDIR dir_read user props w
                 = (Failed (new_Error "root dir cannot be removed"), w)).
  { unfold RMDIR. rewrite Hdir, Hroot. reflexivity. }
  rewrite Hrun. cbn. repeat split.
  intros user' props' w'. apply RMDIR_world_changed.
Qed.

Lemma RMDIR_refuses_root_witness :
  RMDIR Sample.no_read Sample.alice (Sample.props Sample.home_uuid "home")
        Sample.world
  = (Failed (new_Error "root dir cannot be removed"), Sample.world).
Proof.
  exact (proj1 (RMDIR_refuses_root Sample.no_read Sample.alice
                  (Sample.props Sample.home_uuid "home") Sample.world
                  Sample.home_root eq_refl eq_refl)).
Defined.

(** ** Directory resolution and what it reveals *)




(** ** APPEND *)

Lemma opt_string_eqb_eq : forall a b, opt_string_eqb a b = true <-> a = b.
Proof.
  intros [a |] [b |]; cbn; split; intros H; try congruence; try reflexivity.
  - apply String.eqb_eq in H. congruence.
  - inversion H. apply String.eqb_refl.
Qed.

Lemma opt_string_eqb_neq : forall a b, a <> b -> opt_string_eqb a b = false.
Proof.
  intros a b Hne. destruct (opt_string_eqb a b) eqn:E; [| reflexivity].
  apply opt_string_eqb_eq in E. contradiction.
Qed.

Lemma discard_data_disk :
  forall (props : Props) (w : World) (q : path),
    p_data props <> Some q ->
    w_disk (discard_data props w) !! q = w_disk w !! q.
Proof.
  intros props w q Hq. unfold discard_data.
  destruct (p_data props) as [d |]; [| reflexivity].
  cbn. apply lookup_delete_ne. congruence.
Qed.

Lemma discard_data_calls :
  forall (props : Props) (w : World),
    w_calls (discard_data props w)
    = (w_calls w ++ match p_data props with
                    | Some d => [Call_rimraf d]
                    | None => []
                    end)%list.
Proof.
  intros props w. unfold discard_data.
  destruct (p_data props); cbn; [reflexivity | symmetry; apply app_nil_r].
Qed.




(** C3, as stated, fails when the target is also misaligned: the alignment
    test comes first, and alice's stale hash for the 5-byte [a.txt] is
    answered with EALIGN, not EHASHMISMATCH. *)
Lemma APPEND_stale_hash_on_misaligned_file :
  option_map e_hash (w_disk Sample.world !! path_join Sample.home_path "a.txt")
    = Some (Some Sample.hash_a)
  /\ Some Sample.hash_a <> Some Sample.hash_b
  /\ fst (APPEND Sample.digest Sample.quiet Sample.alice
            (Sample.append_props "a.txt" (Some Sample.hash_b) (Some Sample.hash_b))
            Sample.world)
     = Failed (with_status (with_code (new_Error "not a multiple of 1G") "EALIGN") 403)
  /\ (forall e,
        fst (APPEND Sample.digest Sample.quiet Sample.alice
               (Sample.append_props "a.txt" (Some Sample.hash_b) (Some Sample.hash_b))
               Sample.world) = Failed e ->
        code e <> Some "EHASHMISMATCH").
Proof.
  assert (Hrun :
    fst (APPEND Sample.digest Sample.quiet Sample.alice
           (Sample.append_props "a.txt" (Some Sample.hash_b) (Some Sample.hash_b))
           Sample.world)
    = Failed (with_status (with_code (new_Error "not a multiple of 1G") "EALIGN") 403))
    by (vm_compute; reflexivity).
  split; [| split; [| split]].
  - vm_compute. reflexivity.
  - discriminate.
  - exact Hrun.
  - intros e He. rewrite Hrun in He. inversion He. cbn. discriminate.
Qed.

(** C3, amended: an APPEND whose target is a file of aligned size and
    whose supplied hash differs from the recorded one fails with
    EHASHMISMATCH of status 403.  Nothing is concatenated, written or
    renamed: every entry on disk other than the uploaded data file, the
    target among them, keeps its content, uuid and hash. *)
Theorem APPEND_stale_hash :
  forall SHA256 concurrent (user : User) (props : Props) (w : World)
         (dir : Node) (xstat : Xstat),
    DIR w user props = Done dir ->
    Underlying.readXstat w (path_join (absolutePath w dir) (p_name props))
      = Done xstat ->
    x_type xstat = EFile ->
    Z.rem (x_size xstat) GiB = 0 ->
    x_hash xstat <> p_hash props ->
    APPEND SHA256 concurrent user props w
      = (Failed (with_status
                   (with_code
                      (new_Error ("hash mismatch, actual: "
                                  +:+ show_opt (x_hash xstat)))
                      "EHASHMISMATCH") 403),
         discard_data props w)
    /\ (forall q, p_data props <> Some q ->
                  w_disk (discard_data props w) !! q = w_disk w !! q)
    /\ w_calls (discard_data props w)
       = (w_calls w ++ match p_data props with
                       | Some d => [Call_rimraf d]
                       | None => []
                       end)%list.
Proof.
  intros SHA256 concurrent user props w dir xstat Hdir Hstat Hfile Hrem Hhash.
  split; [| split].
  - unfold APPEND. rewrite Hdir, Hstat, Hfile. cbn [EType_eqb negb].
    rewrite Hrem. cbn [Z.eqb negb].
    rewrite (opt_string_eqb_neq _ _ Hhash). reflexivity.
  - intros q Hq. apply discard_data_disk, Hq.
  - apply discard_data_calls.
Qed.

Lemma APPEND_stale_hash_witness :
  fst (APPEND Sample.digest Sample.quiet Sample.alice
         (Sample.append_props "big.bin" (Some Sample.hash_b) (Some Sample.hash_b))
         Sample.world)
  = Failed (with_status
              (with_code
                 (new_Error ("hash mismatch, actual: " +:+ Sample.hash_a))
                 "EHASHMISMATCH") 403).
Proof.
  set (props := Sample.append_props "big.bin" (Some Sample.hash_b)
                                    (Some Sample.hash_b)).
  assert (Hstat :
            Underlying.readXstat Sample.world
              (path_join (absolutePath Sample.world Sample.home_root)
                         (p_name props))
            = Done (Underlying.xstat_of (path_join Sample.home_path "big.bin")
                      (Sample.file_entry "f0000000-0000-4000-8000-000000000004"
                         400 (Some Sample.hash_a) None
                         [ {| ext_id := "big"; ext_size := GiB |} ])))
    by (vm_compute; reflexivity).
  pose proof (APPEND_stale_hash Sample.digest Sample.quiet Sample.alice props
                Sample.world Sample.home_root _
                ltac:(vm_compute; reflexivity) Hstat eq_refl
                ltac:(vm_compute; reflexivity)
                ltac:(vm_compute; discriminate)) as [Hrun _].
  rewrite Hrun. reflexivity.
Defined.

Lemma forceXstat_done :
  forall p u h w x w',
    Underlying.forceXstat p u h w = (Done x, w') ->
    x_hash x = h /\ x_uuid x = u
    /\ exists e, w_disk w' !! p = Some e /\ e_hash e = h /\ e_uuid e = u.
Proof.
  intros p u h w x w' H. unfold Underlying.forceXstat in H.
  destruct (w_disk w !! p) as [e |]; inversion H; subst; cbn.
  rewrite lookup_insert_eq. eauto 10.
Qed.

Lemma rename_done :
  forall a b w r w',
    Underlying.rename a b w = (Done r, w') ->
    w_disk w' !! b = w_disk w !! a.
Proof.
  intros a b w r w' H. unfold Underlying.rename in H.
  destruct (w_disk w !! a) as [e |]; inversion H; subst; cbn.
  apply lookup_insert_eq.
Qed.

(** C2: after a successful APPEND to a file that was not empty, the hash
    recorded for the file is the SHA-256, in hexadecimal, of the bytes
    decoded from the old hash followed by the bytes decoded from the hash
    of the appended data (the two hashes, not the content); when the file
    was empty it is the hash of the appended data.  The record handed to
    the callback and the record on disk at the target agree, and the file
    keeps its uuid. *)
Theorem APPEND_hash_scheme :
  forall SHA256 concurrent (user : User) (props : Props) (w w' : World)
         (dir : Node) (xstat x : Xstat),
    DIR w user props = Done dir ->
    Underlying.readXstat w (path_join (absolutePath w dir) (p_name props))
      = Done xstat ->
    APPEND SHA256 concurrent user props w = (Done x, w') ->
    (x_size xstat <> 0 ->
     exists old new,
       x_hash xstat = Some old /\ p_sha256 props = Some new
       /\ x_hash x = Some (JS.hex_encode
                             (SHA256 (JS.hex_decode old ++ JS.hex_decode new)%list)))
    /\ (x_size xstat = 0 -> x_hash x = p_sha256 props)
    /\ (p_data props <> Some (path_join (absolutePath w dir) (p_name props)) ->
        option_map e_hash
          (w_disk w' !! path_join (absolutePath w dir) (p_name props))
        = Some (x_hash x))
    /\ x_uuid x = x_uuid xstat.
Proof.
  intros SHA256 concurrent user props w w' dir xstat x Hdir Hstat Hrun.
  set (target := path_join (absolutePath w dir) (p_name props)) in *.
  unfold APPEND in Hrun. rewrite Hdir in Hrun. cbv zeta in Hrun.
  fold target in Hrun. rewrite Hstat in Hrun.
  destruct (negb (EType_eqb (x_type xstat) EFile)); [unfold cb in Hrun; discriminate |].
  destruct (negb (Z.rem (x_size xstat) GiB =? 0)); [unfold cb in Hrun; discriminate |].
  destruct (negb (opt_string_eqb (x_hash xstat) (p_hash props))) eqn:Hh;
    [unfold cb in Hrun; discriminate |].
  apply negb_false_iff, opt_string_eqb_eq in Hh.
  destruct (TMPFILE w) as [tmp w1].
  destruct (Underlying.btrfsConcat _ _ w1) as [[[] | e | t] w2];
    [| unfold cb in Hrun; discriminate | discriminate].
  set (w3 := concurrent _) in Hrun.
  destruct (Underlying.lstat_mtime w3 target) as [mtime | e | t];
    [| unfold cb in Hrun; discriminate | discriminate].
  destruct (negb (mtime =? x_mtime xstat)); [unfold cb in Hrun; discriminate |].
  destruct (if x_size xstat =? 0 then _ else _) as [newhash | e | t] eqn:Hnew;
    [| unfold cb in Hrun; discriminate | discriminate].
  destruct (Underlying.forceXstat tmp (x_uuid xstat) newhash w3)
    as [[xstat2 | e | t] w4] eqn:Hforce;
    [| unfold cb in Hrun; discriminate | discriminate].
  destruct (Underlying.rename tmp target w4) as [[r | e | t] w5] eqn:Hren;
    [| unfold cb in Hrun; discriminate | discriminate].
  unfold cb in Hrun. inversion Hrun; subst x w'; clear Hrun. cbn.
  apply forceXstat_done in Hforce as (Hxh & Hxu & e' & He' & Heh & _).
  apply rename_done in Hren.
  split; [| split; [| split]].
  - intros Hsize. apply Z.eqb_neq in Hsize. rewrite Hsize in Hnew.
    unfold combineHash in Hnew. rewrite <- Hh in Hnew.
    destruct (x_hash xstat) as [old |]; [| discriminate].
    destruct (p_sha256 props) as [new |]; [| discriminate].
    exists old, new. inversion Hnew. subst newhash. auto.
  - intros Hsize. rewrite Hsize in Hnew. cbn in Hnew. congruence.
  - intros Hdata. rewrite discard_data_disk by exact Hdata.
    rewrite Hren, He'. cbn. congruence.
  - exact Hxu.
Qed.

Lemma APPEND_hash_scheme_witness :
  exists x w',
    APPEND Sample.digest Sample.quiet Sample.alice
      (Sample.append_props "big.bin" (Some Sample.hash_a) (Some Sample.hash_b))
      Sample.world = (Done x, w')
    /\ x_hash x
       = Some (JS.hex_encode
                 (Sample.digest (JS.hex_decode Sample.hash_a
                                 ++ JS.hex_decode Sample.hash_b)%list)).
Proof.
  set (props := Sample.append_props "big.bin" (Some Sample.hash_a)
                                    (Some Sample.hash_b)).
  assert (Hfst : exists x,
             fst (APPEND Sample.digest Sample.quiet Sample.alice props
                    Sample.world) = Done x)
    by (eexists; vm_compute; reflexivity).
  destruct Hfst as (x & Hfst).
  pose proof (split_run _ _ Hfst) as Hrun.
  set (w' := snd (APPEND Sample.digest Sample.quiet Sample.alice props
                    Sample.world)) in Hrun.
  exists x, w'. split; [exact Hrun |].
  assert (Hstat :
            Underlying.readXstat Sample.world
              (path_join (absolutePath Sample.world Sample.home_root)
                         (p_name props))
            = Done (Underlying.xstat_of (path_join Sample.home_path "big.bin")
                      (Sample.file_entry "f0000000-0000-4000-8000-000000000004"
                         400 (Some Sample.hash_a) None
                         [ {| ext_id := "big"; ext_size := GiB |} ])))
    by (vm_compute; reflexivity).
  destruct (APPEND_hash_scheme Sample.digest Sample.quiet Sample.alice props
              Sample.world w' Sample.home_root _ x
              ltac:(vm_compute; reflexivity) Hstat Hrun) as [Hnonzero _].
  destruct Hnonzero as (old & new & Hold & Hnew & Hx);
    [vm_compute; discriminate |].
  cbn in Hold, Hnew. inversion Hold. inversion Hnew. subst old new. exact Hx.
Defined.

(** ** ADDTAGS then REMOVETAGS *)

Lemma existsb_Zeqb_In : forall (x : Z) (l : list Z),
    existsb (Z.eqb x) l = true <-> In x l.
Proof.
  intros x l. rewrite existsb_exists. split.
  - intros (y & Hy & Heq). apply Z.eqb_eq in Heq. congruence.
  - intros Hin. exists x. split; [exact Hin | apply Z.eqb_refl].
Qed.

Lemma In_sort_insert : forall (x y : Z) (l : list Z),
    In x (JS.sort_insert y l) <-> x = y \/ In x l.
Proof.
  intros x y l. induction l as [| z l IH]; cbn.
  - intuition.
  - destruct (JS.sort_le y z); cbn; [intuition | rewrite IH; intuition].
Qed.

Lemma In_sort : forall (x : Z) (l : list Z), In x (JS.sort l) <-> In x l.
Proof.
  intros x l. unfold JS.sort. induction l as [| y l IH]; cbn.
  - reflexivity.
  - rewrite In_sort_insert, IH. intuition.
Qed.

Lemma In_dedup_go : forall (l seen : list Z) (x : Z),
    In x (JS.dedup_go Z.eqb seen l) <-> In x l /\ ~ In x seen.
Proof.
  induction l as [| y l IH]; intros seen x; cbn.
  - intuition.
  - destruct (existsb (Z.eqb y) seen) eqn:E.
    + apply existsb_Zeqb_In in E. rewrite IH. split.
      * intuition.
      * intros [[-> | Hin] Hns]; [contradiction | auto].
    + assert (Hy : ~ In y seen).
      { intros Hin. apply existsb_Zeqb_In in Hin. congruence. }
      cbn. rewrite IH. cbn. split.
      * intros [<- | [Hin Hns]]; [auto | intuition].
      * intros [[<- | Hin] Hns]; [auto |].
        destruct (Z.eq_dec y x) as [-> | Hne]; [auto | right; intuition].
Qed.

Lemma In_uniq : forall (x : Z) (l : list Z), In x (JS.uniq Z.eqb l) <-> In x l.
Proof. intros x l. unfold JS.uniq. rewrite In_dedup_go. cbn. intuition. Qed.

Lemma In_complement : forall (tags old acc : list Z) (x : Z),
    In x (fold_left (fun acc id => if existsb (Z.eqb id) tags then acc
                                   else (acc ++ [id])%list) old acc)
    <-> In x acc \/ (In x old /\ ~ In x tags).
Proof.
  intros tags old. induction old as [| y old IH]; intros acc x; cbn.
  - intuition.
  - rewrite IH. destruct (existsb (Z.eqb y) tags) eqn:E.
    + apply existsb_Zeqb_In in E. split.
      * intuition.
      * intros [Hacc | [[<- | Hin] Hnt]]; [auto | contradiction | auto].
    + assert (Hy : ~ In y tags).
      { intros Hin. apply existsb_Zeqb_In in Hin. congruence. }
      rewrite in_app_iff. cbn. split.
      * intros [[Hacc | [<- | []]] | [Hin Hnt]]; auto.
      * intros [Hacc | [[<- | Hin] Hnt]]; auto.
Qed.

Lemma In_tag_ids : forall (id : Z) (l : list TagVal),
    In id (tag_ids l) <-> In (TInt id) l.
Proof.
  intros id l. unfold tag_ids. rewrite in_flat_map. split.
  - intros ([z |] & Hin & Hid); cbn in Hid; [| contradiction].
    destruct Hid as [<- | []]. exact Hin.
  - intros Hin. exists (TInt id). cbn. auto.
Qed.

Lemma In_normalize_tags : forall (id : Z) (tags : option (list TagVal)),
    In id (normalize_tags tags) <-> In (TInt id) (default [] tags).
Proof.
  intros id tags. unfold normalize_tags.
  rewrite In_sort, In_uniq. apply In_tag_ids.
Qed.

Lemma readXstat_done : forall (w : World) (p : path) (x : Xstat),
    Underlying.readXstat w p = Done x ->
    exists e, w_disk w !! p = Some e /\ x = Underlying.xstat_of p e.
Proof.
  intros w p x H. unfold Underlying.readXstat in H.
  destruct (w_disk w !! p) as [e |]; [| discriminate].
  exists e. destruct (e_type e); inversion H; auto.
Qed.

Lemma updateFileTags_run : forall (w : World) (p : path) (e : Entry) (tags : list Z),
    w_disk w !! p = Some e ->
    e_type e = EFile ->
    Underlying.updateFileTags p (e_uuid e) tags w
    = (Done (Underlying.xstat_of p (retag e tags)),
       set_disk (log_call (Call_updateFileTags p) w)
                (<[ p := retag e tags ]> (w_disk w))).
Proof.
  intros w p e tags He Hfile. unfold Underlying.updateFileTags.
  rewrite He, String.eqb_refl.
  replace (EType_eqb (e_type e) EFile) with true by (rewrite Hfile; reflexivity).
  reflexivity.
Qed.

Lemma check_tags_ext :
  forall (w1 w : World) (user : User) (tags : option (list TagVal)),
    w_tags w1 = w_tags w ->
    check_tags w1 user tags = check_tags w user tags.
Proof.
  intros w1 w user tags Htags. unfold check_tags.
  destruct tags as [l |]; [| reflexivity].
  destruct (_ || _); [reflexivity |]. f_equal.
  induction (tag_ids l) as [| id ids IH]; cbn; [reflexivity |].
  unfold find_tag. rewrite Htags, IH. reflexivity.
Qed.

Lemma REMOVETAGS_run :
  forall (user : User) (props : Props) (w : World) (dir : Node) (e : Entry),
    check_tags w user (p_tags props) = None ->
    DIR w user props = Done dir ->
    w_disk w !! path_join (absolutePath w dir) (p_name props) = Some e ->
    e_type e = EFile ->
    exists x2 w2,
      REMOVETAGS user props w = (Done x2, w2)
      /\ forall id,
          In id (stored_tags w2 (path_join (absolutePath w dir) (p_name props)))
          <-> In id (default [] (e_tags e))
              /\ ~ In (TInt id) (default [] (p_tags props)).
Proof.
  intros user props w dir e Hck Hdir He Hfile.
  unfold REMOVETAGS. rewrite Hck, Hdir.
  set (target := path_join (absolutePath w dir) (p_name props)) in *.
  assert (Hread : Underlying.readXstat w target = Done (Underlying.xstat_of target e)).
  { unfold Underlying.readXstat. rewrite He, Hfile. reflexivity. }
  rewrite Hread. cbn [Underlying.xstat_of x_type x_tags x_uuid].
  replace (EType_eqb (e_type e) EFile) with true by (rewrite Hfile; reflexivity).
  cbn [negb].
  destruct (e_tags e) as [old |] eqn:Htags.
  - rewrite (updateFileTags_run w target e _ He Hfile).
    eexists; eexists; split; [reflexivity |].
    intros id. unfold stored_tags. cbn. rewrite lookup_insert_eq. cbn.
    rewrite In_complement, In_normalize_tags. cbn. intuition.
  - eexists; eexists; split; [reflexivity |].
    intros id. unfold stored_tags. rewrite He, Htags. cbn. intuition.
Qed.

(** C6, as stated, fails when the file already carries one of the tags:
    [a.txt] carries 1 and 2; adding and then removing 2 and 3 leaves it
    with 1 alone. *)
Lemma tags_roundtrip_loses_shared_tags :
  exists x1 w1 x2 w2,
    ADDTAGS Sample.alice
      (Sample.with_tags (Sample.props Sample.home_uuid "a.txt") [2; 3])
      Sample.world = (Done x1, w1)
    /\ REMOVETAGS Sample.alice
         (Sample.with_tags (Sample.props Sample.home_uuid "a.txt") [2; 3])
         w1 = (Done x2, w2)
    /\ stored_tags Sample.world (path_join Sample.home_path "a.txt") = [1; 2]
    /\ stored_tags w1 (path_join Sample.home_path "a.txt") = [1; 2; 3]
    /\ stored_tags w2 (path_join Sample.home_path "a.txt") = [1]
    /\ ~ (forall id,
            In id (stored_tags w2 (path_join Sample.home_path "a.txt"))
            <-> In id (stored_tags Sample.world
                         (path_join Sample.home_path "a.txt"))).
Proof.
  set (props := Sample.with_tags (Sample.props Sample.home_uuid "a.txt")
                                 [2; 3]).
  assert (Hadd : exists x1,
             fst (ADDTAGS Sample.alice props Sample.world) = Done x1)
    by (eexists; vm_compute; reflexivity).
  destruct Hadd as (x1 & Hadd). apply split_run in Hadd.
  set (w1 := snd (ADDTAGS Sample.alice props Sample.world)) in *.
  assert (Hrem : exists x2, fst (REMOVETAGS Sample.alice props w1) = Done x2)
    by (eexists; vm_compute; reflexivity).
  destruct Hrem as (x2 & Hrem). apply split_run in Hrem.
  set (w2 := snd (REMOVETAGS Sample.alice props w1)) in *.
  assert (Hafter : stored_tags w2 (path_join Sample.home_path "a.txt") = [1])
    by (vm_compute; reflexivity).
  assert (Hbefore : stored_tags Sample.world
                      (path_join Sample.home_path "a.txt") = [1; 2])
    by (vm_compute; reflexivity).
  exists x1, w1, x2, w2.
  split; [exact Hadd |]. split; [exact Hrem |]. split; [exact Hbefore |].
  split; [vm_compute; reflexivity |]. split; [exact Hafter |].
  intros H. destruct (H 2) as [_ Hback].
  rewrite Hafter, Hbefore in Hback.
  destruct Hback as [Hin | []]; [right; left; reflexivity | discriminate].
Qed.

(** C6, amended: when none of the tags of T is on the file beforehand, a
    successful ADDTAGS with T followed by REMOVETAGS with T leaves the file
    with exactly the set of tags it had before the ADDTAGS. *)
Theorem tags_roundtrip_when_disjoint :
  forall (user : User) (props : Props) (w w1 : World) (dir : Node) (x1 : Xstat),
    DIR w user props = Done dir ->
    ADDTAGS user props w = (Done x1, w1) ->
    (forall id,
        In id (stored_tags w (path_join (absolutePath w dir) (p_name props))) ->
        ~ In (TInt id) (default [] (p_tags props))) ->
    exists x2 w2,
      REMOVETAGS user props w1 = (Done x2, w2)
      /\ forall id,
          In id (stored_tags w2 (path_join (absolutePath w dir) (p_name props)))
          <-> In id (stored_tags w (path_join (absolutePath w dir) (p_name props))).
Proof.
  intros user props w w1 dir x1 Hdir Hadd Hdisj.
  set (target := path_join (absolutePath w dir) (p_name props)) in *.
  unfold ADDTAGS in Hadd.
  destruct (check_tags w user (p_tags props)) eqn:Hck; [discriminate |].
  rewrite Hdir in Hadd. cbv zeta in Hadd. fold target in Hadd.
  destruct (Underlying.readXstat w target) as [xstat | |] eqn:Hstat;
    [| discriminate | discriminate].
  apply readXstat_done in Hstat as (e & He & ->).
  cbn [Underlying.xstat_of x_type x_tags x_uuid] in Hadd.
  destruct (e_type e) eqn:Hfile; cbn [EType_eqb negb] in Hadd; try discriminate.
  assert (Hold : forall id, In id (stored_tags w target) <-> In id (default [] (e_tags e))).
  { intros id. unfold stored_tags. rewrite He. reflexivity. }
  destruct (_ =? _)%nat in Hadd.
  - inversion Hadd; subst w1 x1; clear Hadd.
    destruct (REMOVETAGS_run user props w dir e Hck Hdir He Hfile)
      as (x2 & w2 & Hrun & Hset).
    exists x2, w2. split; [exact Hrun |].
    intros id. fold target in Hset. rewrite Hset, Hold.
    split; [intuition |]. intros Hin. split; [exact Hin |].
    apply Hdisj, Hold, Hin.
  - rewrite (updateFileTags_run w target e _ He Hfile) in Hadd.
    inversion Hadd; subst w1 x1; clear Hadd.
    set (w1 := set_disk _ _).
    assert (Hck1 : check_tags w1 user (p_tags props) = None)
      by (rewrite (check_tags_ext w1 w) by reflexivity; exact Hck).
    assert (Hdir1 : DIR w1 user props = Done dir) by exact Hdir.
    set (newTags := JS.sort _) in w1.
    assert (He1 : w_disk w1 !! path_join (absolutePath w1 dir) (p_name props)
                  = Some (retag e newTags)) by apply lookup_insert_eq.
    destruct (REMOVETAGS_run user props w1 dir (retag e newTags)
                Hck1 Hdir1 He1 Hfile) as (x2 & w2 & Hrun & Hset).
    exists x2, w2.
    +  split; [exact Hrun |].
      intros id. change (absolutePath w1 dir) with (absolutePath w dir) in Hset.
      fold target in Hset. rewrite Hset, Hold. cbn. unfold newTags.
      rewrite In_sort, In_uniq, in_app_iff, In_normalize_tags.
      split; [intuition |]. intros Hin. split; [auto |].
      apply Hdisj, Hold, Hin.
Qed.

Lemma tags_roundtrip_when_disjoint_witness :
  exists x1 w1 x2 w2,
    ADDTAGS Sample.alice
      (Sample.with_tags (Sample.props Sample.home_uuid "a.txt") [3])
      Sample.world = (Done x1, w1)
    /\ REMOVETAGS Sample.alice
         (Sample.with_tags (Sample.props Sample.home_uuid "a.txt") [3])
         w1 = (Done x2, w2)
    /\ forall id,
        In id (stored_tags w2
                 (path_join (absolutePath Sample.world Sample.home_root) "a.txt"))
        <-> In id (stored_tags Sample.world
                     (path_join (absolutePath Sample.world Sample.home_root)
                                "a.txt")).
Proof.
  set (props := Sample.with_tags (Sample.props Sample.home_uuid "a.txt") [3]).
  assert (Hfst : exists x1,
             fst (ADDTAGS Sample.alice props Sample.world) = Done x1)
    by (eexists; vm_compute; reflexivity).
  destruct Hfst as (x1 & Hfst).
  pose proof (split_run _ _ Hfst) as Hadd.
  set (w1 := snd (ADDTAGS Sample.alice props Sample.world)) in Hadd.
  assert (Hdisj : forall id,
             In id (stored_tags Sample.world
                      (path_join (absolutePath Sample.world Sample.home_root)
                                 (p_name props))) ->
             ~ In (TInt id) (default [] (p_tags props))).
  { intros id Hin Hin3. vm_compute in Hin. cbn in Hin3.
    destruct Hin3 as [Heq | []]. inversion Heq. subst id.
    destruct Hin as [H | [H | []]]; discriminate. }
  destruct (tags_roundtrip_when_disjoint Sample.alice props Sample.world w1
              Sample.home_root x1 ltac:(vm_compute; reflexivity) Hadd Hdisj)
    as (x2 & w2 & Hrem & Hset).
  exists x1, w1, x2, w2. auto.
Defined.

(** ** QUERY *)

Lemma append_assoc : forall a b c : string, (a +:+ b) +:+ c = a +:+ (b +:+ c).
Proof.
  induction a as [| x a IH]; intros b c; [reflexivity |].
  change (String x ((a +:+ b) +:+ c) = String x (a +:+ (b +:+ c))).
  f_equal. apply IH.
Qed.

Lemma append_records_concat :
  forall stringify recs comma out,
    append_records stringify comma out recs
    = match recs with
      | [] => out
      | _ => out +:+ (if comma then "," else EmptyString)
                 +:+ String.concat "," (map stringify recs)
      end.
Proof.
  intros stringify. induction recs as [| r t IH]; intros comma out;
    [reflexivity |].
  cbn [append_records]. rewrite IH.
  destruct t as [| r2 t]; cbn [map String.concat].
  - destruct comma; cbn; rewrite ?append_assoc; reflexivity.
  - destruct comma; cbn [String.append]; rewrite ?append_assoc; reflexivity.
Qed.

Lemma match_file_emit :
  forall stringify (a : ListArgs) (f : Node) (s : Acc),
    la_countOnly a <> Some true ->
    match_file stringify a f s
    = if passes a f then
        {| findCounter := findCounter s + 1;
           results_n := results_n s;
           results_groups := results_groups s;
           writeComma := true;
           written := (if writeComma s then written s +:+ "," else written s)
                      +:+ stringify (record_of a f) |}
      else s.
Proof.
  intros stringify a f s Hco. unfold match_file, passes, record_of.
  destruct (name_filter _ _); [| reflexivity].
  destruct (types_filter _ _); [| reflexivity].
  destruct (tags_filter _ _); [| reflexivity].
  destruct (place_index _ _) as [index |]; [| reflexivity].
  cbn. rewrite bool_decide_eq_false_2 by exact Hco. reflexivity.
Qed.

Lemma count_reached_eq :
  forall (a : ListArgs) (s : Acc), count_reached a s = reached a (findCounter s).
Proof. reflexivity. Qed.

Lemma scan_text :
  forall stringify (a : ListArgs),
    la_countOnly a <> Some true ->
    forall (l : list Node) (s : Acc),
      written (scan stringify a l s)
      = append_records stringify (writeComma s) (written s)
          (map (record_of a) (scan_hits a l (findCounter s))).
Proof.
  intros stringify a Hco. induction l as [| f r IH]; intros s; [reflexivity |].
  cbn [scan scan_hits]. rewrite (match_file_emit _ _ _ _ Hco).
  destruct (passes a f); rewrite count_reached_eq.
  - cbn [findCounter]. destruct (reached a (findCounter s + 1)).
    + reflexivity.
    + rewrite IH. reflexivity.
  - destruct (reached a (findCounter s)); [reflexivity |]. apply IH.
Qed.

Lemma iterateList_file :
  forall stringify (user : User) (a : ListArgs) (w : World),
    la_countOnly a <> Some true ->
    exists w',
      iterateList stringify user a w = (Done (QFile (fst (TMPFILE w))), w')
      /\ w_text w' !! fst (TMPFILE w)
         = Some (render stringify
                   (map (record_of a)
                        (scan_hits a (visit_order a (w_timedFiles w)) 0))).
Proof.
  intros stringify user a w Hco. unfold iterateList.
  rewrite bool_decide_eq_false_2 by exact Hco.
  cbn [TMPFILE fst]. eexists. split; [reflexivity |].
  cbn. rewrite lookup_insert_eq. f_equal.
  rewrite (scan_text _ _ Hco). cbn [writeComma written findCounter].
  rewrite append_records_concat. unfold render.
  destruct (map _ _); cbn; rewrite ?append_assoc; reflexivity.
Qed.

Lemma scan_hits_take :
  forall (a : ListArgs) (n : Z),
    la_count a = Some n ->
    forall (l : list Node) (c : Z),
      0 <= c < n ->
      scan_hits a l c = take (Z.to_nat (n - c)) (List.filter (passes a) l).
Proof.
  intros a n Hn. induction l as [| f r IH]; intros c Hc.
  - cbn. destruct (Z.to_nat (n - c)); reflexivity.
  - cbn [scan_hits List.filter]. unfold reached. rewrite Hn.
    replace (n =? 0) with false by (symmetry; apply Z.eqb_neq; lia).
    cbn [negb andb].
    destruct (passes a f).
    + replace (Z.to_nat (n - c)) with (S (Z.to_nat (n - (c + 1)))) by lia.
      cbn [take]. f_equal.
      destruct (Z.leb_spec n (c + 1)) as [Hle | Hlt].
      * replace (Z.to_nat (n - (c + 1))) with O by lia. reflexivity.
      * apply IH. lia.
    + destruct (Z.leb_spec n c) as [Hle | Hlt]; [lia |]. apply IH. lia.
Qed.





Lemma check_places_not_done :
  forall (w : World) (user : User) (places rest : list string) (i : Z)
         (r : outcome QResult),
    check_places w user places rest i = Some r ->
    forall x, r <> Done x.
Proof.
  intros w user places. induction rest as [| place rest IH]; intros i r H x.
  - cbn in H. destruct (JS.lt_array i places); inversion H. discriminate.
  - cbn in H. destruct (JS.lt_array i places); [| discriminate].
    destruct (w_uuidMap w !! place) as [dir |]; [| inversion H; discriminate].
    destruct (find_drive w (r_uuid (root dir))) as [drive |];
      [| inversion H; discriminate].
    destruct (negb (userCanWriteDrive user drive));
      [inversion H; discriminate |].
    exact (IH _ _ H x).
Qed.

Lemma permission_loop_skipped :
  forall (w : World) (user : User) (places : list string),
    JS.lt_array 0 places = false ->
    check_places w user places places 0 = None.
Proof.
  intros w user places Hguard.
  destruct places; cbn [check_places]; rewrite Hguard; reflexivity.
Qed.

(** Once the loop guard is false QUERY never looks at the user. *)
Lemma QUERY_ignores_user :
  forall isUUID stringify iterate_from path_normalize
         (user1 user2 : User) (props : QueryProps) (w : World),
    JS.lt_array 0 (JS.split "." (default EmptyString (q_places props))) = false ->
    QUERY isUUID stringify iterate_from path_normalize user1 props w
    = QUERY isUUID stringify iterate_from path_normalize user2 props w.
Proof.
  intros isUUID stringify iterate_from path_normalize user1 user2 props w Hguard.
  unfold QUERY. rewrite !(permission_loop_skipped _ _ _ Hguard). reflexivity.
Qed.

Lemma hyphens_append : forall a b, hyphens (a +:+ b) = (hyphens a + hyphens b)%nat.
Proof.
  induction a as [| c a IH]; intros b; [reflexivity |].
  change (hyphens (String c (a +:+ b)) = (hyphens (String c a) + hyphens b)%nat).
  cbn [hyphens]. rewrite IH. lia.
Qed.

Lemma space_not_hyphen : forall c, JS.is_space c = true -> Ascii.eqb c "-" = false.
Proof.
  intros c Hs. destruct (Ascii.eqb_spec c "-") as [-> |]; [| reflexivity].
  vm_compute in Hs. discriminate.
Qed.

Lemma trim_left_hyphens : forall s, hyphens (JS.trim_left s) = hyphens s.
Proof.
  induction s as [| c r IH]; [reflexivity |].
  cbn [JS.trim_left]. destruct (JS.is_space c) eqn:Hs; [| reflexivity].
  cbn [hyphens]. rewrite (space_not_hyphen c Hs). exact IH.
Qed.

Lemma trim_right_hyphens : forall s, hyphens (JS.trim_right s) = hyphens s.
Proof.
  induction s as [| c r IH]; [reflexivity |].
  cbn [JS.trim_right]. destruct (JS.is_space c) eqn:Hs; cbn [andb].
  - destruct (String.eqb_spec (JS.trim_right r) EmptyString) as [He | Hne].
    + cbn [hyphens]. rewrite (space_not_hyphen c Hs), <- IH, He. reflexivity.
    + cbn [hyphens]. rewrite IH. reflexivity.
  - cbn [hyphens]. rewrite IH. reflexivity.
Qed.

Lemma read_digits_hyphens :
  forall (dig : ascii -> option Z) (base : Z),
    dig "-"%char = None ->
    forall s acc n v n' rest,
      JS.read_digits dig base acc n s = (v, n', rest) ->
      hyphens s = hyphens rest.
Proof.
  intros dig base Hdig. induction s as [| c r IH]; intros acc n v n' rest H.
  - inversion H. reflexivity.
  - cbn [JS.read_digits] in H. destruct (dig c) as [d |] eqn:Hc.
    + apply IH in H. cbn [hyphens]. rewrite <- H.
      destruct (Ascii.eqb_spec c "-") as [-> |]; [congruence | reflexivity].
    + inversion H. reflexivity.
Qed.

Lemma read_sign_hyphens :
  forall s neg r, JS.read_sign s = (neg, r) -> (hyphens s <= 1 + hyphens r)%nat.
Proof.
  intros s neg r H. unfold JS.read_sign in H.
  destruct s as [| c s']; [inversion H; cbn; lia |].
  destruct (Ascii.eqb_spec c "-") as [-> | Hne].
  - inversion H. cbn. lia.
  - assert (Hc : Ascii.eqb c "-" = false) by (apply Ascii.eqb_neq; exact Hne).
    destruct (Ascii.eqb_spec c "+") as [-> | Hne2].
    + inversion H. cbn. lia.
    + assert (r = String c s').
      { destruct c as [[] [] [] [] [] [] [] []]; inversion H; try reflexivity;
          congruence. }
      subst r. lia.
Qed.

Lemma digit_of_hyphen : JS.digit_of "-" = None. Proof. reflexivity. Qed.
Lemma hexdigit_of_hyphen : JS.hexdigit_of "-" = None. Proof. reflexivity. Qed.
Lemma octdigit_of_hyphen : JS.octdigit_of "-" = None. Proof. reflexivity. Qed.
Lemma bindigit_of_hyphen : JS.bindigit_of "-" = None. Proof. reflexivity. Qed.

Lemma all_digits_hyphens :
  forall dig base s,
    dig "-"%char = None ->
    JS.all_digits dig base s <> JS.NaN -> hyphens s = O.
Proof.
  intros dig base s Hdig H. unfold JS.all_digits in H.
  destruct (JS.read_digits dig base 0 0 s) as [[v n] rest] eqn:Hr.
  apply (read_digits_hyphens dig base Hdig) in Hr.
  destruct n; [congruence |]. destruct rest; [| congruence]. exact Hr.
Qed.

Lemma read_exponent_hyphens :
  forall s x, JS.read_exponent s = Some x -> (hyphens s <= 1)%nat.
Proof.
  intros s x H. unfold JS.read_exponent in H.
  destruct s as [| c r]; [cbn; lia |].
  destruct (Ascii.eqb c "e" || Ascii.eqb c "E") eqn:He; [| discriminate].
  assert (Hc : Ascii.eqb c "-" = false).
  { destruct (Ascii.eqb_spec c "-") as [-> |]; [discriminate | reflexivity]. }
  destruct (JS.read_sign r) as [neg r1] eqn:Hs.
  apply read_sign_hyphens in Hs.
  destruct (JS.read_digits JS.digit_of 10 0 0 r1) as [[v n] rest] eqn:Hr.
  apply (read_digits_hyphens _ _ digit_of_hyphen) in Hr.
  destruct n; [discriminate |]. destruct rest; [| discriminate].
  cbn [hyphens] in *. rewrite Hc. lia.
Qed.

Lemma read_decimal_hyphens :
  forall s, JS.read_decimal s <> JS.NaN -> (hyphens s <= 1)%nat.
Proof.
  intros s H. unfold JS.read_decimal in H.
  destruct (JS.read_digits JS.digit_of 10 0 0 s) as [[ip n1] s1] eqn:H1.
  apply (read_digits_hyphens _ _ digit_of_hyphen) in H1.
  destruct (match s1 with String "." r => _ | _ => _ end) as [[fp n2] s2] eqn:H2.
  assert (Hfrac : hyphens s1 = hyphens s2).
  { destruct s1 as [| c r]; [inversion H2; reflexivity |].
    destruct (Ascii.eqb_spec c ".") as [-> | Hne].
    - apply (read_digits_hyphens _ _ digit_of_hyphen) in H2. exact H2.
    - assert (Heq : (0, O, String c r) = (fp, n2, s2)).
      { destruct c as [[] [] [] [] [] [] [] []]; try exact H2; congruence. }
      inversion Heq. reflexivity. }
  destruct (n1 + n2)%nat; [congruence |].
  destruct (JS.read_exponent s2) as [x |] eqn:Hx; [| congruence].
  apply read_exponent_hyphens in Hx. lia.
Qed.

(** A string that reads as a number holds at most two hyphens: a sign and
    the sign of an exponent. *)
Lemma StringToNumber_hyphens :
  forall s, JS.StringToNumber s <> JS.NaN -> (hyphens s <= 2)%nat.
Proof.
  intros s H. unfold JS.StringToNumber in H.
  rewrite <- (trim_left_hyphens s), <- (trim_right_hyphens (JS.trim_left s)).
  set (t := JS.trim_right (JS.trim_left s)) in *. clearbody t.
  assert (Hgen : (let '(neg, u) := JS.read_sign t in
                  let v := if String.eqb u "Infinity" then JS.Infinity false
                           else JS.read_decimal u in
                  if neg then JS.negate v else v) <> JS.NaN ->
                 (hyphens t <= 2)%nat).
  { destruct (JS.read_sign t) as [neg u] eqn:Hs. intros Hv.
    apply read_sign_hyphens in Hs.
    destruct (String.eqb_spec u "Infinity") as [-> | Hne].
    - cbn in Hs. lia.
    - assert (JS.read_decimal u <> JS.NaN).
      { intros Hn. rewrite Hn in Hv. destruct neg; apply Hv; reflexivity. }
      apply read_decimal_hyphens in H0. lia. }
  destruct t as [| c0 t']; [cbn; lia |].
  destruct (Ascii.eqb_spec c0 "0") as [-> | Hne0].
  - destruct t' as [| x r]; [cbn; lia |].
    destruct (JS.is_x x) eqn:Hx.
    + apply all_digits_hyphens in H; [| reflexivity].
      cbn [hyphens]. rewrite H.
      destruct (Ascii.eqb_spec x "-") as [-> |]; [discriminate | cbn; lia].
    + destruct (Ascii.eqb x "o" || Ascii.eqb x "O") eqn:Ho.
      * apply all_digits_hyphens in H; [| reflexivity].
        cbn [hyphens]. rewrite H.
        destruct (Ascii.eqb_spec x "-") as [-> |]; [discriminate | cbn; lia].
      * destruct (Ascii.eqb x "b" || Ascii.eqb x "B") eqn:Hb.
        -- apply all_digits_hyphens in H; [| reflexivity].
           cbn [hyphens]. rewrite H.
           destruct (Ascii.eqb_spec x "-") as [-> |]; [discriminate | cbn; lia].
        -- apply read_decimal_hyphens in H. lia.
  - apply Hgen.
    destruct c0 as [[] [] [] [] [] [] [] []]; try exact H; congruence.
Qed.

Lemma hyphens_concat_head :
  forall p rest, (hyphens p <= hyphens (String.concat "," (p :: rest)))%nat.
Proof.
  intros p rest. destruct rest as [| q rest]; cbn [String.concat]; [lia |].
  rewrite hyphens_append. lia.
Qed.

(** An array that starts with a uuid is NaN as a number: no integer is
    below it. *)
Lemma lt_array_uuid_list :
  forall (i : Z) (p : string) (rest : list string),
    (3 <= hyphens p)%nat -> JS.lt_array i (p :: rest) = false.
Proof.
  intros i p rest Hp. unfold JS.lt_array, JS.array_toString.
  destruct (JS.StringToNumber _) eqn:E; [reflexivity | |];
    pose proof (hyphens_concat_head p rest);
    assert (Hn : JS.StringToNumber (String.concat "," (p :: rest)) <> JS.NaN)
      by (rewrite E; discriminate);
    apply StringToNumber_hyphens in Hn; lia.
Qed.

Lemma hyphens_of_list_app :
  forall a b : list ascii,
    hyphens (string_of_list_ascii (a ++ b))
    = (hyphens (string_of_list_ascii a) + hyphens (string_of_list_ascii b))%nat.
Proof.
  induction a as [| c a IH]; intros b; [reflexivity |].
  cbn [app string_of_list_ascii hyphens]. rewrite IH. lia.
Qed.

Lemma hex_run_no_hyphen :
  forall l : list ascii,
    forallb (fun c => match JS.hexdigit_of c with Some _ => true | None => false end) l
    = true ->
    hyphens (string_of_list_ascii l) = O.
Proof.
  induction l as [| c l IH]; intros H; [reflexivity |].
  cbn [forallb] in H. apply andb_prop in H as [Hc Hl].
  cbn [string_of_list_ascii hyphens]. rewrite (IH Hl).
  destruct (Ascii.eqb_spec c "-") as [-> |]; [discriminate | reflexivity].
Qed.

Lemma uuid_shape_hyphens :
  forall (groups : list nat) (l : list ascii),
    Sample.uuid_shape groups l = true ->
    hyphens (string_of_list_ascii l) = (length groups - 1)%nat.
Proof.
  induction groups as [| g r IH]; intros l H.
  - destruct l; [reflexivity | discriminate].
  - cbn [Sample.uuid_shape] in H.
    apply andb_prop in H as [H Htail]. apply andb_prop in H as [Hhex _].
    rewrite <- (firstn_skipn g l), hyphens_of_list_app, (hex_run_no_hyphen _ Hhex).
    destruct r as [| g2 r].
    + destruct (skipn g l); [reflexivity | discriminate].
    + destruct (skipn g l) as [| c t]; [discriminate |].
      destruct (Ascii.eqb_spec c "-") as [-> | Hne].
      * cbn [string_of_list_ascii hyphens]. rewrite (IH t Htail). cbn. lia.
      * exfalso. destruct c as [[] [] [] [] [] [] [] []]; try discriminate.
        apply Hne. reflexivity.
Qed.

Lemma isUUID_hyphens :
  forall s, Sample.isUUID s = true -> (3 <= hyphens s)%nat.
Proof.
  intros s H. unfold Sample.isUUID in H. apply uuid_shape_hyphens in H.
  rewrite string_of_list_ascii_of_string in H. rewrite H. cbn. lia.
Qed.

Lemma split_nonempty : forall sep s, JS.split sep s <> [].
Proof.
  intros sep s. destruct s as [| c r]; cbn; [discriminate |].
  destruct (Ascii.eqb c sep); [discriminate |].
  destruct (JS.split sep r); discriminate.
Qed.

(** With a validator that accepts hyphenated uuids only, the answer of
    QUERY is the same for every user. *)
Lemma QUERY_outcome_independent_of_user :
  forall isUUID stringify iterate_from path_normalize
         (user1 user2 : User) (props : QueryProps) (w : World),
    (forall s, isUUID s = true -> (3 <= hyphens s)%nat) ->
    QUERY isUUID stringify iterate_from path_normalize user1 props w
    = QUERY isUUID stringify iterate_from path_normalize user2 props w.
Proof.
  intros isUUID stringify iterate_from path_normalize user1 user2 props w Hshape.
  destruct (forallb isUUID (JS.split "." (default EmptyString (q_places props))))
    eqn:Hall.
  - apply QUERY_ignores_user.
    destruct (JS.split "." (default EmptyString (q_places props)))
      as [| p rest] eqn:Hsplit; [exfalso; exact (split_nonempty _ _ Hsplit) |].
    cbn [forallb] in Hall. apply andb_prop in Hall as [Hp _].
    apply lt_array_uuid_list, Hshape, Hp.
  - unfold QUERY. rewrite Hall. reflexivity.
Qed.

(** C1: the permission loop of QUERY is guarded by [i < places], the array
    itself instead of its length; for a list of uuids the guard is false at
    once and the loop body never runs.  Bob, who cannot write alice's
    private drive, names it as the place and receives the records of all
    her files; a place that is in no index is not refused either. *)
Theorem QUERY_skips_permission_check :
  userCanWriteDrive Sample.bob Sample.home = false
  /\ Sample.isUUID Sample.home_uuid = true
  /\ JS.lt_array 0 [Sample.home_uuid] = false
  /\ fst (QUERY Sample.isUUID Sample.stringify Sample.no_walk id Sample.bob
            (Sample.query Sample.home_uuid (Some "3")) Sample.world)
     = Done (QFile ["fruitmix"; "tmp"; "0"])
  /\ w_text (snd (QUERY Sample.isUUID Sample.stringify Sample.no_walk id
                    Sample.bob (Sample.query Sample.home_uuid (Some "3"))
                    Sample.world)) !! ["fruitmix"; "tmp"; "0"]
     = Some "[{name:c.txt},{name:b.txt},{name:a.txt}]"
  /\ fst (QUERY Sample.isUUID Sample.stringify Sample.no_walk id Sample.bob
            (Sample.query Sample.absent_uuid (Some "3")) Sample.world)
     = Done (QFile ["fruitmix"; "tmp"; "0"]).
Proof.
  repeat (split; [vm_compute; reflexivity |]). vm_compute. reflexivity.
Qed.

(** C9, as stated, fails for small results: a query for the single newest
    file of alice is answered with the path of a temporary file that holds
    the one record, not with an array in memory. *)
Lemma QUERY_small_result_in_temp_file :
  fst (QUERY Sample.isUUID Sample.stringify Sample.no_walk id Sample.alice
         (Sample.query Sample.home_uuid (Some "1")) Sample.world)
  = Done (QFile ["fruitmix"; "tmp"; "0"])
  /\ w_text (snd (QUERY Sample.isUUID Sample.stringify Sample.no_walk id
                    Sample.alice (Sample.query Sample.home_uuid (Some "1"))
                    Sample.world)) !! ["fruitmix"; "tmp"; "0"]
     = Some "[{name:c.txt}]"
  /\ (forall records,
        fst (QUERY Sample.isUUID Sample.stringify Sample.no_walk id Sample.alice
               (Sample.query Sample.home_uuid (Some "1")) Sample.world)
        <> Done (QArray records)).
Proof.
  split; [vm_compute; reflexivity |]. split; [vm_compute; reflexivity |].
  intros records. vm_compute. discriminate.
Qed.

(** C9, amended: every chronological QUERY that is not countOnly and
    completes is answered with the path of a fresh temporary file that
    holds the JSON array of the records, whatever their number; no record
    array is handed over in memory. *)
Theorem chronological_query_answers_with_temp_file :
  forall isUUID stringify iterate_from path_normalize
         (user : User) (props : QueryProps) (w w' : World) (r : QResult),
    QUERY isUUID stringify iterate_from path_normalize user props w
      = (Done r, w') ->
    parse_order props <> inr Find ->
    parse_countOnly props <> Some true ->
    exists recs,
      r = QFile (fst (TMPFILE w))
      /\ w_text w' !! fst (TMPFILE w) = Some (render stringify recs).
Proof.
  intros isUUID stringify iterate_from path_normalize user props w w' r
         Hrun Horder Hco.
  unfold QUERY in Hrun.
  destruct (negb (JS.truthy (q_places props))); [discriminate |].
  destruct (negb (forallb isUUID _)); [discriminate |].
  destruct (negb (_ =? _)%nat); [discriminate |].
  destruct (check_places _ _ _ _ _) as [res |] eqn:Hplaces.
  { inversion Hrun; subst. exfalso.
    exact (check_places_not_done _ _ _ _ _ _ Hplaces r eq_refl). }
  destruct (parse_order props) as [m | order]; [discriminate |].
  destruct order; [| | congruence].
  all: cbv beta iota zeta in Hrun.
  all: destruct (sum_map _ _ _) as [m | [start last]]; [discriminate |].
  all: destruct (parse_count props) as [m | count]; [discriminate |].
  all: destruct (parse_groupBy props) as [m | groupBy]; [discriminate |].
  all: destruct (parse_types props) as [m | types]; [discriminate |].
  all: destruct (parse_tags props) as [m | tags]; [discriminate |].
  all: match type of Hrun with
       | iterateList _ _ ?a _ = _ =>
           destruct (iterateList_file stringify user a w Hco)
             as (w1 & Hlist & Htext);
           rewrite Hlist in Hrun; inversion Hrun; subst;
           eexists; split; [reflexivity | exact Htext]
       end.
Qed.

Lemma chronological_query_answers_with_temp_file_witness :
  exists recs w',
    QUERY Sample.isUUID Sample.stringify Sample.no_walk id Sample.alice
      (Sample.query Sample.home_uuid (Some "1")) Sample.world
    = (Done (QFile (fst (TMPFILE Sample.world))), w')
    /\ w_text w' !! fst (TMPFILE Sample.world)
       = Some (render Sample.stringify recs).
Proof.
  assert (Hfst : exists r,
             fst (QUERY Sample.isUUID Sample.stringify Sample.no_walk id
                    Sample.alice (Sample.query Sample.home_uuid (Some "1"))
                    Sample.world) = Done r)
    by (eexists; vm_compute; reflexivity).
  destruct Hfst as (r & Hfst).
  pose proof (split_run _ _ Hfst) as Hrun.
  set (w' := snd (QUERY Sample.isUUID Sample.stringify Sample.no_walk id
                    Sample.alice (Sample.query Sample.home_uuid (Some "1"))
                    Sample.world)) in Hrun.
  destruct (chronological_query_answers_with_temp_file
              Sample.isUUID Sample.stringify Sample.no_walk id Sample.alice
              (Sample.query Sample.home_uuid (Some "1")) Sample.world w' r Hrun
              ltac:(vm_compute; discriminate) ltac:(vm_compute; discriminate))
    as (recs & Hr & Htext).
  exists recs, w'. rewrite <- Hr. auto.
Defined.






(** * Further properties *)

(** ** Directory resolution *)

Lemma find_drive_some :
  forall (w : World) (u : string) (d : Drive),
    find_drive w u = Some d -> d_uuid d = u /\ In d (w_drives w).
Proof.
  intros w u d H. unfold find_drive in H. apply find_some in H as [Hin Heq].
  apply String.eqb_eq in Heq. auto.
Qed.

Lemma truthy_some :
  forall o, JS.truthy o = true -> exists s, o = Some s /\ s <> EmptyString.
Proof.
  intros [s |] H; [| discriminate]. exists s. split; [reflexivity |].
  cbn in H. intros ->. discriminate.
Qed.

(** X1: When DIR answers with a directory, it is the indexed node of dirUUID,
    and the drive of its root exists, is not deleted and is writable by the
    user; a driveUUID that was given names that drive. *)
Theorem DIR_sound :
  forall (w : World) (user : User) (props : Props) (dir : Node),
    DIR w user props = Done dir ->
    uuidMap_get w (p_dirUUID props) = Some dir
    /\ exists drive,
        find_drive w (r_uuid (root dir)) = Some drive
        /\ d_uuid drive = r_uuid (root dir)
        /\ d_isDeleted drive = false
        /\ userCanWriteDrive user drive = true
        /\ (JS.truthy (p_driveUUID props) = true ->
            p_driveUUID props = Some (d_uuid drive)).
Proof.
  intros w user props dir H. unfold DIR in H.
  destruct (JS.truthy (p_driveUUID props) && _) eqn:Hspec; [discriminate |].
  destruct (uuidMap_get w (p_dirUUID props)) as [dir' |] eqn:Hget; [| discriminate].
  destruct (find_drive w (r_uuid (root dir'))) as [drive |] eqn:Hdrive;
    [| discriminate].
  destruct (d_isDeleted drive || negb (userCanWriteDrive user drive)) eqn:Hacc;
    [discriminate |].
  destruct (JS.truthy (p_driveUUID props) && negb _) eqn:Hmoved; [discriminate |].
  inversion H; subst dir'. split; [reflexivity |].
  exists drive. apply orb_false_elim in Hacc as [Hdel Hw].
  apply negb_false_iff in Hw.
  repeat split; try assumption.
  - apply (find_drive_some _ _ _ Hdrive).
  - intros Ht. rewrite Ht in Hmoved. cbn in Hmoved.
    apply negb_false_iff, String.eqb_eq in Hmoved.
    apply truthy_some in Ht as (s & Hs & _). rewrite Hs in *. cbn in Hmoved.
    congruence.
Qed.

Lemma DIR_sound_witness :
  DIR Sample.world Sample.alice (Sample.props Sample.docs_uuid "b.txt")
  = Done Sample.docs
  /\ exists drive,
       find_drive Sample.world (r_uuid (root Sample.docs)) = Some drive
       /\ d_isDeleted drive = false
       /\ userCanWriteDrive Sample.alice drive = true.
Proof.
  assert (Hdir : DIR Sample.world Sample.alice
                   (Sample.props Sample.docs_uuid "b.txt") = Done Sample.docs)
    by (vm_compute; reflexivity).
  split; [exact Hdir |].
  destruct (DIR_sound Sample.world Sample.alice
              (Sample.props Sample.docs_uuid "b.txt") Sample.docs Hdir)
    as (_ & drive & Hfind & _ & Hdel & Hcan & _).
  exists drive. auto.
Defined.

(** X2: DIR answers 301 (dir moved elsewhere) only when both the drive named by
    driveUUID and the drive that really holds the directory are accessible
    to the user, and they differ. *)
Theorem DIR_moved_only_between_accessible_drives :
  forall (w : World) (user : User) (props : Props) (e : Error),
    DIR w user props = Failed e ->
    status e = Some 301 ->
    exists named dir drive,
      p_driveUUID props = Some named
      /\ inaccessible user (find_drive w named) = false
      /\ uuidMap_get w (p_dirUUID props) = Some dir
      /\ find_drive w (r_uuid (root dir)) = Some drive
      /\ inaccessible user (Some drive) = false
      /\ d_uuid drive <> named.
Proof.
  intros w user props e H Hst. unfold DIR in H.
  destruct (JS.truthy (p_driveUUID props) && _) eqn:Hspec;
    [inversion H; subst e; discriminate |].
  destruct (uuidMap_get w (p_dirUUID props)) as [dir |] eqn:Hget;
    [| inversion H; subst e; discriminate].
  destruct (find_drive w (r_uuid (root dir))) as [drive |] eqn:Hdrive;
    [| inversion H; subst e; discriminate].
  destruct (d_isDeleted drive || negb (userCanWriteDrive user drive)) eqn:Hacc;
    [inversion H; subst e; discriminate |].
  destruct (JS.truthy (p_driveUUID props) && negb _) eqn:Hmoved; [| discriminate].
  apply andb_prop in Hmoved as [Ht Hne].
  rewrite Ht in Hspec. cbn in Hspec.
  apply truthy_some in Ht as (named & Hs & _). rewrite Hs in *. cbn in *.
  exists named, dir, drive. repeat split; try assumption; try reflexivity.
  apply negb_true_iff, String.eqb_neq in Hne. exact Hne.
Qed.

Lemma DIR_moved_only_between_accessible_drives_witness :
  exists e,
    DIR Cases.two_drives Sample.alice
      (Cases.in_drive Cases.shared_uuid Sample.docs_uuid "b.txt") = Failed e
    /\ status e = Some 301
    /\ exists drive,
         find_drive Cases.two_drives (r_uuid (root Sample.docs)) = Some drive
         /\ inaccessible Sample.alice (Some drive) = false
         /\ d_uuid drive <> Cases.shared_uuid.
Proof.
  set (props := Cases.in_drive Cases.shared_uuid Sample.docs_uuid "b.txt").
  assert (Hrun : exists e, DIR Cases.two_drives Sample.alice props = Failed e
                           /\ status e = Some 301)
    by (eexists; split; vm_compute; reflexivity).
  destruct Hrun as (e & Hrun & Hst). exists e.
  split; [exact Hrun |]. split; [exact Hst |].
  destruct (DIR_moved_only_between_accessible_drives
              Cases.two_drives Sample.alice props e Hrun Hst)
    as (named & dir & drive & Hn & _ & Hd & Hf & Ha & Hne).
  assert (Hdocs : uuidMap_get Cases.two_drives (p_dirUUID props)
                  = Some Sample.docs) by (vm_compute; reflexivity).
  assert (dir = Sample.docs) by congruence. subst dir.
  assert (named = Cases.shared_uuid) by (cbn in Hn; congruence). subst named.
  exists drive. auto.
Defined.

(** ** The tag operations *)

Lemma length_sort_insert : forall x l, length (JS.sort_insert x l) = S (length l).
Proof.
  intros x l. induction l as [| y l IH]; cbn; [reflexivity |].
  destruct (JS.sort_le x y); cbn; [reflexivity | rewrite IH; reflexivity].
Qed.

Lemma length_sort : forall l, length (JS.sort l) = length l.
Proof.
  induction l as [| y l IH]; cbn; [reflexivity |].
  rewrite length_sort_insert. f_equal. exact IH.
Qed.

Lemma NoDup_sort_insert :
  forall x l, ~ In x l -> List.NoDup l -> List.NoDup (JS.sort_insert x l).
Proof.
  intros x l. induction l as [| y l IH]; intros Hx Hl; cbn.
  - apply List.NoDup_cons; [intros [] | apply List.NoDup_nil].
  - destruct (JS.sort_le x y).
    + apply List.NoDup_cons; assumption.
    + inversion Hl as [| ? ? Hy Hl']; subst. apply List.NoDup_cons.
      * rewrite In_sort_insert. intros [-> | Hin]; [apply Hx; left; reflexivity |].
        contradiction.
      * apply IH; [| exact Hl']. intros Hin. apply Hx. right. exact Hin.
Qed.

Lemma NoDup_sort : forall l, List.NoDup l -> List.NoDup (JS.sort l).
Proof.
  intros l Hl. unfold JS.sort. induction Hl as [| x l Hx Hl IH]; cbn.
  - apply List.NoDup_nil.
  - apply NoDup_sort_insert; [| exact IH]. fold (JS.sort l).
    rewrite In_sort. exact Hx.
Qed.

Lemma NoDup_dedup_go :
  forall l seen, List.NoDup (JS.dedup_go Z.eqb seen l).
Proof.
  induction l as [| y l IH]; intros seen; cbn; [apply List.NoDup_nil |].
  destruct (existsb (Z.eqb y) seen); [apply IH |].
  apply List.NoDup_cons; [| apply IH].
  rewrite In_dedup_go. cbn. tauto.
Qed.

Lemma NoDup_normalize_tags : forall tags, List.NoDup (normalize_tags tags).
Proof. intros tags. apply NoDup_sort, NoDup_dedup_go. Qed.

Lemma dedup_go_all_seen :
  forall l seen, (forall x, In x l -> In x seen) -> JS.dedup_go Z.eqb seen l = [].
Proof.
  induction l as [| y l IH]; intros seen H; cbn; [reflexivity |].
  replace (existsb (Z.eqb y) seen) with true
    by (symmetry; apply existsb_Zeqb_In, H; left; reflexivity).
  apply IH. intros x Hx. apply H. right. exact Hx.
Qed.

Lemma dedup_go_nil_seen :
  forall l seen, JS.dedup_go Z.eqb seen l = [] -> forall x, In x l -> In x seen.
Proof.
  induction l as [| y l IH]; intros seen H x Hx; [destruct Hx |].
  cbn in H. destruct (existsb (Z.eqb y) seen) eqn:E; [| discriminate].
  destruct Hx as [<- | Hx]; [apply existsb_Zeqb_In, E | exact (IH _ H _ Hx)].
Qed.

Lemma dedup_go_app :
  forall a seen b,
    List.NoDup a -> (forall x, In x a -> ~ In x seen) ->
    exists seen',
      (forall x, In x seen' <-> In x a \/ In x seen)
      /\ JS.dedup_go Z.eqb seen (a ++ b) = (a ++ JS.dedup_go Z.eqb seen' b)%list.
Proof.
  induction a as [| y a IH]; intros seen b Hnd Hdis.
  - exists seen. split; [intros x; cbn; tauto | reflexivity].
  - inversion Hnd as [| ? ? Hy Hnd']; subst.
    cbn [app JS.dedup_go].
    replace (existsb (Z.eqb y) seen) with false.
    2:{ symmetry. destruct (existsb (Z.eqb y) seen) eqn:E; [| reflexivity].
        apply existsb_Zeqb_In in E. exfalso. apply (Hdis y); [left; reflexivity | exact E]. }
    destruct (IH (y :: seen) b Hnd') as (seen' & Hseen & Heq).
    + intros x Hx [<- | Hs]; [contradiction |]. apply (Hdis x); [right; exact Hx | exact Hs].
    + exists seen'. split.
      * intros x. rewrite Hseen. cbn. intuition.
      * cbn. f_equal. exact Heq.
Qed.

Lemma uniq_app_absorb :
  forall a b, List.NoDup a -> (forall x, In x b -> In x a) ->
              JS.uniq Z.eqb (a ++ b) = a.
Proof.
  intros a b Hnd Hsub. unfold JS.uniq.
  destruct (dedup_go_app a [] b Hnd) as (seen' & Hseen & Heq); [intros x _ [] |].
  rewrite Heq, dedup_go_all_seen, app_nil_r; [reflexivity |].
  intros x Hx. apply Hseen. left. apply Hsub, Hx.
Qed.

Lemma uniq_app_same_length :
  forall a b, List.NoDup a -> length (JS.uniq Z.eqb (a ++ b)) = length a ->
              forall x, In x b -> In x a.
Proof.
  intros a b Hnd Hlen x Hx. unfold JS.uniq in Hlen.
  destruct (dedup_go_app a [] b Hnd) as (seen' & Hseen & Heq); [intros y _ [] |].
  rewrite Heq, length_app in Hlen.
  assert (Hnil : JS.dedup_go Z.eqb seen' b = [])
    by (destruct (JS.dedup_go Z.eqb seen' b); [reflexivity | cbn in Hlen; lia]).
  apply (dedup_go_nil_seen _ _ Hnil) in Hx. apply Hseen in Hx as [Hx | []].
  exact Hx.
Qed.

Lemma complement_filter :
  forall (tags old acc : list Z),
    fold_left (fun acc id => if existsb (Z.eqb id) tags then acc
                             else (acc ++ [id])%list) old acc
    = (acc ++ List.filter (fun id => negb (existsb (Z.eqb id) tags)) old)%list.
Proof.
  intros tags old. induction old as [| y old IH]; intros acc; cbn.
  - symmetry. apply app_nil_r.
  - rewrite IH. destruct (existsb (Z.eqb y) tags); cbn; [reflexivity |].
    rewrite <- app_assoc. reflexivity.
Qed.

Lemma tag_op_target :
  forall (w : World) (p : path) (x : Xstat),
    Underlying.readXstat w p = Done x ->
    x_type x = EFile ->
    exists e, w_disk w !! p = Some e /\ e_type e = EFile
              /\ x = Underlying.xstat_of p e.
Proof.
  intros w p x H Hf. apply readXstat_done in H as (e & He & ->).
  exists e. repeat split; assumption.
Qed.

Lemma SETTAGS_run :
  forall (user : User) (props : Props) (w : World) (dir : Node) (e : Entry),
    check_tags w user (p_tags props) = None ->
    DIR w user props = Done dir ->
    w_disk w !! path_join (absolutePath w dir) (p_name props) = Some e ->
    e_type e = EFile ->
    SETTAGS user props w
    = (Done (Underlying.xstat_of (path_join (absolutePath w dir) (p_name props))
               (retag e (normalize_tags (p_tags props)))),
       set_disk (log_call (Call_updateFileTags
                             (path_join (absolutePath w dir) (p_name props))) w)
                (<[ path_join (absolutePath w dir) (p_name props)
                    := retag e (normalize_tags (p_tags props)) ]> (w_disk w))).
Proof.
  intros user props w dir e Hck Hdir He Hfile.
  unfold SETTAGS. rewrite Hck, Hdir.
  set (target := path_join (absolutePath w dir) (p_name props)) in *.
  assert (Hread : Underlying.readXstat w target = Done (Underlying.xstat_of target e)).
  { unfold Underlying.readXstat. rewrite He, Hfile. reflexivity. }
  rewrite Hread. cbn [Underlying.xstat_of x_type x_uuid].
  replace (EType_eqb (e_type e) EFile) with true by (rewrite Hfile; reflexivity).
  cbn [negb]. apply updateFileTags_run; assumption.
Qed.

Lemma tag_op_started :
  forall (w : World) (user : User) (props : Props) (dir : Node),
    DIR w user props = Done dir ->
    forall (op : User -> Props -> World -> outcome Xstat * World) x w',
      (op = SETTAGS \/ op = ADDTAGS \/ op = REMOVETAGS) ->
      op user props w = (Done x, w') ->
      check_tags w user (p_tags props) = None
      /\ exists e,
          w_disk w !! path_join (absolutePath w dir) (p_name props) = Some e
          /\ e_type e = EFile.
Proof.
  intros w user props dir Hdir op x w' Hop Hrun.
  destruct Hop as [-> | [-> | ->]];
    unfold SETTAGS, ADDTAGS, REMOVETAGS in Hrun;
    (destruct (check_tags w user (p_tags props)) eqn:Hck; [discriminate |]);
    rewrite Hdir in Hrun; cbv zeta in Hrun;
    (destruct (Underlying.readXstat w _) as [xstat | |] eqn:Hstat;
       [| discriminate | discriminate]);
    (destruct (negb (EType_eqb (x_type xstat) EFile)) eqn:Hty; [discriminate |]);
    (assert (Hfile : x_type xstat = EFile)
      by (destruct (x_type xstat); cbn in Hty; congruence));
    destruct (tag_op_target _ _ _ Hstat Hfile) as (e & He & Hef & _);
    (split; [reflexivity | exists e; split; assumption]).
Qed.

(** X4: A successful SETTAGS stores exactly the requested tag ids, without
    duplicates, leaves every other entry on disk as it was, and repeating it
    gives the same answer and the same disk. *)
Theorem SETTAGS_replaces :
  forall (user : User) (props : Props) (w w' : World) (dir : Node) (x : Xstat),
    DIR w user props = Done dir ->
    SETTAGS user props w = (Done x, w') ->
    stored_tags w' (path_join (absolutePath w dir) (p_name props))
      = normalize_tags (p_tags props)
    /\ x_tags x = Some (normalize_tags (p_tags props))
    /\ List.NoDup (normalize_tags (p_tags props))
    /\ (forall id, In id (normalize_tags (p_tags props))
                   <-> In (TInt id) (default [] (p_tags props)))
    /\ (forall q, q <> path_join (absolutePath w dir) (p_name props) ->
                  w_disk w' !! q = w_disk w !! q)
    /\ exists w'', SETTAGS user props w' = (Done x, w'')
                   /\ w_disk w'' = w_disk w'.
Proof.
  intros user props w w' dir x Hdir Hrun.
  destruct (tag_op_started w user props dir Hdir SETTAGS x w'
              ltac:(auto) Hrun) as (Hck & e & He & Hef).
  rewrite (SETTAGS_run user props w dir e Hck Hdir He Hef) in Hrun.
  set (target := path_join (absolutePath w dir) (p_name props)) in *.
  inversion Hrun; subst x w'; clear Hrun.
  split; [| split; [| split; [| split; [| split]]]].
  - unfold stored_tags. cbn. rewrite lookup_insert_eq. reflexivity.
  - reflexivity.
  - apply NoDup_normalize_tags.
  - intros id. apply In_normalize_tags.
  - intros q Hq. cbn. apply lookup_insert_ne. congruence.
  - set (w1 := set_disk _ _).
    assert (Hck1 : check_tags w1 user (p_tags props) = None)
      by (rewrite (check_tags_ext w1 w) by reflexivity; exact Hck).
    assert (Hdir1 : DIR w1 user props = Done dir) by exact Hdir.
    assert (He1 : w_disk w1 !! path_join (absolutePath w1 dir) (p_name props)
                  = Some (retag e (normalize_tags (p_tags props))))
      by apply lookup_insert_eq.
    rewrite (SETTAGS_run user props w1 dir _ Hck1 Hdir1 He1 Hef).
    eexists. split; [reflexivity |].
    cbn. apply insert_insert_eq.
Qed.

Lemma SETTAGS_replaces_witness :
  exists x w',
    SETTAGS Sample.alice
      (Sample.with_tags (Sample.props Sample.home_uuid "a.txt") [3; 1; 3])
      Sample.world = (Done x, w')
    /\ stored_tags w' (path_join (absolutePath Sample.world Sample.home_root)
                                 "a.txt") = [1; 3]
    /\ x_tags x = Some [1; 3].
Proof.
  set (props := Sample.with_tags (Sample.props Sample.home_uuid "a.txt")
                                 [3; 1; 3]).
  assert (Hfst : exists x, fst (SETTAGS Sample.alice props Sample.world) = Done x)
    by (eexists; vm_compute; reflexivity).
  destruct Hfst as (x & Hfst). apply split_run in Hfst.
  exists x, (snd (SETTAGS Sample.alice props Sample.world)).
  split; [exact Hfst |].
  destruct (SETTAGS_replaces Sample.alice props Sample.world _
              Sample.home_root x ltac:(vm_compute; reflexivity) Hfst)
    as (Hstored & Hx & _).
  split.
  - etransitivity; [exact Hstored | vm_compute; reflexivity].
  - etransitivity; [exact Hx | vm_compute; reflexivity].
Defined.

Lemma ADDTAGS_run :
  forall (user : User) (props : Props) (w : World) (dir : Node) (e : Entry),
    check_tags w user (p_tags props) = None ->
    DIR w user props = Done dir ->
    w_disk w !! path_join (absolutePath w dir) (p_name props) = Some e ->
    e_type e = EFile ->
    ADDTAGS user props w
    = let target := path_join (absolutePath w dir) (p_name props) in
      let old := default [] (e_tags e) in
      let new := JS.sort (JS.uniq Z.eqb (old ++ normalize_tags (p_tags props))%list) in
      if (length new =? length old)%nat
      then (Done (Underlying.xstat_of target e), w)
      else (Done (Underlying.xstat_of target (retag e new)),
            set_disk (log_call (Call_updateFileTags target) w)
                     (<[ target := retag e new ]> (w_disk w))).
Proof.
  intros user props w dir e Hck Hdir He Hfile.
  unfold ADDTAGS. rewrite Hck, Hdir. cbv zeta.
  set (target := path_join (absolutePath w dir) (p_name props)) in *.
  assert (Hread : Underlying.readXstat w target = Done (Underlying.xstat_of target e)).
  { unfold Underlying.readXstat. rewrite He, Hfile. reflexivity. }
  rewrite Hread. cbn [Underlying.xstat_of x_type x_uuid x_tags].
  replace (EType_eqb (e_type e) EFile) with true by (rewrite Hfile; reflexivity).
  cbn [negb]. destruct (_ =? _)%nat; [reflexivity |].
  apply updateFileTags_run; assumption.
Qed.

(** X5: Repeating a successful ADDTAGS with the same tags changes nothing more:
    the second call gives the same answer and leaves the state as the first
    call left it. *)
Theorem ADDTAGS_idempotent :
  forall (user : User) (props : Props) (w w1 : World) (dir : Node) (x1 : Xstat),
    DIR w user props = Done dir ->
    ADDTAGS user props w = (Done x1, w1) ->
    ADDTAGS user props w1 = (Done x1, w1).
Proof.
  intros user props w w1 dir x1 Hdir Hrun.
  destruct (tag_op_started w user props dir Hdir ADDTAGS x1 w1
              ltac:(auto) Hrun) as (Hck & e & He & Hef).
  pose proof Hrun as Hrun0.
  rewrite (ADDTAGS_run user props w dir e Hck Hdir He Hef) in Hrun.
  cbv zeta in Hrun.
  set (target := path_join (absolutePath w dir) (p_name props)) in *.
  set (T := normalize_tags (p_tags props)) in *.
  set (new := JS.sort (JS.uniq Z.eqb (default [] (e_tags e) ++ T)%list)) in *.
  destruct (length new =? length (default [] (e_tags e)))%nat eqn:Hlen.
  - inversion Hrun; subst x1 w1. exact Hrun0.
  - inversion Hrun; subst x1 w1; clear Hrun.
    set (w1 := set_disk _ _).
    assert (Hck1 : check_tags w1 user (p_tags props) = None)
      by (rewrite (check_tags_ext w1 w) by reflexivity; exact Hck).
    assert (Hdir1 : DIR w1 user props = Done dir) by exact Hdir.
    assert (He1 : w_disk w1 !! path_join (absolutePath w1 dir) (p_name props)
                  = Some (retag e new)) by apply lookup_insert_eq.
    rewrite (ADDTAGS_run user props w1 dir _ Hck1 Hdir1 He1 Hef). cbv zeta.
    fold T.
    assert (Hnd : List.NoDup new) by apply NoDup_sort, NoDup_dedup_go.
    assert (Hsub : forall id, In id T -> In id new).
    { intros id Hid. unfold new. rewrite In_sort, In_uniq, in_app_iff. auto. }
    change (default [] (e_tags (retag e new))) with new.
    rewrite (uniq_app_absorb new T Hnd Hsub), length_sort, Nat.eqb_refl.
    reflexivity.
Qed.

Lemma ADDTAGS_idempotent_witness :
  exists x1 w1,
    ADDTAGS Sample.alice
      (Sample.with_tags (Sample.props Sample.home_uuid "a.txt") [3])
      Sample.world = (Done x1, w1)
    /\ ADDTAGS Sample.alice
         (Sample.with_tags (Sample.props Sample.home_uuid "a.txt") [3])
         w1 = (Done x1, w1).
Proof.
  set (props := Sample.with_tags (Sample.props Sample.home_uuid "a.txt") [3]).
  assert (Hfst : exists x, fst (ADDTAGS Sample.alice props Sample.world) = Done x)
    by (eexists; vm_compute; reflexivity).
  destruct Hfst as (x1 & Hfst). apply split_run in Hfst.
  exists x1, (snd (ADDTAGS Sample.alice props Sample.world)).
  split; [exact Hfst |].
  exact (ADDTAGS_idempotent Sample.alice props Sample.world _
           Sample.home_root x1 ltac:(vm_compute; reflexivity) Hfst).
Defined.

(** X6: After a successful ADDTAGS on a file whose stored tags had no
    duplicates, the file carries a tag id exactly when it carried it before
    or the id was requested. *)
Theorem ADDTAGS_adds_all :
  forall (user : User) (props : Props) (w w1 : World) (dir : Node) (x1 : Xstat),
    DIR w user props = Done dir ->
    ADDTAGS user props w = (Done x1, w1) ->
    List.NoDup (stored_tags w (path_join (absolutePath w dir) (p_name props))) ->
    forall id,
      In id (stored_tags w1 (path_join (absolutePath w dir) (p_name props)))
      <-> In id (stored_tags w (path_join (absolutePath w dir) (p_name props)))
          \/ In (TInt id) (default [] (p_tags props)).
Proof.
  intros user props w w1 dir x1 Hdir Hrun Hnd id.
  destruct (tag_op_started w user props dir Hdir ADDTAGS x1 w1
              ltac:(auto) Hrun) as (Hck & e & He & Hef).
  rewrite (ADDTAGS_run user props w dir e Hck Hdir He Hef) in Hrun.
  cbv zeta in Hrun.
  set (target := path_join (absolutePath w dir) (p_name props)) in *.
  assert (Hold : stored_tags w target = default [] (e_tags e))
    by (unfold stored_tags; rewrite He; reflexivity).
  rewrite Hold in *. rewrite <- In_normalize_tags.
  set (T := normalize_tags (p_tags props)) in *.
  destruct (_ =? _)%nat eqn:Hlen.
  - inversion Hrun; subst x1 w1. rewrite Hold. split; [auto |].
    intros [Hin | Hin]; [exact Hin |].
    apply Nat.eqb_eq in Hlen. rewrite length_sort in Hlen.
    exact (uniq_app_same_length _ _ Hnd Hlen id Hin).
  - inversion Hrun; subst x1 w1. unfold stored_tags. cbn.
    rewrite lookup_insert_eq. cbn.
    rewrite In_sort, In_uniq, in_app_iff. reflexivity.
Qed.

Lemma ADDTAGS_adds_all_witness :
  exists x1 w1,
    ADDTAGS Sample.alice
      (Sample.with_tags (Sample.props Sample.home_uuid "a.txt") [3; 2])
      Sample.world = (Done x1, w1)
    /\ forall id,
         In id (stored_tags w1
                  (path_join (absolutePath Sample.world Sample.home_root) "a.txt"))
         <-> In id (stored_tags Sample.world
                      (path_join (absolutePath Sample.world Sample.home_root)
                                 "a.txt"))
             \/ In (TInt id) [TInt 3; TInt 2].
Proof.
  set (props := Sample.with_tags (Sample.props Sample.home_uuid "a.txt")
                                 [3; 2]).
  assert (Hfst : exists x, fst (ADDTAGS Sample.alice props Sample.world) = Done x)
    by (eexists; vm_compute; reflexivity).
  destruct Hfst as (x1 & Hfst). apply split_run in Hfst.
  exists x1, (snd (ADDTAGS Sample.alice props Sample.world)).
  split; [exact Hfst |].
  assert (Hstored : stored_tags Sample.world
                      (path_join (absolutePath Sample.world Sample.home_root)
                                 (p_name props)) = [1; 2])
    by (vm_compute; reflexivity).
  assert (Hnd : List.NoDup
                  (stored_tags Sample.world
                     (path_join (absolutePath Sample.world Sample.home_root)
                                (p_name props)))).
  { rewrite Hstored. apply List.NoDup_cons; [| apply List.NoDup_cons;
      [| apply List.NoDup_nil]]; cbn; intuition discriminate. }
  exact (ADDTAGS_adds_all Sample.alice props Sample.world _
           Sample.home_root x1 ltac:(vm_compute; reflexivity) Hfst Hnd).
Defined.

(** X7: A successful REMOVETAGS keeps the stored tags that were not requested,
    in their order, removes every requested one, and touches no other entry
    on disk. *)
Theorem REMOVETAGS_keeps_the_rest :
  forall (user : User) (props : Props) (w w' : World) (dir : Node) (x : Xstat),
    DIR w user props = Done dir ->
    REMOVETAGS user props w = (Done x, w') ->
    stored_tags w' (path_join (absolutePath w dir) (p_name props))
    = List.filter (fun id => negb (existsb (Z.eqb id) (normalize_tags (p_tags props))))
                  (stored_tags w (path_join (absolutePath w dir) (p_name props)))
    /\ (forall id, In (TInt id) (default [] (p_tags props)) ->
                   ~ In id (stored_tags w' (path_join (absolutePath w dir)
                                                      (p_name props))))
    /\ (forall q, q <> path_join (absolutePath w dir) (p_name props) ->
                  w_disk w' !! q = w_disk w !! q).
Proof.
  intros user props w w' dir x Hdir Hrun.
  destruct (tag_op_started w user props dir Hdir REMOVETAGS x w'
              ltac:(auto) Hrun) as (Hck & e & He & Hef).
  set (target := path_join (absolutePath w dir) (p_name props)) in *.
  assert (Hold : stored_tags w target = default [] (e_tags e))
    by (unfold stored_tags; rewrite He; reflexivity).
  assert (Hlist :
            stored_tags w' target
            = List.filter (fun id => negb (existsb (Z.eqb id)
                                             (normalize_tags (p_tags props))))
                          (stored_tags w target)
            /\ forall q, q <> target -> w_disk w' !! q = w_disk w !! q).
  { unfold REMOVETAGS in Hrun. rewrite Hck, Hdir in Hrun. fold target in Hrun.
    assert (Hread : Underlying.readXstat w target
                    = Done (Underlying.xstat_of target e)).
    { unfold Underlying.readXstat. rewrite He, Hef. reflexivity. }
    rewrite Hread in Hrun. cbn [Underlying.xstat_of x_type x_uuid x_tags] in Hrun.
    replace (EType_eqb (e_type e) EFile) with true in Hrun
      by (rewrite Hef; reflexivity).
    cbn [negb] in Hrun. rewrite Hold.
    destruct (e_tags e) as [old |] eqn:Htags.
    - rewrite (updateFileTags_run w target e _ He Hef) in Hrun.
      inversion Hrun; subst x w'. split.
      + unfold stored_tags. cbn. rewrite lookup_insert_eq. cbn.
        apply complement_filter.
      + intros q Hq. cbn. apply lookup_insert_ne. congruence.
    - inversion Hrun; subst x w'. split; [| reflexivity].
      unfold stored_tags. rewrite He, Htags. reflexivity. }
  destruct Hlist as [Hlist Hother].
  split; [exact Hlist |]. split; [| exact Hother].
  intros id Hid Hin. rewrite Hlist in Hin. apply filter_In in Hin as [_ Hneg].
  apply In_normalize_tags in Hid. apply existsb_Zeqb_In in Hid.
  rewrite Hid in Hneg. discriminate.
Qed.

Lemma REMOVETAGS_keeps_the_rest_witness :
  exists x w',
    REMOVETAGS Sample.alice
      (Sample.with_tags (Sample.props Sample.home_uuid "a.txt") [2; 3])
      Sample.world = (Done x, w')
    /\ forall id, In (TInt id) [TInt 2; TInt 3] ->
                  ~ In id (stored_tags w'
                             (path_join (absolutePath Sample.world Sample.home_root)
                                        "a.txt")).
Proof.
  set (props := Sample.with_tags (Sample.props Sample.home_uuid "a.txt")
                                 [2; 3]).
  assert (Hfst : exists x, fst (REMOVETAGS Sample.alice props Sample.world) = Done x)
    by (eexists; vm_compute; reflexivity).
  destruct Hfst as (x & Hfst). apply split_run in Hfst.
  exists x, (snd (REMOVETAGS Sample.alice props Sample.world)).
  split; [exact Hfst |].
  destruct (REMOVETAGS_keeps_the_rest Sample.alice props Sample.world _
              Sample.home_root x ltac:(vm_compute; reflexivity) Hfst)
    as (_ & Hgone & _).
  exact Hgone.
Defined.

Lemma check_tag_ids_unknown :
  forall (w : World) (user : User) (ids : list Z) (id : Z),
    In id ids -> find_tag w user id = None ->
    exists e, check_tag_ids w user ids = Some e.
Proof.
  intros w user ids id. induction ids as [| y ids IH]; intros Hin Hnone;
    [destruct Hin |].
  cbn. destruct (find_tag w user y) as [tag |] eqn:Hy; [| eauto].
  destruct (negb _); [eauto |].
  destruct Hin as [-> | Hin]; [congruence |]. exact (IH Hin Hnone).
Qed.

(** X3: ADDTAGS, REMOVETAGS and SETTAGS refuse with status 400, changing
    nothing, as soon as one requested tag id has no live tag created by the
    calling user. *)
Theorem tag_operations_reject_foreign_tags :
  forall (user : User) (props : Props) (w : World) (l : list TagVal) (id : Z),
    p_tags props = Some l ->
    In (TInt id) l ->
    (forall t, In t (w_tags w) -> t_id t = id ->
               t_creator t <> u_uuid user \/ t_deleted t = true) ->
    exists e,
      status e = Some 400
      /\ ADDTAGS user props w = (Failed e, w)
      /\ REMOVETAGS user props w = (Failed e, w)
      /\ SETTAGS user props w = (Failed e, w).
Proof.
  intros user props w l id Htags Hin Hforeign.
  assert (Hnone : find_tag w user id = None).
  { unfold find_tag. destruct (find _ (w_tags w)) as [t |] eqn:Hf; [| reflexivity].
    apply find_some in Hf as [Ht Hp].
    apply andb_prop in Hp as [Hp Hdel]. apply andb_prop in Hp as [Hid Hcr].
    apply Z.eqb_eq in Hid. apply String.eqb_eq in Hcr.
    apply negb_true_iff in Hdel.
    destruct (Hforeign t Ht Hid) as [Hc | Hd]; congruence. }
  assert (Hck : exists e, check_tags w user (p_tags props) = Some e
                          /\ status e = Some 400).
  { unfold check_tags. rewrite Htags.
    destruct ((length l =? 0)%nat || negb (forallb valid_tag_value l));
      [eexists; split; reflexivity |].
    destruct (check_tag_ids_unknown w user (tag_ids l) id) as (e & He);
      [apply In_tag_ids; exact Hin | exact Hnone |].
    rewrite He. eexists; split; reflexivity. }
  destruct Hck as (e & Hck & Hst). exists e. split; [exact Hst |].
  unfold ADDTAGS, REMOVETAGS, SETTAGS. rewrite Hck. auto.
Qed.

Lemma tag_operations_reject_foreign_tags_witness :
  exists e,
    status e = Some 400
    /\ ADDTAGS Sample.bob
         (Sample.with_tags (Sample.props Sample.home_uuid "a.txt") [1])
         Sample.world = (Failed e, Sample.world)
    /\ REMOVETAGS Sample.bob
         (Sample.with_tags (Sample.props Sample.home_uuid "a.txt") [1])
         Sample.world = (Failed e, Sample.world)
    /\ SETTAGS Sample.bob
         (Sample.with_tags (Sample.props Sample.home_uuid "a.txt") [1])
         Sample.world = (Failed e, Sample.world).
Proof.
  apply (tag_operations_reject_foreign_tags Sample.bob
           (Sample.with_tags (Sample.props Sample.home_uuid "a.txt") [1])
           Sample.world [TInt 1] 1 eq_refl).
  - left. reflexivity.
  - intros t Hin Hid. left. cbn in Hin.
    destruct Hin as [<- | [<- | [<- | []]]]; vm_compute; discriminate.
Defined.

(** ** APPEND: the upload, the race and the content *)

Lemma TMPFILE_outside_drives :
  forall (w : World) (dir : Node) (name : string),
    fst (TMPFILE w) <> path_join (absolutePath w dir) name.
Proof.
  intros w dir name H. unfold TMPFILE, absolutePath, path_join, tmpDir, driveDir,
    path_join in H. cbn [fst] in H.
  rewrite <- !app_assoc in H. apply app_inv_head in H. cbn in H. discriminate.
Qed.





Lemma gather_pair_inv :
  forall (d : gmap path Entry) (a b : path) (l : list Extent),
    Underlying.gather d [a; b] = Some l ->
    exists ea eb, d !! a = Some ea /\ d !! b = Some eb
                  /\ l = (e_content ea ++ e_content eb)%list.
Proof.
  intros d a b l H. cbn in H.
  destruct (d !! a) as [ea |]; [| discriminate].
  destruct (d !! b) as [eb |]; [| destruct (e_type ea); discriminate].
  destruct (e_type ea); try discriminate.
  destruct (e_type eb); try discriminate.
  inversion H. exists ea, eb. rewrite app_nil_r. auto.
Qed.

Lemma extents_size_app :
  forall a b, extents_size (a ++ b) = extents_size a + extents_size b.
Proof.
  intros a b. induction a as [| y a IH]; [reflexivity |].
  change (ext_size y + extents_size (a ++ b)
          = ext_size y + extents_size a + extents_size b).
  rewrite IH. lia.
Qed.



(** X10: Without a concurrent writer, a successful APPEND leaves at the target a
    file with the same uuid whose content is the old content followed by the
    uploaded data, reports the sum of the sizes, and leaves neither the
    upload nor the temporary file behind. *)
Theorem APPEND_appends_content :
  forall SHA256 concurrent (user : User) (props : Props) (w w' : World)
         (dir : Node) (x : Xstat) (data : path),
    (forall w0, concurrent w0 = w0) ->
    DIR w user props = Done dir ->
    p_data props = Some data ->
    APPEND SHA256 concurrent user props w = (Done x, w') ->
    exists e_old e_data e_new,
      w_disk w !! path_join (absolutePath w dir) (p_name props) = Some e_old
      /\ w_disk w !! data = Some e_data
      /\ w_disk w' !! path_join (absolutePath w dir) (p_name props) = Some e_new
      /\ e_content e_new = (e_content e_old ++ e_content e_data)%list
      /\ e_uuid e_new = e_uuid e_old
      /\ e_type e_new = EFile
      /\ x_size x = extents_size (e_content e_old) + extents_size (e_content e_data)
      /\ w_disk w' !! data = None
      /\ w_disk w' !! fst (TMPFILE w) = None.
Proof.
  intros SHA256 concurrent user props w w' dir x data Hquiet Hdir Hdata Hrun.
  set (target := path_join (absolutePath w dir) (p_name props)) in *.
  pose proof (TMPFILE_outside_drives w dir (p_name props)) as Htmp.
  fold target in Htmp.
  unfold APPEND in Hrun. rewrite Hdir in Hrun. cbv zeta in Hrun.
  fold target in Hrun.
  destruct (Underlying.readXstat w target) as [xstat | |] eqn:Hstat;
    [| unfold cb in Hrun; discriminate | discriminate].
  destruct (readXstat_done _ _ _ Hstat) as (e0 & He0 & Hx).
  destruct (negb (EType_eqb (x_type xstat) EFile)); [unfold cb in Hrun; discriminate |].
  destruct (negb (Z.rem (x_size xstat) GiB =? 0)); [unfold cb in Hrun; discriminate |].
  destruct (negb (opt_string_eqb (x_hash xstat) (p_hash props)));
    [unfold cb in Hrun; discriminate |].
  rewrite Hdata in Hrun. cbn [default from_option id] in Hrun.
  unfold TMPFILE in Hrun, Htmp |- *. cbn [fst] in Htmp |- *.
  set (tmp := path_join (tmpDir w) _) in *.
  unfold Underlying.btrfsConcat in Hrun. cbn [w_disk log_call] in Hrun.
  destruct (Underlying.gather _ _) as [l |] eqn:Hg;
    [| unfold cb in Hrun; discriminate].
  destruct (gather_pair_inv _ _ _ _ Hg) as (ea & eb & Ha & Hb & ->).
  pose proof (eq_trans (eq_sym Ha) He0) as Hee. inversion Hee; subst ea.
  clear Hee Ha.
  rewrite Hquiet in Hrun.
  unfold Underlying.lstat_mtime in Hrun. cbn [w_disk Underlying.rimraf set_text set_disk log_call] in Hrun.
  destruct (decide (data = target)) as [Heq | Hdt].
  { subst data. rewrite lookup_delete_eq in Hrun. unfold cb in Hrun. discriminate. }
  rewrite lookup_delete_ne in Hrun by exact Hdt.
  rewrite lookup_insert_ne in Hrun by exact Htmp.
  rewrite He0 in Hrun.
  destruct (negb (e_mtime e0 =? x_mtime xstat)); [unfold cb in Hrun; discriminate |].
  destruct (if x_size xstat =? 0 then _ else _) as [newhash | |];
    [| unfold cb in Hrun; discriminate | discriminate].
  unfold Underlying.forceXstat in Hrun.
  cbn [w_disk Underlying.rimraf set_text set_disk log_call] in Hrun.
  destruct (decide (data = tmp)) as [Heq | Hdtmp].
  { subst data. rewrite lookup_delete_eq in Hrun. unfold cb in Hrun. discriminate. }
  rewrite lookup_delete_ne, lookup_insert_eq in Hrun by exact Hdtmp.
  unfold Underlying.rename in Hrun.
  cbn [w_disk set_disk log_call] in Hrun. rewrite lookup_insert_eq in Hrun.
  unfold cb, discard_data in Hrun. rewrite Hdata in Hrun.
  inversion Hrun; subst x w'; clear Hrun.
  eexists e0, eb, _. cbn.
  split; [exact He0 |]. split; [exact Hb |].
  split; [rewrite lookup_delete_ne, lookup_insert_eq by exact Hdt; reflexivity |].
  cbn. repeat split.
  - rewrite Hx. reflexivity.
  - apply extents_size_app.
  - apply lookup_delete_eq.
  - rewrite lookup_delete_ne by congruence.
    rewrite lookup_insert_ne by congruence.
    rewrite lookup_delete_eq. reflexivity.
Qed.

Lemma APPEND_appends_content_witness :
  exists x e_old e_data e_new,
    fst (APPEND Sample.digest Sample.quiet Sample.alice
           (Sample.append_props "big.bin" (Some Sample.hash_a)
                                (Some Sample.hash_b)) Sample.world) = Done x
    /\ w_disk Sample.world !! path_join Sample.home_path "big.bin" = Some e_old
    /\ w_disk Sample.world !! Sample.upload = Some e_data
    /\ w_disk (snd (APPEND Sample.digest Sample.quiet Sample.alice
                      (Sample.append_props "big.bin" (Some Sample.hash_a)
                                           (Some Sample.hash_b)) Sample.world))
         !! path_join Sample.home_path "big.bin" = Some e_new
    /\ e_content e_new = (e_content e_old ++ e_content e_data)%list.
Proof.
  set (props := Sample.append_props "big.bin" (Some Sample.hash_a)
                                    (Some Sample.hash_b)).
  assert (Hfst : exists x,
             fst (APPEND Sample.digest Sample.quiet Sample.alice props
                    Sample.world) = Done x)
    by (eexists; vm_compute; reflexivity).
  destruct Hfst as (x & Hfst).
  destruct (APPEND_appends_content Sample.digest Sample.quiet Sample.alice
              props Sample.world _ Sample.home_root x Sample.upload
              ltac:(reflexivity) ltac:(vm_compute; reflexivity) eq_refl
              (split_run _ _ Hfst))
    as (e_old & e_data & e_new & Hold & Hdata & Hnew & Hcontent & _).
  exists x, e_old, e_data, e_new. auto.
Defined.

(** ** QUERY leaves the store alone *)

Lemma same_store_refl : forall w, same_store w w.
Proof. intros w. repeat split. Qed.

Lemma iterateList_same_store :
  forall stringify (user : User) (a : ListArgs) (w w' : World) r,
    iterateList stringify user a w = (r, w') -> same_store w w'.
Proof.
  intros stringify user a w w' r H. unfold iterateList in H. cbn [TMPFILE] in H.
  destruct (bool_decide (la_countOnly a = Some true)); inversion H; subst;
    repeat split. 
  intros q Hq. cbn. apply lookup_insert_ne. cbn in Hq. congruence.
Qed.

(** X11: Whatever QUERY answers, it leaves the disk, the index, the drives and
    the tags as they were; the only text file it may write is the temporary
    result file. *)
Theorem QUERY_read_only :
  forall isUUID stringify iterate_from path_normalize
         (user : User) (props : QueryProps) (w w' : World) (r : outcome QResult),
    QUERY isUUID stringify iterate_from path_normalize user props w = (r, w') ->
    w_disk w' = w_disk w /\ w_uuidMap w' = w_uuidMap w
    /\ w_timedFiles w' = w_timedFiles w /\ w_drives w' = w_drives w
    /\ w_tags w' = w_tags w
    /\ forall q, q <> fst (TMPFILE w) -> w_text w' !! q = w_text w !! q.
Proof.
  intros isUUID stringify iterate_from path_normalize user props w w' r H.
  change (same_store w w').
  unfold QUERY in H.
  repeat match type of H with
         | iterateList _ _ _ _ = _ => exact (iterateList_same_store _ _ _ _ _ _ H)
         | (_, w) = _ => inversion H; subst; apply same_store_refl
         | (let _ := _ in _) = _ => cbv zeta in H
         | match ?c with _ => _ end = _ => destruct c
         | (if ?c then _ else _) = _ => destruct c
         end.
Qed.

Lemma QUERY_read_only_witness :
  w_disk (snd (QUERY Sample.isUUID Sample.stringify Sample.no_walk id
                 Sample.alice (Sample.query Sample.home_uuid (Some "2"))
                 Sample.world)) = w_disk Sample.world
  /\ w_uuidMap (snd (QUERY Sample.isUUID Sample.stringify Sample.no_walk id
                       Sample.alice (Sample.query Sample.home_uuid (Some "2"))
                       Sample.world)) = w_uuidMap Sample.world.
Proof.
  destruct (QUERY_read_only Sample.isUUID Sample.stringify Sample.no_walk id
              Sample.alice (Sample.query Sample.home_uuid (Some "2"))
              Sample.world _ _ (surjective_pairing _))
    as (Hdisk & Hmap & _).
  split; [exact Hdisk | exact Hmap].
Defined.





(** ** Counting and grouping *)

Lemma match_file_count :
  forall stringify (a : ListArgs) (f : Node) (s : Acc),
    la_countOnly a = Some true ->
    match_file stringify a f s
    = if passes a f then
        {| findCounter := findCounter s + 1;
           results_n := if la_groupBy a then results_n s else results_n s + 1;
           results_groups := if la_groupBy a
                             then add_group (place_key a f) (results_groups s)
                             else results_groups s;
           writeComma := writeComma s;
           written := written s |}
      else s.
Proof.
  intros stringify a f s Hco. unfold match_file, passes, place_key, add_group.
  destruct (name_filter _ _); [| reflexivity].
  destruct (types_filter _ _); [| reflexivity].
  destruct (tags_filter _ _); [| reflexivity].
  destruct (place_index _ _) as [index |]; [| reflexivity].
  cbn. rewrite bool_decide_eq_true_2 by exact Hco.
  destruct (la_groupBy a); reflexivity.
Qed.

Lemma scan_count :
  forall stringify (a : ListArgs),
    la_countOnly a = Some true ->
    forall (l : list Node) (s : Acc),
      results_n (scan stringify a l s)
      = (if la_groupBy a then results_n s
         else results_n s + Z.of_nat (length (scan_hits a l (findCounter s))))
      /\ results_groups (scan stringify a l s)
         = (if la_groupBy a
            then tally (map (place_key a) (scan_hits a l (findCounter s)))
                       (results_groups s)
            else results_groups s).
Proof.
  intros stringify a Hco. induction l as [| f r IH]; intros s.
  - cbn. destruct (la_groupBy a); split; try reflexivity; lia.
  - cbn [scan scan_hits]. rewrite (match_file_count _ _ _ _ Hco).
    destruct (passes a f); rewrite count_reached_eq.
    + cbn [findCounter]. destruct (reached a (findCounter s + 1)).
      * cbn. destruct (la_groupBy a); split; try reflexivity; lia.
      * destruct (IH {| findCounter := findCounter s + 1;
                        results_n := if la_groupBy a then results_n s
                                     else results_n s + 1;
                        results_groups :=
                          if la_groupBy a
                          then add_group (place_key a f) (results_groups s)
                          else results_groups s;
                        writeComma := writeComma s;
                        written := written s |}) as [Hn Hg].
        rewrite Hn, Hg. cbn [findCounter results_n results_groups].
        destruct (la_groupBy a); split; try reflexivity.
        cbn [length]. lia.
    + destruct (reached a (findCounter s)).
      * cbn. destruct (la_groupBy a); split; try reflexivity; lia.
      * apply IH.
Qed.

Lemma scan_hits_bound :
  forall (a : ListArgs) (n : Z),
    la_count a = Some n -> 0 < n ->
    forall l, Z.of_nat (length (scan_hits a l 0)) <= n.
Proof.
  intros a n Hn Hpos l. rewrite (scan_hits_take a n Hn) by lia.
  rewrite length_take. lia.
Qed.

(** X13: With countOnly and no grouping, iterateList answers the number of
    visited files that pass the filters; the number never exceeds a positive
    count, and without a count it is the number of all matching files. *)
Theorem countOnly_counts_matches :
  forall stringify (user : User) (a : ListArgs) (w : World),
    la_countOnly a = Some true ->
    la_groupBy a = false ->
    iterateList stringify user a w
    = (Done (QCount (Z.of_nat (length (scan_hits a (visit_order a (w_timedFiles w)) 0)))),
       snd (TMPFILE w))
    /\ (forall n, la_count a = Some n -> 0 < n ->
                  Z.of_nat (length (scan_hits a (visit_order a (w_timedFiles w)) 0))
                  <= n)
    /\ (la_count a = None ->
        scan_hits a (visit_order a (w_timedFiles w)) 0
        = List.filter (passes a) (visit_order a (w_timedFiles w))).
Proof.
  intros stringify user a w Hco Hg. split; [| split].
  - unfold iterateList. rewrite bool_decide_eq_true_2 by exact Hco.
    cbn [TMPFILE snd]. rewrite Hg.
    destruct (scan_count stringify a Hco (visit_order a (w_timedFiles w))
                {| findCounter := 0; results_n := 0; results_groups := [];
                   writeComma := false; written := EmptyString |}) as [Hn _].
    rewrite Hn, Hg. reflexivity.
  - intros n Hn Hpos. apply scan_hits_bound; assumption.
  - intros Hnone. generalize 0.
    induction (visit_order a (w_timedFiles w)) as [| f r IH]; intros c;
      [reflexivity |].
    cbn [scan_hits List.filter]. unfold reached. rewrite Hnone.
    destruct (passes a f); rewrite IH; reflexivity.
Qed.

Lemma countOnly_counts_matches_witness :
  exists n,
    iterateList Sample.stringify Sample.alice
      (Cases.listing Oldest None None [Sample.home_uuid] (Some true) false)
      Sample.world
    = (Done (QCount n), snd (TMPFILE Sample.world))
    /\ n = 3.
Proof.
  destruct (countOnly_counts_matches Sample.stringify Sample.alice
              (Cases.listing Oldest None None [Sample.home_uuid] (Some true)
                             false)
              Sample.world eq_refl eq_refl) as (Hrun & _).
  eexists. split; [exact Hrun | vm_compute; reflexivity].
Defined.

Lemma add_group_cons_other :
  forall k' k0 c r, String.eqb k0 k' = false ->
                    add_group k' ((k0, c) :: r) = (k0, c) :: add_group k' r.
Proof.
  intros k' k0 c r Hne. unfold add_group. cbn [bump_group]. rewrite Hne.
  destruct (bump_group k' r); reflexivity.
Qed.

Lemma add_group_cons_same :
  forall k' k0 c r, String.eqb k0 k' = true ->
                    add_group k' ((k0, c) :: r) = (k0, c + 1) :: r.
Proof.
  intros k' k0 c r He. unfold add_group. cbn [bump_group]. rewrite He. reflexivity.
Qed.

Lemma group_count_add :
  forall k k' l,
    group_count k (add_group k' l)
    = group_count k l + (if String.eqb k k' then 1 else 0).
Proof.
  intros k k'. induction l as [| [k0 c] r IH].
  - unfold add_group, group_count. cbn. rewrite (String.eqb_sym k' k).
    destruct (String.eqb k k'); reflexivity.
  - destruct (String.eqb k0 k') eqn:E0.
    + rewrite add_group_cons_same by exact E0. unfold group_count. cbn.
      apply String.eqb_eq in E0. subst k0. rewrite (String.eqb_sym k' k).
      destruct (String.eqb k k'); cbn; lia.
    + rewrite add_group_cons_other by exact E0. unfold group_count in *. cbn.
      destruct (String.eqb k0 k) eqn:E1.
      * apply String.eqb_eq in E1. subst k0. rewrite E0. cbn. lia.
      * exact IH.
Qed.

Lemma In_add_group :
  forall k k' l, In k (map fst (add_group k' l)) <-> k = k' \/ In k (map fst l).
Proof.
  intros k k'. induction l as [| [k0 c] r IH].
  - unfold add_group. cbn. intuition.
  - destruct (String.eqb k0 k') eqn:E0.
    + rewrite add_group_cons_same by exact E0. apply String.eqb_eq in E0. subst.
      cbn. intuition.
    + rewrite add_group_cons_other by exact E0. cbn. rewrite IH. intuition.
Qed.

Lemma NoDup_add_group :
  forall k' l, List.NoDup (map fst l) -> List.NoDup (map fst (add_group k' l)).
Proof.
  intros k'. induction l as [| [k0 c] r IH]; intros Hnd.
  - unfold add_group. cbn. apply List.NoDup_cons; [intros [] | apply List.NoDup_nil].
  - cbn in Hnd. inversion Hnd as [| ? ? Hk Hr]; subst.
    destruct (String.eqb k0 k') eqn:E0.
    + rewrite add_group_cons_same by exact E0. cbn. exact Hnd.
    + rewrite add_group_cons_other by exact E0. cbn.
      apply List.NoDup_cons; [| exact (IH Hr)].
      rewrite In_add_group. intros [-> | Hin]; [| contradiction].
      rewrite String.eqb_refl in E0. discriminate.
Qed.

Lemma tally_spec :
  forall keys l,
    List.NoDup (map fst l) ->
    List.NoDup (map fst (tally keys l))
    /\ (forall k, group_count k (tally keys l)
                  = group_count k l + occurrences k keys)
    /\ (forall k, In k (map fst (tally keys l)) <-> In k keys \/ In k (map fst l)).
Proof.
  induction keys as [| k' keys IH]; intros l Hnd.
  - cbn. repeat split; try assumption; try tauto.
    unfold occurrences. cbn. lia.
  - cbn [tally fold_left]. fold (tally keys (add_group k' l)).
    destruct (IH (add_group k' l) (NoDup_add_group k' l Hnd)) as (H1 & H2 & H3).
    split; [exact H1 |]. split.
    + intros k. rewrite H2, group_count_add. unfold occurrences.
      cbn [List.filter]. destruct (String.eqb k k'); cbn [length]; lia.
    + intros k. rewrite H3, In_add_group. cbn. intuition.
Qed.

Lemma findIndex_spec :
  forall {A} (p : A -> bool) (l : list A) (i : nat) (d : A),
    JS.findIndex p l = Some i ->
    (i < length l)%nat /\ p (nth i l d) = true
    /\ forall j, (j < i)%nat -> p (nth j l d) = false.
Proof.
  intros A p. induction l as [| x l IH]; intros i d H; [discriminate |].
  cbn in H. destruct (p x) eqn:Hx.
  - inversion H; subst. cbn. repeat split; [lia | exact Hx | lia].
  - destruct (JS.findIndex p l) as [i' |] eqn:Hf; [| discriminate].
    inversion H; subst. destruct (IH i' d eq_refl) as (Hlt & Hp & Hmin).
    cbn. repeat split; [lia | exact Hp |].
    intros [| j] Hj; [exact Hx | apply Hmin; lia].
Qed.

Lemma scan_hits_pass :
  forall (a : ListArgs) (l : list Node) (c : Z) (f : Node),
    In f (scan_hits a l c) -> passes a f = true /\ In f l.
Proof.
  intros a. induction l as [| g r IH]; intros c f H; [destruct H |].
  cbn [scan_hits] in H. destruct (passes a g) eqn:Hg.
  - destruct H as [<- | H]; [split; [exact Hg | left; reflexivity] |].
    destruct (reached a (c + 1)); [destruct H |].
    destruct (IH _ _ H). split; [assumption | right; assumption].
  - destruct (reached a c); [destruct H |].
    destruct (IH _ _ H). split; [assumption | right; assumption].
Qed.

Lemma passes_place :
  forall (a : ListArgs) (f : Node),
    passes a f = true ->
    exists i, place_index (la_places a) f = Some i.
Proof.
  intros a f H. unfold passes in H. apply andb_prop in H as [_ H].
  destruct (place_index (la_places a) f) as [i |]; [eauto | discriminate].
Qed.

(** X14: With countOnly and groupBy place, iterateList answers one group per
    place that has matches, each place at most once, and the count of a
    group is the number of matched files attributed to that place. *)
Theorem groupBy_place_counts :
  forall stringify (user : User) (a : ListArgs) (w : World),
    la_countOnly a = Some true ->
    la_groupBy a = true ->
    exists groups,
      iterateList stringify user a w = (Done (QGroups groups), snd (TMPFILE w))
      /\ List.NoDup (map fst groups)
      /\ (forall key, In key (map fst groups) -> In key (la_places a))
      /\ (forall key,
            group_count key groups
            = occurrences key
                (map (place_key a)
                     (scan_hits a (visit_order a (w_timedFiles w)) 0))).
Proof.
  intros stringify user a w Hco Hg.
  set (hits := scan_hits a (visit_order a (w_timedFiles w)) 0).
  destruct (tally_spec (map (place_key a) hits) [] (List.NoDup_nil _))
    as (Hnd & Hcount & Hkeys).
  exists (tally (map (place_key a) hits) []).
  split; [| split; [exact Hnd | split]].
  - unfold iterateList. rewrite bool_decide_eq_true_2 by exact Hco.
    cbn [TMPFILE snd]. rewrite Hg.
    destruct (scan_count stringify a Hco (visit_order a (w_timedFiles w))
                {| findCounter := 0; results_n := 0; results_groups := [];
                   writeComma := false; written := EmptyString |}) as [_ Hgr].
    rewrite Hgr, Hg. reflexivity.
  - intros key Hin. apply Hkeys in Hin as [Hin | []].
    apply in_map_iff in Hin as (f & <- & Hf).
    apply scan_hits_pass in Hf as [Hp _].
    destruct (passes_place a f Hp) as (i & Hi).
    unfold place_key. rewrite Hi. cbn.
    unfold place_index in Hi.
    destruct (findIndex_spec _ _ _ EmptyString Hi) as (Hlt & _ & _).
    apply nth_In. exact Hlt.
  - intros key. rewrite Hcount. unfold group_count. cbn. lia.
Qed.

Lemma groupBy_place_counts_witness :
  exists groups,
    iterateList Sample.stringify Sample.alice
      (Cases.listing Oldest None None [Sample.docs_uuid; Sample.home_uuid]
                     (Some true) true)
      Sample.world
    = (Done (QGroups groups), snd (TMPFILE Sample.world))
    /\ group_count Sample.docs_uuid groups = 2
    /\ group_count Sample.home_uuid groups = 1.
Proof.
  destruct (groupBy_place_counts Sample.stringify Sample.alice
              (Cases.listing Oldest None None
                             [Sample.docs_uuid; Sample.home_uuid]
                             (Some true) true)
              Sample.world eq_refl eq_refl)
    as (groups & Hrun & _ & _ & Hcount).
  exists groups. split; [exact Hrun |]. split.
  - etransitivity; [apply Hcount | vm_compute; reflexivity].
  - etransitivity; [apply Hcount | vm_compute; reflexivity].
Defined.

(** ** Cursors and pages *)

Lemma string_ltb_irrefl : forall s, String.ltb s s = false.
Proof.
  intros s. unfold String.ltb.
  pose proof (String.compare_antisym s s) as H.
  destruct (String.compare s s); [reflexivity | discriminate | reflexivity].
Qed.

Lemma key_ltb_irrefl : forall t u, key_ltb t u t u = false.
Proof.
  intros t u. unfold key_ltb. rewrite Z.ltb_irrefl, string_ltb_irrefl.
  destruct (t =? t); reflexivity.
Qed.

Lemma indexOfByKey_at :
  forall (files : list Node) (i : nat) (f : Node),
    StronglySorted key_lt files ->
    files !! i = Some f ->
    indexOfByKey files (getTime f) (n_uuid f) = i.
Proof.
  induction files as [| g r IH]; intros i f Hs Hi; [discriminate |].
  inversion Hs as [| ? ? Hr Hall]; subst.
  destruct i as [| j]; cbn in Hi.
  - inversion Hi; subst g. cbn. rewrite key_ltb_irrefl. reflexivity.
  - cbn. rewrite Forall_forall in Hall.
    assert (Hlt : key_lt g f) by (apply Hall, list_elem_of_lookup; eauto).
    unfold key_lt in Hlt. rewrite Hlt. f_equal. exact (IH _ _ Hr Hi).
Qed.

Lemma visit_order_after_cursor :
  forall (a : ListArgs) (files : list Node) (i : nat) (f : Node),
    StronglySorted key_lt files ->
    files !! i = Some f ->
    la_start a = Some (getTime f, n_uuid f, true) ->
    visit_order a files
    = match la_order a with
      | Newest => rev (take i files)
      | _ => drop (S i) files
      end.
Proof.
  intros a files i f Hs Hi Hstart. unfold visit_order. rewrite Hstart.
  rewrite (indexOfByKey_at files i f Hs Hi).
  assert (Hlt : (i < length files)%nat) by (apply lookup_lt_Some in Hi; exact Hi).
  assert (Hat : at_key files i (getTime f) (n_uuid f) = true).
  { unfold at_key. rewrite Hi, Z.eqb_refl, String.eqb_refl. reflexivity. }
  rewrite Hat.
  replace (i =? length files)%nat with false by (symmetry; apply Nat.eqb_neq; lia).
  replace (i <? length files)%nat with true by (symmetry; apply Nat.ltb_lt; lia).
  cbn [andb].
  replace (Z.to_nat (Z.of_nat i - 1 + 1)) with i by lia.
  destruct (la_order a); reflexivity.
Qed.

(** X15: With a sorted index and an exclusive start cursor that names an indexed
    file, the chronological listing resumes strictly after that file: with
    the older files, newest first, for order newest, and with the newer
    files otherwise. *)
Theorem exclusive_cursor_resumes_after_file :
  forall stringify (user : User) (a : ListArgs) (w : World) (i : nat) (f : Node),
    StronglySorted key_lt (w_timedFiles w) ->
    w_timedFiles w !! i = Some f ->
    la_start a = Some (getTime f, n_uuid f, true) ->
    la_countOnly a <> Some true ->
    exists w',
      iterateList stringify user a w = (Done (QFile (fst (TMPFILE w))), w')
      /\ w_text w' !! fst (TMPFILE w)
         = Some (render stringify
                   (map (record_of a)
                        (scan_hits a
                           (match la_order a with
                            | Newest => rev (take i (w_timedFiles w))
                            | _ => drop (S i) (w_timedFiles w)
                            end) 0))).
Proof.
  intros stringify user a w i f Hs Hi Hstart Hco.
  destruct (iterateList_file stringify user a w Hco) as (w' & Hrun & Htext).
  exists w'. split; [exact Hrun |].
  rewrite Htext, (visit_order_after_cursor a _ i f Hs Hi Hstart). reflexivity.
Qed.

Lemma exclusive_cursor_resumes_after_file_witness :
  exists w',
    iterateList Sample.stringify Sample.alice
      (Cases.listing Oldest
         (Some (getTime Sample.b_txt, n_uuid Sample.b_txt, true)) None
         [Sample.home_uuid] None false)
      Sample.world
    = (Done (QFile (fst (TMPFILE Sample.world))), w')
    /\ w_text w' !! fst (TMPFILE Sample.world)
       = Some "[{name:c.txt}]".
Proof.
  set (a := Cases.listing Oldest
              (Some (getTime Sample.b_txt, n_uuid Sample.b_txt, true)) None
              [Sample.home_uuid] None false).
  assert (Hsorted : StronglySorted key_lt (w_timedFiles Sample.world))
    by (repeat constructor; vm_compute; reflexivity).
  destruct (exclusive_cursor_resumes_after_file Sample.stringify Sample.alice
              a Sample.world 1 Sample.b_txt Hsorted eq_refl eq_refl
              ltac:(discriminate)) as (w' & Hrun & Htext).
  exists w'. split; [exact Hrun |].
  etransitivity; [exact Htext | vm_compute; reflexivity].
Defined.

Lemma key_lt_irrefl : forall f, ~ key_lt f f.
Proof. intros f H. unfold key_lt in H. rewrite key_ltb_irrefl in H. discriminate. Qed.

Lemma sorted_NoDup :
  forall files, StronglySorted key_lt files -> List.NoDup files.
Proof.
  intros files Hs. induction Hs as [| g r Hr IH Hall].
  - apply List.NoDup_nil.
  - apply List.NoDup_cons; [| exact IH].
    intros Hin. rewrite Forall_forall in Hall.
    apply (key_lt_irrefl g), Hall, list_elem_of_In, Hin.
Qed.

Lemma NoDup_filter_bool :
  forall {A} (p : A -> bool) (l : list A), List.NoDup l -> List.NoDup (List.filter p l).
Proof.
  intros A p l H. induction H as [| x l Hx Hl IH]; cbn; [apply List.NoDup_nil |].
  destruct (p x); [| exact IH]. apply List.NoDup_cons; [| exact IH].
  intros Hin. apply filter_In in Hin as [Hin _]. contradiction.
Qed.

Lemma unique_split :
  forall {A} (x : A) (a a' b b' : list A),
    List.NoDup (a ++ x :: b) ->
    (a ++ x :: b = a' ++ x :: b')%list ->
    a = a' /\ b = b'.
Proof.
  intros A x. induction a as [| y a IH]; intros a' b b' Hnd Heq.
  - destruct a' as [| y' a'].
    + cbn in Heq. inversion Heq. auto.
    + cbn in Heq. inversion Heq; subst. exfalso.
      cbn in Hnd. inversion Hnd as [| ? ? Hx _]; subst.
      apply Hx. apply in_app_iff. right. left. reflexivity.
  - destruct a' as [| y' a'].
    + cbn in Heq. inversion Heq; subst. exfalso.
      cbn in Hnd. inversion Hnd as [| ? ? Hx _]; subst.
      apply Hx. apply in_app_iff. right. left. reflexivity.
    + cbn in Heq. inversion Heq; subst. cbn in Hnd.
      inversion Hnd as [| ? ? _ Hnd']; subst.
      destruct (IH a' b b' Hnd' H1) as [-> ->]. auto.
Qed.

Lemma filter_after :
  forall (p : Node -> bool) (files : list Node) (i : nat) (f : Node)
         (before after : list Node),
    List.NoDup files ->
    files !! i = Some f ->
    List.filter p files = (before ++ f :: after)%list ->
    List.filter p (drop (S i) files) = after.
Proof.
  intros p files i f before after Hnd Hi Hfil.
  assert (Hsplit : files = (take i files ++ f :: drop (S i) files)%list).
  { rewrite <- (take_drop_middle files i f Hi) at 1. reflexivity. }
  assert (Hpf : p f = true).
  { assert (Hin : In f (List.filter p files))
      by (rewrite Hfil; apply in_app_iff; right; left; reflexivity).
    apply filter_In in Hin. tauto. }
  rewrite Hsplit in Hfil at 1. rewrite List.filter_app in Hfil. cbn in Hfil.
  rewrite Hpf in Hfil.
  assert (Hnd' : List.NoDup (List.filter p (take i files) ++
                             f :: List.filter p (drop (S i) files))).
  { replace (List.filter p (take i files) ++ f :: List.filter p (drop (S i) files))%list
      with (List.filter p files).
    - apply NoDup_filter_bool, Hnd.
    - rewrite Hsplit at 1. rewrite List.filter_app. cbn. rewrite Hpf. reflexivity. }
  destruct (unique_split f _ _ _ _ Hnd' Hfil) as [_ H]. exact H.
Qed.

(** X16: Paging order oldest with count n: when the exclusive cursor is the last
    file of the first page, the answer is exactly the next n matching files,
    none skipped and none repeated. *)
Theorem oldest_pages_are_consecutive :
  forall stringify (user : User) (a : ListArgs) (w : World) (n : Z) (f : Node),
    la_order a = Oldest ->
    la_count a = Some n ->
    0 < n ->
    la_countOnly a <> Some true ->
    StronglySorted key_lt (w_timedFiles w) ->
    last (take (Z.to_nat n) (List.filter (passes a) (w_timedFiles w))) = Some f ->
    la_start a = Some (getTime f, n_uuid f, true) ->
    exists w',
      iterateList stringify user a w = (Done (QFile (fst (TMPFILE w))), w')
      /\ w_text w' !! fst (TMPFILE w)
         = Some (render stringify
                   (map (record_of a)
                        (take (Z.to_nat n)
                              (drop (Z.to_nat n)
                                    (List.filter (passes a) (w_timedFiles w)))))).
Proof.
  intros stringify user a w n f Horder Hcount Hn Hco Hs Hlast Hstart.
  set (files := w_timedFiles w) in *.
  set (F := List.filter (passes a) files) in *.
  assert (Hpage : exists before, take (Z.to_nat n) F = (before ++ [f])%list).
  { apply last_Some in Hlast. exact Hlast. }
  destruct Hpage as (before & Hpage).
  assert (HF : F = (before ++ f :: drop (Z.to_nat n) F)%list).
  { rewrite <- (take_drop (Z.to_nat n) F) at 1. rewrite Hpage, <- app_assoc.
    reflexivity. }
  assert (Hin : In f files).
  { assert (In f F) by (rewrite HF; apply in_app_iff; right; left; reflexivity).
    apply filter_In in H. tauto. }
  apply list_elem_of_In, list_elem_of_lookup in Hin as (i & Hi).
  destruct (iterateList_file stringify user a w Hco) as (w' & Hrun & Htext).
  exists w'. split; [exact Hrun |].
  rewrite Htext. fold files.
  rewrite (visit_order_after_cursor a files i f Hs Hi Hstart), Horder.
  rewrite (scan_hits_take a n Hcount) by lia.
  rewrite (filter_after (passes a) files i f before _ (sorted_NoDup _ Hs) Hi HF).
  do 4 f_equal. lia.
Qed.

Lemma oldest_pages_are_consecutive_witness :
  exists w',
    iterateList Sample.stringify Sample.alice
      (Cases.listing Oldest
         (Some (getTime Sample.a_txt, n_uuid Sample.a_txt, true)) (Some 1)
         [Sample.home_uuid] None false)
      Sample.world
    = (Done (QFile (fst (TMPFILE Sample.world))), w')
    /\ w_text w' !! fst (TMPFILE Sample.world)
       = Some "[{name:b.txt}]".
Proof.
  set (a := Cases.listing Oldest
              (Some (getTime Sample.a_txt, n_uuid Sample.a_txt, true)) (Some 1)
              [Sample.home_uuid] None false).
  assert (Hsorted : StronglySorted key_lt (w_timedFiles Sample.world))
    by (repeat constructor; vm_compute; reflexivity).
  destruct (oldest_pages_are_consecutive Sample.stringify Sample.alice
              a Sample.world 1 Sample.a_txt eq_refl eq_refl ltac:(lia)
              ltac:(discriminate) Hsorted ltac:(vm_compute; reflexivity)
              eq_refl) as (w' & Hrun & Htext).
  exists w'. split; [exact Hrun |].
  etransitivity; [exact Htext | vm_compute; reflexivity].
Defined.

(** ** The records of a listing *)

Lemma findIndex_exists :
  forall {A} (p : A -> bool) (l : list A),
    existsb p l = true -> exists i, JS.findIndex p l = Some i.
Proof.
  intros A p. induction l as [| x l IH]; intros H; [discriminate |].
  cbn in *. destruct (p x); [eauto |]. destruct (IH H) as (i & ->). eauto.
Qed.

Lemma ancestor_uuids_chain :
  forall f, ancestor_uuids f = map r_uuid (n_chain f).
Proof.
  intros f. unfold ancestor_uuids, nodepath. rewrite map_app. cbn.
  apply removelast_last.
Qed.

Lemma arr_includes_In :
  forall l x, JS.arr_includes l x = true <-> In x l.
Proof.
  intros l x. unfold JS.arr_includes. rewrite existsb_exists. split.
  - intros (y & Hy & He). apply String.eqb_eq in He. congruence.
  - intros H. exists x. split; [exact H | apply String.eqb_refl].
Qed.

(** X17: A record of a chronological listing is attributed to the first
    requested place that is an ancestor of the file; its namepath is made of
    the names below that place down to the file, and pdir is the parent of
    the file. *)
Theorem record_path_is_relative_to_place :
  forall (a : ListArgs) (f : Node),
    passes a f = true ->
    exists (i : nat) (pre : list Ref) (anc : Ref) (post : list Ref),
      qr_place (record_of a f) = i
      /\ (i < length (la_places a))%nat
      /\ n_chain f = (pre ++ anc :: post)%list
      /\ r_uuid anc = nth i (la_places a) EmptyString
      /\ ~ In (r_uuid anc) (map r_uuid pre)
      /\ qr_namepath (record_of a f) = (map r_name post ++ [n_name f])%list
      /\ (forall j, (j < i)%nat ->
                    ~ In (nth j (la_places a) EmptyString)
                         (map r_uuid (n_chain f)))
      /\ (exists p, parent f = Some p /\ qr_pdir (record_of a f) = r_uuid p).
Proof.
  intros a f Hp. unfold passes in Hp. apply andb_prop in Hp as [_ Hp].
  destruct (place_index (la_places a) f) as [i |] eqn:Hi; [| discriminate].
  unfold place_index in Hi.
  destruct (findIndex_spec _ _ _ EmptyString Hi) as (Hlt & Hinc & Hmin).
  set (place := nth i (la_places a) EmptyString) in *.
  rewrite ancestor_uuids_chain in Hinc.
  destruct (findIndex_exists (String.eqb place) (map r_uuid (n_chain f)) Hinc)
    as (k & Hk).
  destruct (findIndex_spec _ _ _ EmptyString Hk) as (Hklt & Hkeq & Hkmin).
  rewrite length_map in Hklt. apply String.eqb_eq in Hkeq.
  destruct (lookup_lt_is_Some_2 (n_chain f) k Hklt) as (anc & Hanc).
  exists i, (take k (n_chain f)), anc, (drop (S k) (n_chain f)).
  assert (Hsplit : n_chain f = (take k (n_chain f) ++ anc :: drop (S k) (n_chain f))%list)
    by (symmetry; apply take_drop_middle; exact Hanc).
  assert (Hau : r_uuid anc = place).
  { rewrite Hkeq. rewrite Hsplit at 1. rewrite map_app. cbn.
    rewrite app_nth2; rewrite length_map, length_take; [| lia].
    replace (k - k `min` length (n_chain f))%nat with O by lia. reflexivity. }
  unfold record_of, place_index. rewrite Hi. cbn [default from_option id].
  unfold list_record. cbn [qr_place qr_namepath qr_pdir].
  rewrite ancestor_uuids_chain. fold place. unfold JS.indexOf. rewrite Hk.
  split; [reflexivity |]. split; [exact Hlt |]. split; [exact Hsplit |].
  split; [exact Hau |]. split; [| split; [| split]].
  - rewrite Hau. intros Hin. apply In_nth with (d := EmptyString) in Hin
      as (j & Hj & Hnth).
    rewrite length_map, length_take in Hj.
    assert (Hjk : (j < k)%nat) by lia.
    specialize (Hkmin j Hjk).
    assert (Hsame : nth j (map r_uuid (n_chain f)) EmptyString
                    = nth j (map r_uuid (take k (n_chain f))) EmptyString).
    { rewrite Hsplit at 1. rewrite map_app, app_nth1; [reflexivity |].
      rewrite length_map, length_take. lia. }
    rewrite Hsame, Hnth, String.eqb_refl in Hkmin. discriminate.
  - unfold nodepath. rewrite map_app. cbn.
    rewrite Hsplit at 1. rewrite map_app. cbn.
    rewrite <- app_assoc. cbn.
    rewrite (cons_middle (r_name anc)), app_assoc.
    rewrite drop_app_length'; [reflexivity |].
    rewrite length_app, length_map, length_take. cbn. lia.
  - intros j Hj Hin. specialize (Hmin j Hj).
    rewrite ancestor_uuids_chain in Hmin.
    apply arr_includes_In in Hin. congruence.
  - unfold parent. destruct (last (n_chain f)) as [p |] eqn:Hl; [eauto |].
    apply last_None in Hl. rewrite Hl in Hanc. discriminate.
Qed.

Lemma record_path_is_relative_to_place_witness :
  passes (Cases.listing Oldest None None [Sample.docs_uuid] None false)
         Sample.b_txt = true
  /\ exists post,
       qr_namepath (record_of (Cases.listing Oldest None None
                                 [Sample.docs_uuid] None false) Sample.b_txt)
       = (map r_name post ++ [n_name Sample.b_txt])%list
       /\ qr_place (record_of (Cases.listing Oldest None None
                                 [Sample.docs_uuid] None false) Sample.b_txt)
          = O.
Proof.
  set (a := Cases.listing Oldest None None [Sample.docs_uuid] None false).
  assert (Hp : passes a Sample.b_txt = true) by (vm_compute; reflexivity).
  split; [exact Hp |].
  destruct (record_path_is_relative_to_place a Sample.b_txt Hp)
    as (i & pre & anc & post & Hi & Hlt & _ & _ & _ & Hnp & _).
  exists post. split; [exact Hnp |].
  rewrite Hi. cbn in Hlt. lia.
Defined.

(** ** The hierarchical mode *)

Lemma found_ok_weaken :
  forall a lo hi lo' hi' x,
    (lo' <= lo)%nat -> (hi <= hi')%nat ->
    found_ok a lo hi x -> found_ok a lo' hi' x.
Proof.
  unfold found_ok. intros a lo hi lo' hi' x Hlo Hhi (Hp & Hrest).
  split; [lia | exact Hrest].
Qed.

Lemma push_record_inv :
  forall a x arr arr' stop,
    push_record a x arr = Done (arr', stop) ->
    below_count a arr ->
    arr' = (arr ++ [x])%list
    /\ (stop = false -> below_count a arr')
    /\ within_count a arr'.
Proof.
  intros a x arr arr' stop H Hb. unfold push_record in H.
  inversion H as [[Harr Hstop]]. clear H. split; [reflexivity |].
  unfold below_count, within_count in *. split.
  - intros Hs c Hc Hpos. rewrite Hc in Hs. apply Z.eqb_neq in Hs.
    specialize (Hb c Hc Hpos). rewrite length_app in *. cbn in *. lia.
  - intros c Hc Hpos. specialize (Hb c Hc Hpos).
    rewrite length_app. cbn. lia.
Qed.

Lemma F_inv :
  forall a place ri node arr arr' stop,
    F a place ri node arr = Done (arr', stop) ->
    below_count a arr ->
    (arr' = arr /\ stop = false
     \/ exists x, arr' = (arr ++ [x])%list /\ found_ok a ri (S ri) x)
    /\ (stop = false -> below_count a arr')
    /\ within_count a arr'.
Proof.
  intros a place ri node arr arr' stop H Hb.
  assert (Hsame : forall r s,
            @eq (outcome (list QRecord * bool)) (Done (arr, false)) (Done (r, s)) ->
            (r = arr /\ s = false
             \/ exists x, r = (arr ++ [x])%list /\ found_ok a ri (S ri) x)
            /\ (s = false -> below_count a r) /\ within_count a r).
  { intros r s E. inversion E; subst. split; [left; auto |].
    split; [intros _; exact Hb |].
    intros c Hc Hpos. specialize (Hb c Hc Hpos). lia. }
  unfold F in H. destruct (n_kind node).
  - destruct (bool_decide (ta_types a <> None) || bool_decide (ta_tags a <> None)
              || ta_fileOnly a) eqn:Hg; [apply Hsame; assumption |].
    apply orb_false_iff in Hg as [Hg Hfo]. apply orb_false_iff in Hg as [Hty Htg].
    apply bool_decide_eq_false in Hty, Htg.
    assert (Hty' : ta_types a = None) by (destruct (ta_types a); [exfalso; apply Hty; discriminate | reflexivity]).
    assert (Htg' : ta_tags a = None) by (destruct (ta_tags a); [exfalso; apply Htg; discriminate | reflexivity]).
    destruct (negb (name_filter (ta_name a) (n_name node))) eqn:Hn;
      [apply Hsame; assumption |].
    destruct (parent node) as [p |]; [| discriminate].
    destruct (push_record_inv _ _ _ _ _ H Hb) as (Ha & Hs & Hw).
    split; [| split; assumption]. right. eexists. split; [exact Ha |].
    unfold found_ok. cbn. apply negb_false_iff in Hn.
    repeat split; auto; lia.
  - destruct (ta_tags a) as [[| t ts] |] eqn:Htags.
    + destruct (n_tags node) eqn:Hnt.
      * destruct (negb (types_filter (ta_types a) (n_metadata node))) eqn:Hty;
          [apply Hsame; assumption |].
        destruct (negb (name_filter (ta_name a) (n_name node))) eqn:Hn;
          [apply Hsame; assumption |].
        destruct (parent node) as [p |]; [| discriminate].
        destruct (push_record_inv _ _ _ _ _ H Hb) as (Ha & Hs & Hw).
        split; [| split; assumption]. right. eexists. split; [exact Ha |].
        unfold found_ok. cbn. apply negb_false_iff in Hty, Hn.
        repeat split; auto; lia.
      * apply Hsame; assumption.
    + destruct (n_tags node); [discriminate | apply Hsame; assumption].
    + destruct (negb (types_filter (ta_types a) (n_metadata node))) eqn:Hty;
        [apply Hsame; assumption |].
      destruct (negb (name_filter (ta_name a) (n_name node))) eqn:Hn;
        [apply Hsame; assumption |].
      destruct (parent node) as [p |]; [| discriminate].
      assert (H' : push_record a
                {| qr_uuid := n_uuid node; qr_pdir := r_uuid p;
                   qr_type := Some "file"; qr_name := n_name node;
                   qr_size := Some (n_size node); qr_mtime := n_mtime node;
                   qr_hash := n_hash node; qr_tags := n_tags node;
                   qr_metadata := n_metadata node;
                   qr_place := ri; qr_archived := n_archived node;
                   qr_bctime := n_bctime node; qr_bmtime := n_bmtime node;
                   qr_namepath := tree_namepath place node |} arr
                = Done (arr', stop)) by (destruct (n_tags node); exact H).
      destruct (push_record_inv _ _ _ _ _ H' Hb) as (Ha & Hs & Hw).
      split; [| split; assumption]. right. eexists. split; [exact Ha |].
      unfold found_ok. cbn. apply negb_false_iff in Hty, Hn.
      repeat split; auto; lia.
Qed.

Lemma iterate_inv :
  forall a place ri nodes arr arr' stop,
    iterate a place ri nodes arr = Done (arr', stop) ->
    below_count a arr ->
    (exists new, arr' = (arr ++ new)%list /\ Forall (found_ok a ri (S ri)) new)
    /\ (stop = false -> below_count a arr')
    /\ within_count a arr'.
Proof.
  intros a place ri. induction nodes as [| n r IH]; intros arr arr' stop H Hb.
  - cbn in H. inversion H; subst. split; [exists []; rewrite app_nil_r; auto |].
    split; [auto |]. intros c Hc Hpos. specialize (Hb c Hc Hpos). lia.
  - cbn in H. destruct (F a place ri n arr) as [[arr1 [|]] | e | t] eqn:HF;
      try discriminate.
    + inversion H; subst.
      destruct (F_inv _ _ _ _ _ _ _ HF Hb) as ([[_ Hs] | (x & Ha & Hx)] & Hc & Hw);
        [discriminate |].
      split; [exists [x]; split; [exact Ha | constructor; auto] |].
      split; assumption.
    + destruct (F_inv _ _ _ _ _ _ _ HF Hb) as (Hnew & Hc & Hw).
      destruct (IH _ _ _ H (Hc eq_refl)) as ((new & Ha & Hn) & Hc' & Hw').
      split; [| split; assumption].
      destruct Hnew as [[-> _] | (x & -> & Hx)].
      * exists new. auto.
      * exists (x :: new). rewrite <- app_assoc in Ha. split; [exact Ha |].
        constructor; assumption.
Qed.

Lemma iterate_roots_inv :
  forall iterate_from w a roots ri arr arr',
    iterate_roots iterate_from w a roots ri arr = Done arr' ->
    below_count a arr ->
    (exists new, arr' = (arr ++ new)%list
                 /\ Forall (found_ok a ri (ri + length roots)) new)
    /\ within_count a arr'.
Proof.
  intros walk w a. induction roots as [| [place |] r IH]; intros ri arr arr' H Hb.
  - cbn in H. inversion H; subst. split; [exists []; rewrite app_nil_r; auto |].
    intros c Hc Hpos. specialize (Hb c Hc Hpos). lia.
  - cbn [iterate_roots] in H.
    destruct (iterate a place ri (walk w place [] "directory") arr)
      as [[arr1 [|]] | e | t] eqn:Hit; try discriminate.
    + inversion H; subst.
      destruct (iterate_inv _ _ _ _ _ _ _ Hit Hb) as ((new & Ha & Hn) & _ & Hw).
      split; [| exact Hw]. exists new. split; [exact Ha |].
      eapply List.Forall_impl; [| exact Hn]. intros x Hx.
      eapply found_ok_weaken; [| | exact Hx]; cbn; lia.
    + destruct (iterate_inv _ _ _ _ _ _ _ Hit Hb) as ((new & Ha & Hn) & Hc & _).
      destruct (IH _ _ _ H (Hc eq_refl)) as ((new' & Ha' & Hn') & Hw).
      split; [| exact Hw]. exists (new ++ new')%list.
      rewrite Ha', Ha, <- app_assoc. split; [reflexivity |].
      apply Forall_app. split.
      * eapply List.Forall_impl; [| exact Hn]. intros x Hx.
        eapply found_ok_weaken; [| | exact Hx]; cbn; lia.
      * eapply List.Forall_impl; [| exact Hn']. intros x Hx.
        eapply found_ok_weaken; [| | exact Hx]; cbn; lia.
  - cbn in H. discriminate.
Qed.

Lemma iterateTreeSync_inv :
  forall iterate_from user a w arr,
    iterateTreeSync iterate_from user a w = Done arr ->
    Forall (found_ok a 0 (length (ta_places a))) arr /\ within_count a arr.
Proof.
  intros walk user a w arr H. unfold iterateTreeSync in H.
  assert (Hb0 : below_count a []) by (intros c _ Hpos; cbn; lia).
  destruct (ta_last a) as [[[li lt] lp] |].
  - destruct (map (fun place => w_uuidMap w !! place) (ta_places a) !! li)
      as [[place |] |] eqn:Hl; try discriminate.
    assert (Hli : (li < length (ta_places a))%nat).
    { apply lookup_lt_Some in Hl. rewrite length_map in Hl. exact Hl. }
    destruct (iterate a place li (walk w place lp lt) [])
      as [[arr1 [|]] | e | t] eqn:Hit; try discriminate.
    + inversion H; subst.
      destruct (iterate_inv _ _ _ _ _ _ _ Hit Hb0) as ((new & Ha & Hn) & _ & Hw).
      cbn in Ha. subst. split; [| exact Hw].
      eapply List.Forall_impl; [| exact Hn]. intros x Hx.
      eapply found_ok_weaken; [| | exact Hx]; lia.
    + destruct (iterate_inv _ _ _ _ _ _ _ Hit Hb0) as ((new & Ha & Hn) & Hc & _).
      destruct (iterate_roots_inv _ _ _ _ _ _ _ H (Hc eq_refl))
        as ((new' & Ha' & Hn') & Hw).
      split; [| exact Hw]. cbn in Ha. subst. apply Forall_app. split.
      * eapply List.Forall_impl; [| exact Hn]. intros x Hx.
        eapply found_ok_weaken; [| | exact Hx]; lia.
      * eapply List.Forall_impl; [| exact Hn']. intros x Hx.
        rewrite length_drop, length_map in Hx.
        eapply found_ok_weaken; [| | exact Hx]; lia.
  - destruct (iterate_roots_inv _ _ _ _ _ _ _ H Hb0) as ((new & Ha & Hn) & Hw).
    cbn in Ha. subst. split; [| exact Hw].
    rewrite length_map in Hn. exact Hn.
Qed.

(** X18: A hierarchical (find) listing never returns more than a positive count;
    every record names a requested place and passes the name filter, files
    pass the type filter, and directories are left out as soon as types,
    tags or fileOnly is given. *)
Theorem hierarchical_results_respect_count_and_filters :
  forall iterate_from (user : User) (a : TreeArgs) (w : World)
         (arr : list QRecord),
    iterateTreeSync iterate_from user a w = Done arr ->
    (forall c, ta_count a = Some c -> 0 < c -> Z.of_nat (length arr) <= c)
    /\ (forall x, In x arr ->
          (qr_place x < length (ta_places a))%nat
          /\ name_filter (ta_name a) (qr_name x) = true
          /\ (qr_type x = Some "file" \/ qr_type x = Some "directory")
          /\ (qr_type x = Some "file" ->
              types_filter (ta_types a) (qr_metadata x) = true)
          /\ (ta_types a <> None \/ ta_tags a <> None \/ ta_fileOnly a = true ->
              qr_type x = Some "file")).
Proof.
  intros walk user a w arr H.
  destruct (iterateTreeSync_inv _ _ _ _ _ H) as (Hall & Hw).
  split; [exact Hw |]. intros x Hx.
  rewrite List.Forall_forall in Hall.
  destruct (Hall x Hx) as (Hp & Hn & Hk & _).
  split; [lia |]. split; [exact Hn |].
  destruct Hk as [(Hf & Hty) | (Hd & Hty & Htg & Hfo)].
  - split; [left; exact Hf |]. split; [intros _; exact Hty |]. intros _; exact Hf.
  - split; [right; exact Hd |]. split.
    + intros Hf. rewrite Hd in Hf. discriminate.
    + intros [Ht | [Ht | Ht]]; congruence.
Qed.

Lemma hierarchical_results_respect_count_and_filters_witness :
  exists arr,
    iterateTreeSync
      (Cases.walk [Sample.docs; Sample.a_txt; Sample.b_txt; Sample.c_txt])
      Sample.alice (Cases.finding (Some 2) None false) Sample.world = Done arr
    /\ Z.of_nat (length arr) <= 2.
Proof.
  set (walk := Cases.walk [Sample.docs; Sample.a_txt; Sample.b_txt;
                           Sample.c_txt]).
  assert (Hrun : exists arr,
             iterateTreeSync walk Sample.alice
               (Cases.finding (Some 2) None false) Sample.world = Done arr)
    by (eexists; vm_compute; reflexivity).
  destruct Hrun as (arr & Hrun). exists arr. split; [exact Hrun |].
  destruct (hierarchical_results_respect_count_and_filters walk Sample.alice
              (Cases.finding (Some 2) None false) Sample.world arr Hrun)
    as (Hcount & _).
  apply Hcount; [reflexivity | lia].
Defined.

(** X19: With a non-empty tag filter the hierarchical listing never returns a
    record: when it returns at all, the list is empty, because a tagged file
    is tested with a method that arrays do not have. *)
Theorem hierarchical_tag_filter_finds_nothing :
  forall iterate_from (user : User) (a : TreeArgs) (w : World)
         (arr : list QRecord) (t : option Z) (ts : list (option Z)),
    ta_tags a = Some (t :: ts) ->
    iterateTreeSync iterate_from user a w = Done arr ->
    arr = [].
Proof.
  intros walk user a w arr t ts Htags H.
  destruct (iterateTreeSync_inv _ _ _ _ _ H) as (Hall & _).
  destruct arr as [| x arr]; [reflexivity |].
  inversion Hall as [| ? ? Hx _]; subst.
  destruct Hx as (_ & _ & _ & [Hn | Hn]); congruence.
Qed.

Lemma hierarchical_tag_filter_finds_nothing_witness :
  iterateTreeSync (Cases.walk [Sample.docs; Sample.a_txt; Sample.c_txt])
    Sample.alice (Cases.finding None (Some [Some 1]) false) Sample.world
  = Done [].
Proof.
  set (walk := Cases.walk [Sample.docs; Sample.a_txt; Sample.c_txt]).
  assert (Hrun : exists arr,
             iterateTreeSync walk Sample.alice
               (Cases.finding None (Some [Some 1]) false) Sample.world
             = Done arr)
    by (eexists; vm_compute; reflexivity).
  destruct Hrun as (arr & Hrun). rewrite Hrun. f_equal.
  exact (hierarchical_tag_filter_finds_nothing walk Sample.alice
           (Cases.finding None (Some [Some 1]) false) Sample.world arr
           (Some 1) [] eq_refl Hrun).
Defined.

(** ** Roots follow users and drives *)

Lemma In_actions :
  forall users drives roots act,
    In act (handleUserDriveUpdate users drives roots) ->
    match act with
    | DeleteRoot u => In u (toBeDeleted users drives roots)
    | RemoveRoot u => In u (toBeRemoved users drives)
    | CreateRoot u => In u (toBeCreated users drives roots)
    | EmitForestUpdate _ => True
    end.
Proof.
  intros users drives roots act H. unfold handleUserDriveUpdate in H.
  assert (Hin : In act (map DeleteRoot (toBeDeleted users drives roots)
                  ++ map RemoveRoot (toBeRemoved users drives)
                  ++ match toBeCreated users drives roots with
                     | [] => [EmitForestUpdate false]
                     | _ => map CreateRoot (toBeCreated users drives roots)
                              ++ [EmitForestUpdate true]
                     end)%list).
  { destruct (toBeCreated users drives roots), (toBeDeleted users drives roots),
      (toBeRemoved users drives); try exact H. destruct H. }
  clear H. rewrite !in_app_iff in Hin.
  destruct Hin as [H | [H | H]].
  - apply in_map_iff in H as (u & <- & Hu). exact Hu.
  - apply in_map_iff in H as (u & <- & Hu). exact Hu.
  - destruct (toBeCreated users drives roots) as [| c cs] eqn:Hc.
    + destruct H as [<- | []]. exact I.
    + rewrite in_app_iff in H. destruct H as [H | [<- | []]]; [| exact I].
      apply in_map_iff in H as (u & <- & Hu). exact Hu.
Qed.

Lemma actions_unfold :
  forall users drives roots,
    toBeCreated users drives roots <> []
    \/ toBeDeleted users drives roots <> []
    \/ toBeRemoved users drives <> [] ->
    handleUserDriveUpdate users drives roots
    = (map DeleteRoot (toBeDeleted users drives roots)
         ++ map RemoveRoot (toBeRemoved users drives)
         ++ match toBeCreated users drives roots with
            | [] => [EmitForestUpdate false]
            | _ => map CreateRoot (toBeCreated users drives roots)
                     ++ [EmitForestUpdate true]
            end)%list.
Proof.
  intros users drives roots H. unfold handleUserDriveUpdate.
  destruct (toBeCreated users drives roots), (toBeDeleted users drives roots),
    (toBeRemoved users drives); try reflexivity.
  destruct H as [H | [H | H]]; contradiction.
Qed.

Lemma In_not_nil :
  forall {A} (x : A) (l : list A), In x l -> l <> [].
Proof.
  intros A x l H E. subst. destruct H.
Qed.

Lemma actions_In :
  forall users drives roots u,
    (In u (toBeDeleted users drives roots) ->
       In (DeleteRoot u) (handleUserDriveUpdate users drives roots))
    /\ (In u (toBeRemoved users drives) ->
       In (RemoveRoot u) (handleUserDriveUpdate users drives roots))
    /\ (In u (toBeCreated users drives roots) ->
       In (CreateRoot u) (handleUserDriveUpdate users drives roots)).
Proof.
  intros users drives roots u. split; [| split]; intros H.
  - rewrite actions_unfold by (right; left; exact (In_not_nil _ _ H)).
    apply in_or_app. left. apply in_map. exact H.
  - rewrite actions_unfold by (right; right; exact (In_not_nil _ _ H)).
    apply in_or_app. right. apply in_or_app. left. apply in_map. exact H.
  - rewrite actions_unfold by (left; exact (In_not_nil _ _ H)).
    apply in_or_app. right. apply in_or_app. right.
    destruct (toBeCreated users drives roots) as [| c cs]; [destruct H |].
    apply in_or_app. left. apply (in_map CreateRoot _ _ H).
Qed.

(** X20: handleUserDriveUpdate deletes only roots that no valid drive stands
    for, removes only deleted valid drives (a private one only when its
    owner is deleted), creates roots only for valid drives that are not
    deleted and have none, and never removes or creates a root it deletes. *)
Theorem drive_update_actions_are_called_for :
  forall (users : list Account) (drives : list Drive) (roots : list string)
         (u : string),
    let acts := handleUserDriveUpdate users drives roots in
    (In (DeleteRoot u) acts ->
       In u roots
       /\ forall d, In d drives -> d_uuid d = u -> valid_drive users d = false)
    /\ (In (RemoveRoot u) acts ->
          exists d, In d drives /\ d_uuid d = u
                    /\ valid_drive users d = true /\ d_isDeleted d = true
                    /\ (d_privacy d = Some true ->
                        exists o, find_owner users d = Some o
                                  /\ a_status o = USER_STATUS_DELETED))
    /\ (In (CreateRoot u) acts ->
          ~ In u roots
          /\ exists d, In d drives /\ d_uuid d = u
                       /\ valid_drive users d = true /\ d_isDeleted d = false)
    /\ (In (DeleteRoot u) acts ->
          ~ In (RemoveRoot u) acts /\ ~ In (CreateRoot u) acts).
Proof.
  intros users drives roots u acts. subst acts.
  assert (Hdel : In (DeleteRoot u) (handleUserDriveUpdate users drives roots) ->
            In u roots
            /\ forall d, In d drives -> d_uuid d = u -> valid_drive users d = false).
  { intros H. apply In_actions in H. unfold toBeDeleted in H.
    apply List.filter_In in H as (Hr & Hn). split; [exact Hr |].
    intros d Hd Hu. apply negb_true_iff in Hn.
    destruct (valid_drive users d) eqn:Hv; [| reflexivity].
    assert (Hex : existsb (fun d0 => String.eqb (d_uuid d0) u)
                    (valids users drives) = true).
    { apply existsb_exists. exists d. split.
      - apply List.filter_In. auto.
      - apply String.eqb_eq. exact Hu. }
    congruence. }
  assert (Hrem : In (RemoveRoot u) (handleUserDriveUpdate users drives roots) ->
            exists d, In d drives /\ d_uuid d = u
                      /\ valid_drive users d = true /\ d_isDeleted d = true
                      /\ (d_privacy d = Some true ->
                          exists o, find_owner users d = Some o
                                    /\ a_status o = USER_STATUS_DELETED)).
  { intros H. apply In_actions in H. unfold toBeRemoved in H.
    apply in_map_iff in H as (d & Hu & Hd).
    apply List.filter_In in Hd as (Hd & Hrm).
    apply List.filter_In in Hd as (Hd & Hv).
    exists d. split; [exact Hd |]. split; [exact Hu |]. split; [exact Hv |].
    unfold removable_drive in Hrm.
    destruct (owned_drive d) eqn:Ho; cbn [andb] in Hrm.
    - destruct (d_isDeleted d) eqn:Hdl.
      + split; [reflexivity |]. intros Hp.
        rewrite (bool_decide_eq_true_2 _ Hp) in Hrm. cbn [andb] in Hrm.
        destruct (find_owner users d) as [o |]; [| discriminate].
        exists o. split; [reflexivity |].
        destruct (String.eqb (a_status o) USER_STATUS_DELETED) eqn:He;
          [apply String.eqb_eq; exact He | discriminate].
      + unfold owned_drive in Ho.
        destruct (bool_decide (d_privacy d = Some false)) eqn:Hpf;
          cbn in Hrm; discriminate.
    - destruct (bool_decide (d_privacy d = Some false)) eqn:Hpf;
        cbn [andb] in Hrm; [| discriminate].
      destruct (d_isDeleted d); [| discriminate].
      split; [reflexivity |]. intros Hp.
      apply bool_decide_eq_true in Hpf. congruence. }
  assert (Hcre : In (CreateRoot u) (handleUserDriveUpdate users drives roots) ->
            ~ In u roots
            /\ exists d, In d drives /\ d_uuid d = u
                         /\ valid_drive users d = true /\ d_isDeleted d = false).
  { intros H. apply In_actions in H. unfold toBeCreated in H.
    apply List.filter_In in H as (Hm & Hn). split.
    - intros Hr. apply arr_includes_In in Hr. rewrite Hr in Hn. discriminate.
    - apply in_map_iff in Hm as (d & Hu & Hd).
      apply List.filter_In in Hd as (Hd & Hnd).
      apply List.filter_In in Hd as (Hd & Hv).
      exists d. apply negb_true_iff in Hnd. auto. }
  split; [exact Hdel |]. split; [exact Hrem |]. split; [exact Hcre |].
  intros H. destruct (Hdel H) as (_ & Hnv). split.
  - intros Hr. destruct (Hrem Hr) as (d & Hd & Hu & Hv & _).
    rewrite (Hnv d Hd Hu) in Hv. discriminate.
  - intros Hc. destruct (Hcre Hc) as (_ & d & Hd & Hu & Hv & _).
    rewrite (Hnv d Hd Hu) in Hv. discriminate.
Qed.

Lemma drive_update_actions_are_called_for_witness :
  In (RemoveRoot Cases.bobs_uuid)
     (handleUserDriveUpdate Cases.accounts Cases.roster Cases.roots)
  /\ exists d, In d Cases.roster /\ d_uuid d = Cases.bobs_uuid
               /\ d_isDeleted d = true.
Proof.
  assert (Hin : In (RemoveRoot Cases.bobs_uuid)
                   (handleUserDriveUpdate Cases.accounts Cases.roster
                      Cases.roots))
    by (vm_compute; tauto).
  split; [exact Hin |].
  destruct (drive_update_actions_are_called_for Cases.accounts Cases.roster
              Cases.roots Cases.bobs_uuid) as (_ & Hrem & _).
  destruct (Hrem Hin) as (d & Hd & Hu & _ & Hdel & _).
  exists d. auto.
Defined.

(** X21: handleUserDriveUpdate creates a root for every valid, live drive
    without one and deletes every root that no valid drive stands for; a
    private drive with a uuid of its own whose owner is not deleted keeps
    its root. *)
Theorem drive_update_creates_and_prunes :
  forall (users : list Account) (drives : list Drive) (roots : list string),
    let acts := handleUserDriveUpdate users drives roots in
    (forall d, In d drives -> valid_drive users d = true ->
               d_isDeleted d = false -> ~ In (d_uuid d) roots ->
               In (CreateRoot (d_uuid d)) acts)
    /\ (forall u, In u roots ->
                  (forall d, In d drives -> d_uuid d = u ->
                             valid_drive users d = false) ->
                  In (DeleteRoot u) acts)
    /\ (forall d o, In d drives -> d_privacy d = Some true ->
                    find_owner users d = Some o ->
                    a_status o <> USER_STATUS_DELETED ->
                    (forall d', In d' drives -> d_uuid d' = d_uuid d -> d' = d) ->
                    ~ In (RemoveRoot (d_uuid d)) acts
                    /\ ~ In (DeleteRoot (d_uuid d)) acts).
Proof.
  intros users drives roots acts. subst acts. split; [| split].
  - intros d Hd Hv Hnd Hnr. apply actions_In. unfold toBeCreated.
    apply List.filter_In. split.
    + apply in_map. apply List.filter_In. split.
      * apply List.filter_In. auto.
      * rewrite Hnd. reflexivity.
    + apply negb_true_iff. destruct (JS.arr_includes roots (d_uuid d)) eqn:Hi;
        [| reflexivity]. apply arr_includes_In in Hi. contradiction.
  - intros u Hu Hnv. apply actions_In. unfold toBeDeleted.
    apply List.filter_In. split; [exact Hu |]. apply negb_true_iff.
    destruct (existsb (fun d => String.eqb (d_uuid d) u) (valids users drives))
      eqn:Hex; [| reflexivity].
    apply existsb_exists in Hex as (d & Hd & He).
    apply List.filter_In in Hd as (Hd & Hv). apply String.eqb_eq in He.
    rewrite (Hnv d Hd He) in Hv. discriminate.
  - intros d o Hd Hp Ho Hst Huniq.
    assert (Hv : valid_drive users d = true).
    { unfold valid_drive, owned_drive.
      rewrite (bool_decide_eq_true_2 _ Hp), Ho. reflexivity. }
    split.
    + intros H. apply In_actions in H. unfold toBeRemoved in H.
      apply in_map_iff in H as (d' & Hu & Hd').
      apply List.filter_In in Hd' as (Hd' & Hrm).
      apply List.filter_In in Hd' as (Hd' & _).
      rewrite (Huniq d' Hd' Hu) in Hrm. unfold removable_drive, owned_drive in Hrm.
      rewrite (bool_decide_eq_true_2 _ Hp), Ho in Hrm. cbn [orb andb] in Hrm.
      assert (He : String.eqb (a_status o) USER_STATUS_DELETED = false)
        by (apply String.eqb_neq; exact Hst).
      rewrite He in Hrm. cbn in Hrm.
      destruct (d_isDeleted d); [discriminate |].
      rewrite andb_false_r in Hrm. discriminate.
    + intros H. apply In_actions in H. unfold toBeDeleted in H.
      apply List.filter_In in H as (_ & Hn). apply negb_true_iff in Hn.
      assert (Hex : existsb (fun d0 => String.eqb (d_uuid d0) (d_uuid d))
                      (valids users drives) = true).
      { apply existsb_exists. exists d. split.
        - apply List.filter_In. auto.
        - apply String.eqb_refl. }
      congruence.
Qed.

Lemma drive_update_creates_and_prunes_witness :
  In (CreateRoot Cases.shared_uuid)
     (handleUserDriveUpdate Cases.accounts Cases.roster Cases.roots)
  /\ In (DeleteRoot Cases.stale_uuid)
        (handleUserDriveUpdate Cases.accounts Cases.roster Cases.roots)
  /\ ~ In (RemoveRoot Sample.home_uuid)
          (handleUserDriveUpdate Cases.accounts Cases.roster Cases.roots).
Proof.
  destruct (drive_update_creates_and_prunes Cases.accounts Cases.roster
              Cases.roots) as (Hcreate & Hdelete & Hkeep).
  split; [| split].
  - apply (Hcreate Cases.shared); [cbn; tauto | reflexivity | reflexivity |].
    cbn. intros [H | [H | [H | []]]]; discriminate.
  - apply Hdelete; [cbn; tauto |].
    intros d Hd Hu. cbn in Hd.
    destruct Hd as [<- | [<- | [<- | [<- | []]]]]; discriminate.
  - apply (Hkeep Sample.home
             {| a_uuid := u_uuid Sample.alice; a_status := "ACTIVE" |});
      [cbn; tauto | reflexivity | reflexivity | discriminate |].
    intros d' Hd' Hu. cbn in Hd'.
    destruct Hd' as [<- | [<- | [<- | [<- | []]]]];
      [reflexivity | discriminate | discriminate | discriminate].
Defined.

(** ** Media by fingerprint *)

(** X22: getMedia answers a user only when the fingerprint is known and at least
    one file with it lies in a drive the user can write; what it answers
    with is the first file of the fingerprint. *)
Theorem getMedia_needs_one_writable_copy :
  forall isSHA256 (metaMap : gmap string Meta) (u : User)
         (props : MediaProps) (w : World) (data : MediaData),
    getMedia isSHA256 metaMap (Some u) props w = Done data ->
    exists fp meta f0 rest,
      mp_fingerprint props = Some fp
      /\ isSHA256 (Some fp) = true
      /\ metaMap !! fp = Some meta
      /\ mm_files meta = f0 :: rest
      /\ (exists f drive,
            In f (mm_files meta) /\ In drive (w_drives w)
            /\ d_uuid drive = r_uuid (root f)
            /\ userCanWriteDrive u drive = true)
      /\ data = (if mp_file props then MediaPath (absolutePath w f0)
                 else if mp_both props
                 then MediaBoth (mm_metadata meta) (n_size f0) (absolutePath w f0)
                 else MediaMeta (mm_metadata meta) (n_size f0)).
Proof.
  intros isSHA256 metaMap u props w data H. unfold getMedia in H.
  destruct (isSHA256 (mp_fingerprint props)) eqn:Hsha; [| discriminate].
  cbn [negb] in H.
  destruct (mp_fingerprint props) as [fp |] eqn:Hfp; [| discriminate].
  cbn [mbind option_bind] in H.
  destruct (metaMap !! fp) as [meta |] eqn:Hmeta; [| discriminate].
  destruct (existsb _ (mm_files meta)) eqn:Hex; [| discriminate].
  destruct (mm_files meta) as [| f0 rest] eqn:Hfiles; [discriminate |].
  exists fp, meta, f0, rest.
  split; [reflexivity |]. split; [exact Hsha |]. split; [exact Hmeta |].
  split; [exact Hfiles |]. split.
  - apply existsb_exists in Hex as (f & Hf & Hinc).
    apply arr_includes_In in Hinc. unfold writable_uuids in Hinc.
    apply in_map_iff in Hinc as (drive & Hu & Hd).
    apply List.filter_In in Hd as (Hd & Hcan).
    exists f, drive. rewrite Hfiles. repeat split; assumption.
  - destruct (mp_file props); [congruence |].
    destruct (mp_both props); congruence.
Qed.

Lemma getMedia_needs_one_writable_copy_witness :
  getMedia Cases.isSHA256 Cases.media (Some Sample.alice)
    (Cases.by_fingerprint Sample.hash_a true false) Sample.world
  = Done (MediaPath (absolutePath Sample.world Sample.a_txt))
  /\ exists f drive,
       In f [Sample.a_txt] /\ In drive (w_drives Sample.world)
       /\ userCanWriteDrive Sample.alice drive = true.
Proof.
  assert (Hrun : getMedia Cases.isSHA256 Cases.media (Some Sample.alice)
                   (Cases.by_fingerprint Sample.hash_a true false)
                   Sample.world
                 = Done (MediaPath (absolutePath Sample.world Sample.a_txt)))
    by (vm_compute; reflexivity).
  split; [exact Hrun |].
  destruct (getMedia_needs_one_writable_copy _ _ _ _ _ _ Hrun)
    as (fp & meta & f0 & rest & Hfp & _ & Hmeta & _ & (f & drive & Hf & Hd & _ & Hc) & _).
  assert (Hm : Cases.media !! fp
               = Some {| mm_metadata := {| m_type := "JPEG"; m_attrs := [] |};
                         mm_files := [Sample.a_txt] |}).
  { inversion Hfp; subst fp. vm_compute. reflexivity. }
  rewrite Hm in Hmeta. inversion Hmeta; subst meta.
  exists f, drive. auto.
Defined.

(** X23: getMedia refuses with 400 for what is not a fingerprint, 404 for an
    unknown fingerprint, and 403 only for a user none of whose writable
    drives holds a copy; there is no other error. *)
Theorem getMedia_refusals :
  forall isSHA256 (metaMap : gmap string Meta) (user : option User)
         (props : MediaProps) (w : World) (e : Error),
    getMedia isSHA256 metaMap user props w = Failed e ->
    (status e = Some 400 /\ isSHA256 (mp_fingerprint props) = false)
    \/ (status e = Some 404
        /\ (mp_fingerprint props ≫= (fun f => metaMap !! f)) = None)
    \/ (status e = Some 403
        /\ exists u meta,
             user = Some u
             /\ (mp_fingerprint props ≫= (fun f => metaMap !! f)) = Some meta
             /\ forall f drive,
                  In f (mm_files meta) -> In drive (w_drives w) ->
                  d_uuid drive = r_uuid (root f) ->
                  userCanWriteDrive u drive = false).
Proof.
  intros isSHA256 metaMap user props w e H. unfold getMedia in H.
  destruct (isSHA256 (mp_fingerprint props)) eqn:Hsha; cbn [negb] in H.
  - destruct (mp_fingerprint props ≫= (fun f => metaMap !! f))
      as [meta |] eqn:Hmeta.
    + destruct user as [u |].
      * destruct (existsb _ (mm_files meta)) eqn:Hex.
        -- destruct (mm_files meta); [discriminate |].
           destruct (mp_file props); [discriminate |].
           destruct (mp_both props); discriminate.
        -- inversion H; subst. right. right. split; [reflexivity |].
           exists u, meta. split; [reflexivity |]. split; [reflexivity |].
           intros f drive Hf Hd Hu.
           destruct (userCanWriteDrive u drive) eqn:Hcan; [| reflexivity].
           assert (Hex' : existsb
                     (fun f => JS.arr_includes (writable_uuids w u)
                                 (r_uuid (root f))) (mm_files meta) = true).
           { apply existsb_exists. exists f. split; [exact Hf |].
             apply arr_includes_In. unfold writable_uuids. rewrite <- Hu.
             apply in_map. apply List.filter_In. auto. }
           congruence.
      * destruct (mm_files meta); discriminate.
    + inversion H; subst. right. left. auto.
  - inversion H; subst. left. auto.
Qed.

Lemma getMedia_refusals_witness :
  exists e,
    getMedia Cases.isSHA256 Cases.media (Some Sample.bob)
      (Cases.by_fingerprint Sample.hash_a true false) Sample.world
    = Failed e
    /\ status e = Some 403.
Proof.
  assert (Hrun : exists e,
             getMedia Cases.isSHA256 Cases.media (Some Sample.bob)
               (Cases.by_fingerprint Sample.hash_a true false) Sample.world
             = Failed e)
    by (eexists; vm_compute; reflexivity).
  destruct Hrun as (e & Hrun). exists e. split; [exact Hrun |].
  destruct (getMedia_refusals _ _ _ _ _ _ Hrun)
    as [(_ & Hsha) | [(_ & Hnone) | (Hst & _)]].
  - vm_compute in Hsha. discriminate.
  - vm_compute in Hnone. discriminate.
  - exact Hst.
Defined.

(** ** Formatting a drive *)

Lemma opt_string_eqb_true :
  forall a b, opt_string_eqb a b = true -> a = b.
Proof.
  intros [a |] [b |] H; cbn in H; try discriminate; [| reflexivity].
  apply String.eqb_eq in H. congruence.
Qed.

Lemma dirFormat_cases :
  forall dir_read (user : User) (props : FormatProps) (w w' : World)
         (r : outcome (list Xstat)),
    dirFormat dir_read user props w = (r, w') ->
    (w' = w /\ forall xstats, r <> Done xstats)
    \/ exists u dir drive,
         fp_driveUUID props = Some u /\ fp_dirUUID props = Some u
         /\ fp_op props = Some "format"
         /\ w_uuidMap w !! u = Some dir
         /\ find_drive w (r_uuid (root dir)) = Some drive
         /\ d_privacy drive = Some true
         /\ d_owner drive = u_uuid user
         /\ (u <> EmptyString -> d_uuid drive = u)
         /\ (r, w') = format_root dir_read dir w.
Proof.
  intros dir_read user props w w' r H.
  assert (HF : forall e, (Failed e, w) = (r, w') ->
                 w' = w /\ forall xstats, r <> Done xstats).
  { intros e E. inversion E; subst. split; [reflexivity | discriminate]. }
  unfold dirFormat in H.
  destruct (opt_string_eqb (fp_driveUUID props) (fp_dirUUID props)) eqn:Heq;
    cbn [negb] in H; [| left; eapply HF; exact H].
  apply opt_string_eqb_true in Heq.
  destruct (fp_dirUUID props) as [u |] eqn:Hdu; cbn [uuidMap_get] in H;
    [| left; eapply HF; exact H].
  destruct (w_uuidMap w !! u) as [dir |] eqn:Hdir;
    [| left; eapply HF; exact H].
  destruct (find_drive w (r_uuid (root dir))) as [drive |] eqn:Hdrv.
  2:{ left. inversion H; subst. split; [reflexivity | discriminate]. }
  rewrite Heq in H. cbn [default from_option id] in H.
  destruct (JS.truthy (Some u) && negb (String.eqb u (d_uuid drive))) eqn:Hin;
    [left; eapply HF; exact H |].
  destruct (userCanWriteDrive user drive) eqn:Hcan; cbn [negb] in H;
    [| left; eapply HF; exact H].
  destruct (bool_decide (d_privacy drive = Some true)) eqn:Hpriv; cbn [negb] in H;
    [| left; eapply HF; exact H].
  apply bool_decide_eq_true in Hpriv.
  destruct (opt_string_eqb (fp_op props) (Some "format")) eqn:Hop;
    [| left; eapply HF; exact H].
  apply opt_string_eqb_true in Hop.
  right. exists u, dir, drive.
  split; [exact Heq |]. split; [reflexivity |]. split; [exact Hop |].
  split; [exact Hdir |]. split; [exact Hdrv |]. split; [exact Hpriv |].
  split; [| split; [| symmetry; exact H]].
  - unfold userCanWriteDrive in Hcan.
    rewrite (bool_decide_eq_true_2 _ Hpriv) in Hcan. cbn [orb] in Hcan.
    apply String.eqb_eq in Hcan. congruence.
  - intros Hne. apply andb_false_iff in Hin as [Ht | Hn].
    + exfalso. unfold JS.truthy in Ht. cbn in Ht.
      destruct (String.eqb u EmptyString) eqn:E;
        [apply String.eqb_eq in E; contradiction | cbn in Ht; discriminate].
    + apply negb_false_iff, String.eqb_eq in Hn. congruence.
Qed.

(** X24: dirFormat changes something or succeeds only when driveUUID and dirUUID
    are the same uuid, op is format, and the drive holding that directory is
    private and owned by the caller. *)
Theorem dirFormat_is_for_the_owner_of_a_private_drive :
  forall dir_read (user : User) (props : FormatProps) (w w' : World)
         (r : outcome (list Xstat)),
    dirFormat dir_read user props w = (r, w') ->
    w' <> w \/ (exists xstats, r = Done xstats) ->
    exists u dir drive,
      fp_driveUUID props = Some u /\ fp_dirUUID props = Some u
      /\ fp_op props = Some "format"
      /\ w_uuidMap w !! u = Some dir
      /\ find_drive w (r_uuid (root dir)) = Some drive
      /\ d_privacy drive = Some true
      /\ d_owner drive = u_uuid user
      /\ (u <> EmptyString -> d_uuid drive = u).
Proof.
  intros dir_read user props w w' r H Hch.
  destruct (dirFormat_cases _ _ _ _ _ _ H)
    as [(Hw & Hr) | (u & dir & drive & H1 & H2 & H3 & H4 & H5 & H6 & H7 & H8 & _)].
  - exfalso. destruct Hch as [Hne | (xs & Hx)]; [contradiction |].
    exact (Hr xs Hx).
  - exists u, dir, drive. repeat (split; [assumption |]). assumption.
Qed.

Lemma dirFormat_is_for_the_owner_of_a_private_drive_witness :
  fst (dirFormat Sample.no_read Sample.alice Cases.format_home Sample.world)
  = Done []
  /\ exists drive,
       find_drive Sample.world (r_uuid (root Sample.home_root)) = Some drive
       /\ d_privacy drive = Some true
       /\ d_owner drive = u_uuid Sample.alice.
Proof.
  assert (Hfst : fst (dirFormat Sample.no_read Sample.alice Cases.format_home
                        Sample.world) = Done [])
    by (vm_compute; reflexivity).
  split; [exact Hfst |].
  destruct (dirFormat_is_for_the_owner_of_a_private_drive Sample.no_read
              Sample.alice Cases.format_home Sample.world _ _
              (split_run _ _ Hfst) (or_intror (ex_intro _ [] eq_refl)))
    as (u & dir & drive & Hu & _ & _ & Hdir & Hdrive & Hpriv & Howner & _).
  assert (Hhome : w_uuidMap Sample.world !! u = Some Sample.home_root)
    by (inversion Hu; subst u; vm_compute; reflexivity).
  rewrite Hhome in Hdir. inversion Hdir; subst dir.
  exists drive. auto.
Defined.

Lemma tmp_outside_drive :
  forall (w : World) (uuid : string),
    Underlying.is_prefix_path (path_join (driveDir w) uuid) (fst (TMPFILE w))
    = false.
Proof.
  intros w uuid. unfold Underlying.is_prefix_path. apply bool_decide_eq_false.
  unfold TMPFILE, path_join, tmpDir, driveDir, path_join. cbn [fst].
  rewrite <- !app_assoc. cbn. rewrite !length_app. cbn.
  rewrite take_app_add'; [| reflexivity]. cbn.
  intros H. apply app_inv_head in H. discriminate.
Qed.

Lemma prefix_self :
  forall p, Underlying.is_prefix_path p p = true.
Proof.
  intros p. unfold Underlying.is_prefix_path. apply bool_decide_eq_true.
  apply firstn_all.
Qed.

Lemma lookup_outside :
  forall {A} (m : gmap path A) (p q : path),
    Underlying.is_prefix_path p q = false ->
    filter (fun kv : path * A => Underlying.is_prefix_path p (fst kv) = false) m
      !! q = m !! q.
Proof.
  intros A m p q H. destruct (m !! q) as [e |] eqn:Hq.
  - apply map_lookup_filter_Some. split; [exact Hq | exact H].
  - apply map_lookup_filter_None. left. exact Hq.
Qed.

Lemma lookup_below :
  forall {A} (m : gmap path A) (p q : path),
    Underlying.is_prefix_path p q = true ->
    filter (fun kv : path * A => Underlying.is_prefix_path p (fst kv) = false) m
      !! q = None.
Proof.
  intros A m p q H. apply map_lookup_filter_None. right. intros e _.
  cbn [fst]. rewrite H. discriminate.
Qed.

(** X25: A format of a drive whose directory exists on disk leaves that
    directory as an empty directory with the uuid it had, with nothing below
    it, and leaves every entry outside the drive as it was. *)
Theorem dirFormat_leaves_an_empty_drive :
  forall dir_read (user : User) (props : FormatProps) (w w' : World)
         (r : outcome (list Xstat)) (dir : Node) (attr : Entry),
    (forall c w0, w_disk (snd (dir_read c w0)) = w_disk w0) ->
    w_disk w !! fst (TMPFILE w) = None ->
    uuidMap_get w (fp_dirUUID props) = Some dir ->
    w_disk w !! path_join (driveDir w) (r_uuid (root dir)) = Some attr ->
    dirFormat dir_read user props w = (r, w') ->
    w' <> w ->
    let dirPath := path_join (driveDir w) (r_uuid (root dir)) in
    (exists e, w_disk w' !! dirPath = Some e
               /\ e_uuid e = e_uuid attr /\ e_type e = EDirectory
               /\ e_content e = [])
    /\ (forall q, q <> dirPath -> Underlying.is_prefix_path dirPath q = true ->
                  w_disk w' !! q = None)
    /\ (forall q, Underlying.is_prefix_path dirPath q = false ->
                  w_disk w' !! q = w_disk w !! q).
Proof.
  intros dir_read user props w w' r dir attr Hread Hfresh Hdir Hattr H Hch dirPath.
  destruct (dirFormat_cases _ _ _ _ _ _ H)
    as [(Hw & _) | (u & dir' & drive & _ & H2 & _ & H4 & _ & _ & _ & _ & Hf)];
    [contradiction |].
  rewrite H2 in Hdir. cbn [uuidMap_get] in Hdir.
  assert (dir' = dir) by congruence. subst dir'. clear H4 H.
  pose proof (tmp_outside_drive w (r_uuid (root dir))) as Hout.
  fold dirPath in Hout.
  assert (Hne : fst (TMPFILE w) <> dirPath).
  { intros E. rewrite E, prefix_self in Hout. discriminate. }
  unfold format_root in Hf. fold dirPath in Hf.
  destruct (TMPFILE w) as [tmp w1] eqn:Htmp. cbn [fst] in *.
  assert (Hd1 : w_disk w1 = w_disk w)
    by (unfold TMPFILE in Htmp; inversion Htmp; reflexivity).
  unfold mkdirp_sync in Hf. rewrite Hd1, Hfresh in Hf.
  cbn [w_disk set_disk] in Hf.
  rewrite lookup_insert_ne in Hf by exact Hne. fold dirPath in Hattr.
  unfold path in *. rewrite Hattr in Hf.
  unfold xattr_setSync in Hf. cbn [w_disk set_disk] in Hf.
  rewrite lookup_insert_eq in Hf. cbn [e_type e_mtime e_content] in Hf.
  rewrite insert_insert_eq in Hf.
  unfold Underlying.rename, rimraf_sync in Hf.
  cbn [w_disk set_disk set_text log_call] in Hf.
  set (fresh := {| e_uuid := e_uuid attr; e_type := EDirectory;
                   e_mtime := w_clock w1; e_hash := e_hash attr;
                   e_tags := e_tags attr; e_content := [] |}) in *.
  match type of Hf with
  | context [match ?x with Some _ => _ | None => _ end] =>
      assert (Hk : x = Some fresh)
        by (apply map_lookup_filter_Some; split;
            [apply lookup_insert_eq | exact Hout])
  end.
  rewrite Hk in Hf.
  match type of Hf with
  | context [dir_read ?c ?w5] =>
      pose proof (Hread c w5) as Hd; destruct (dir_read c w5) as [[err | xs] w6]
  end; cbn [snd w_disk set_disk log_call set_text] in Hd;
    inversion Hf; subst r w'; rewrite Hd.
  all: split; [exists fresh; split; [apply lookup_insert_eq | auto] |].
  all: split.
  all: try (intros q Hq Hpre; rewrite lookup_insert_ne by congruence;
            destruct (decide (q = tmp)) as [-> | Hqt];
            [apply lookup_delete_eq |];
            rewrite lookup_delete_ne by congruence;
            apply lookup_below; exact Hpre).
  all: intros q Hpre;
    assert (Hqd : q <> dirPath)
      by (intros E; rewrite E, prefix_self in Hpre; discriminate);
    rewrite lookup_insert_ne by congruence;
    destruct (decide (q = tmp)) as [-> | Hqt];
    [rewrite lookup_delete_eq; symmetry; exact Hfresh |];
    rewrite lookup_delete_ne by congruence;
    rewrite (lookup_outside _ _ _ Hpre);
    apply lookup_insert_ne; congruence.
Qed.

Lemma dirFormat_leaves_an_empty_drive_witness :
  w_disk (snd (dirFormat Sample.no_read Sample.alice Cases.format_home
                 Sample.world)) !! path_join Sample.home_path "a.txt" = None
  /\ w_disk (snd (dirFormat Sample.no_read Sample.alice Cases.format_home
                    Sample.world)) !! Sample.upload
     = w_disk Sample.world !! Sample.upload.
Proof.
  assert (Hch : snd (dirFormat Sample.no_read Sample.alice Cases.format_home
                       Sample.world) <> Sample.world).
  { intros E. apply (f_equal w_tmpseq) in E. vm_compute in E. discriminate. }
  destruct (dirFormat_leaves_an_empty_drive Sample.no_read Sample.alice
              Cases.format_home Sample.world _ _ Sample.home_root
              (Sample.dir_entry Sample.home_uuid 10)
              ltac:(reflexivity) ltac:(vm_compute; reflexivity)
              ltac:(vm_compute; reflexivity) ltac:(vm_compute; reflexivity)
              (surjective_pairing _) Hch)
    as (_ & Hbelow & Hout).
  split.
  - apply Hbelow; [vm_compute; discriminate | vm_compute; reflexivity].
  - apply Hout. vm_compute. reflexivity.
Defined.

(** ** One entry, and RMDIR on a directory that is not empty *)




(** X27: RMDIR on a directory that still has an entry in it calls back with
    success although nothing is removed: the disk is unchanged and the
    parent is not read again. *)
Theorem RMDIR_of_a_full_directory_reports_success :
  forall dir_read (user : User) (props : Props) (w : World)
         (dir : Node) (p : Ref) (child : path) (e : Entry),
    DIR w user props = Done dir ->
    parent dir = Some p ->
    w_disk w !! child = Some e ->
    child <> absolutePath w dir ->
    Underlying.is_prefix_path (absolutePath w dir) child = true ->
    RMDIR dir_read user props w
    = (Done tt, log_call (Call_rmdir (absolutePath w dir)) w).
Proof.
  intros dir_read user props w dir p child e Hdir Hp Hc Hne Hpre.
  unfold RMDIR. rewrite Hdir, Hp. cbv zeta. unfold Underlying.rmdir.
  destruct (w_disk w !! absolutePath w dir) as [en |]; [| reflexivity].
  destruct (e_type en); try reflexivity.
  destruct (bool_decide (map_Forall _ (w_disk w))) eqn:Hb; [| reflexivity].
  exfalso. apply bool_decide_eq_true in Hb.
  destruct (Hb child e Hc) as [E | E]; [contradiction | congruence].
Qed.

Lemma RMDIR_of_a_full_directory_reports_success_witness :
  RMDIR Sample.no_read Sample.alice (Sample.props Sample.docs_uuid "docs")
    Cases.stocked
  = (Done tt,
     log_call (Call_rmdir (absolutePath Cases.stocked Sample.docs))
       Cases.stocked).
Proof.
  apply (RMDIR_of_a_full_directory_reports_success Sample.no_read Sample.alice
           (Sample.props Sample.docs_uuid "docs") Cases.stocked Sample.docs
           (self_ref Sample.home_root)
           (path_join (path_join Sample.home_path "docs") "b.txt")
           (Sample.file_entry (n_uuid Sample.b_txt) 200 None (Some [1])
              [ {| ext_id := "b"; ext_size := 7 |} ])).
  - vm_compute. reflexivity.
  - reflexivity.
  - vm_compute. reflexivity.
  - vm_compute. discriminate.
  - vm_compute. reflexivity.
Defined.
